(** * Titan core: object model and archive protocol

    A shallow embedding of [TitanMain/Core/Object.h], [Object.cpp] and
    [Archive.h].  Entities live in a heap indexed by address, raw pointers
    are [option addr] ([None] is [nullptr]), the atomic 32-bit reference
    counter is a [Z] with its two's complement wrap-around written out, and
    the registry is a pair of finite maps.  Stateful code is written in a
    state-and-failure monad over the [World]; failure stands for behaviour
    the C++ program leaves undefined (a dereference of a reclaimed entity)
    or for a recursion that never returns. *)

From Stdlib Require Import ZArith Lia List.
From Stdlib.Strings Require Import String Ascii Byte.
From coqutil Require Import Byte Word.LittleEndianList.
From stdpp Require Import gmap strings list fin_maps.

Local Open Scope Z_scope.

(** ** Fixed-width integers *)

Module Int.

Definition INT32_MAX : Z := 2147483647.
Definition INT32_MIN : Z := -2147483648.
Definition UINT32_MAX : Z := 4294967295.
Definition UINT64_MAX : Z := 18446744073709551615.

(** [static_cast<uint32_t>]. *)
Definition to_uint32 (z : Z) : Z := z mod 4294967296.

(** [static_cast<uint64_t>]. *)
Definition to_uint64 (z : Z) : Z := z mod 18446744073709551616.

(** Two's complement reading of the low 32 bits. *)
Definition to_int32 (z : Z) : Z := (z + 2147483648) mod 4294967296 - 2147483648.

Definition in_int32 (z : Z) : Prop := INT32_MIN <= z <= INT32_MAX.

End Int.

(** ** Object flags ([enum class ObjectFlags : uint32_t]) *)

Module ObjectFlags.

Definition None_ : Z := 0.
Definition Public : Z := Z.shiftl 1 0.
Definition Standalone : Z := Z.shiftl 1 1.
Definition MarkAsNative : Z := Z.shiftl 1 2.
Definition Transient : Z := Z.shiftl 1 3.
Definition MarkAsRootSet : Z := Z.shiftl 1 4.
Definition NeedInitialization : Z := Z.shiftl 1 5.
Definition BeginDestroyed : Z := Z.shiftl 1 6.
Definition FinishDestroyed : Z := Z.shiftl 1 7.
Definition BeingRegenerated : Z := Z.shiftl 1 8.
Definition DefaultSubObject : Z := Z.shiftl 1 9.
Definition WasLoaded : Z := Z.shiftl 1 10.
Definition TextExportTransient : Z := Z.shiftl 1 11.
Definition LoadCompleted : Z := Z.shiftl 1 12.
Definition InitializedProps : Z := Z.shiftl 1 13.
Definition ConstructedObject : Z := Z.shiftl 1 14.

(** [operator|], [operator&] and [operator~] on the underlying [uint32_t]. *)
Definition or (a b : Z) : Z := Z.lor a b.
Definition and (a b : Z) : Z := Z.land a b.
Definition not (a : Z) : Z := Int.to_uint32 (Z.lnot a).

End ObjectFlags.

(** ** Entities and the world they live in *)

Definition addr := nat.
Definition class_addr := nat.

(** The data members of [ObjectBase]. *)
Record ObjectData := mkObject {
  Name : string;
  ClassPrivate : option class_addr;
  OuterPrivate : option addr;
  ObjectFlagsPrivate : Z;
  RefCount : Z
}.

(** Calls recorded in the order the program makes them. *)
Inductive Event :=
| EvAddRef (a : addr)
| EvRelease (a : addr)
| EvDelete (a : addr)
| EvBeginDestroy (a : addr)
| EvFinishDestroy (a : addr)
| EvRegisterObject (a : addr)
| EvUnregisterObject (a : addr)
| EvPostInitProperties (a : addr).

#[global] Instance Event_eq_dec : EqDecision Event.
Proof. solve_decision. Defined.

(** [heap] holds the live entities; [Objects] and [ObjectsByClass] are the
    two maps of the [ObjectRegistry] singleton; [handles] holds the
    [ObjectPtr] variables of the program, keyed by their own location;
    [trace] is the call history. *)
Record World := mkWorld {
  heap : gmap addr ObjectData;
  Objects : gmap string addr;
  ObjectsByClass : gmap class_addr (list addr);
  handles : gmap nat (option addr);
  trace : list Event
}.

Definition empty_world : World := mkWorld ∅ ∅ ∅ ∅ [].

Definition set_heap (f : gmap addr ObjectData -> gmap addr ObjectData) (w : World) : World :=
  mkWorld (f (heap w)) (Objects w) (ObjectsByClass w) (handles w) (trace w).

Definition set_Objects (f : gmap string addr -> gmap string addr) (w : World) : World :=
  mkWorld (heap w) (f (Objects w)) (ObjectsByClass w) (handles w) (trace w).

Definition set_ObjectsByClass
    (f : gmap class_addr (list addr) -> gmap class_addr (list addr)) (w : World) : World :=
  mkWorld (heap w) (Objects w) (f (ObjectsByClass w)) (handles w) (trace w).

Definition set_handles (f : gmap nat (option addr) -> gmap nat (option addr)) (w : World) : World :=
  mkWorld (heap w) (Objects w) (ObjectsByClass w) (f (handles w)) (trace w).

Definition log (e : Event) (w : World) : World :=
  mkWorld (heap w) (Objects w) (ObjectsByClass w) (handles w) (trace w ++ [e]).

Definition set_RefCount (c : Z) (o : ObjectData) : ObjectData :=
  mkObject (Name o) (ClassPrivate o) (OuterPrivate o) (ObjectFlagsPrivate o) c.

Definition set_Flags (f : Z) (o : ObjectData) : ObjectData :=
  mkObject (Name o) (ClassPrivate o) (OuterPrivate o) f (RefCount o).

(** ** The monad of the embedding *)

Definition M (A : Type) : Type := World -> option (A * World).

Definition ret {A} (x : A) : M A := fun w => Some (x, w).

Definition bind {A B} (m : M A) (k : A -> M B) : M B :=
  fun w => match m w with
           | Some (x, w') => k x w'
           | None => None
           end.

Definition modify (f : World -> World) : M unit := fun w => Some (tt, f w).

Declare Scope m_scope.
Delimit Scope m_scope with M.
Notation "x <- c1 ;; c2" := (bind c1 (fun x => c2))
  (at level 100, c1 at next level, right associativity) : m_scope.
Notation "c1 ;; c2" := (bind c1 (fun _ => c2))
  (at level 100, right associativity) : m_scope.

(** Dereferencing a pointer: a reclaimed or unknown address has no defined
    behaviour. *)
Definition deref (a : addr) : M ObjectData :=
  fun w => match heap w !! a with
           | Some o => Some (o, w)
           | None => None
           end.

(** ** ObjectBase *)

(** [ObjectBase::ObjectBase] followed by [Object::Object], run by [new] at a
    fresh address: the member initialisers, [RefCount.store(1)], then
    [AddFlags(NeedInitialization)]. *)
Definition new_ObjectData : ObjectData :=
  mkObject EmptyString None None
           (ObjectFlags.or ObjectFlags.None_ ObjectFlags.NeedInitialization) 1.

Definition new_Object (a : addr) : M unit :=
  fun w => match heap w !! a with
           | Some _ => None
           | None => Some (tt, set_heap <[a := new_ObjectData]> w)
           end.

Definition GetRefCount (a : addr) (w : World) : option Z :=
  RefCount <$> heap w !! a.

Definition GetFlags (a : addr) (w : World) : option Z :=
  ObjectFlagsPrivate <$> heap w !! a.

Definition HasFlags (flags : Z) (o : ObjectData) : bool :=
  negb (ObjectFlags.and (ObjectFlagsPrivate o) flags =? ObjectFlags.None_).

Definition IsPendingKill (o : ObjectData) : bool :=
  HasFlags ObjectFlags.BeginDestroyed o.

Definition AddFlags (a : addr) (flags : Z) : M unit :=
  (o <- deref a ;;
   modify (set_heap <[a := set_Flags (ObjectFlags.or (ObjectFlagsPrivate o) flags) o]>))%M.

Definition RemoveFlags (a : addr) (flags : Z) : M unit :=
  (o <- deref a ;;
   modify (set_heap
     <[a := set_Flags (ObjectFlags.and (ObjectFlagsPrivate o) (ObjectFlags.not flags)) o]>))%M.

(** [RefCount.fetch_add(1)]. *)
Definition AddRef (a : addr) : M unit :=
  (o <- deref a ;;
   modify (fun w => log (EvAddRef a)
     (set_heap <[a := set_RefCount (Int.to_int32 (RefCount o + 1)) o]> w)))%M.

(** [delete this]: the destructors of [Object] and [ObjectBase] have empty
    bodies, then the storage is reclaimed. *)
Definition delete_this (a : addr) : M unit :=
  modify (fun w => log (EvDelete a) (set_heap (delete a) w)).

(** [if (RefCount.fetch_sub(1) == 1) delete this;] *)
Definition Release (a : addr) : M unit :=
  (o <- deref a ;;
   modify (fun w => log (EvRelease a)
     (set_heap <[a := set_RefCount (Int.to_int32 (RefCount o - 1)) o]> w)) ;;
   if RefCount o =? 1 then delete_this a else ret tt)%M.

Definition BeginDestroy (a : addr) : M unit :=
  (modify (log (EvBeginDestroy a)) ;;
   AddFlags a ObjectFlags.BeginDestroyed)%M.

Definition FinishDestroy (a : addr) : M unit :=
  (modify (log (EvFinishDestroy a)) ;;
   AddFlags a ObjectFlags.FinishDestroyed)%M.

(** How often [delete] ran on an address. *)
Definition destroy_count (a : addr) (w : World) : nat :=
  length (filter (fun e => e = EvDelete a) (trace w)).

(** ** Object: names along the Outer chain *)

(** [Object::GetFullName].  The C++ function recurses through
    [OuterPrivate]; [fuel] bounds the depth of that recursion and [None]
    stands for a call that does not return a string (the fuel ran out, or
    a pointer on the chain is dangling). *)
Fixpoint GetFullName_rec (fuel : nat) (h : gmap addr ObjectData) (a : addr) : option string :=
  match fuel with
  | O => None
  | S fuel' =>
      match h !! a with
      | None => None
      | Some o =>
          let result := Name o in
          match OuterPrivate o with
          | Some outer =>
              match GetFullName_rec fuel' h outer with
              | Some s => Some ((s +:+ ".") +:+ result)
              | None => None
              end
          | None => Some result
          end
      end
  end.

(** [Object::GetPathName]. *)
Fixpoint GetPathName_rec (fuel : nat) (h : gmap addr ObjectData) (a : addr) : option string :=
  match fuel with
  | O => None
  | S fuel' =>
      match h !! a with
      | None => None
      | Some o =>
          let result := Name o in
          match OuterPrivate o with
          | Some outer =>
              match GetPathName_rec fuel' h outer with
              | Some s => Some ((s +:+ "/") +:+ result)
              | None => None
              end
          | None => Some result
          end
      end
  end.

(** A chain without a cycle visits each live entity at most once, so one
    frame per live entity plus one is all a returning call can use. *)
Definition name_fuel (h : gmap addr ObjectData) : nat := S (size h).

Definition GetFullName (a : addr) (w : World) : option string :=
  GetFullName_rec (name_fuel (heap w)) (heap w) a.

Definition GetPathName (a : addr) (w : World) : option string :=
  GetPathName_rec (name_fuel (heap w)) (heap w) a.

Definition GetFullNameM (a : addr) : M string :=
  fun w => match GetFullName a w with
           | Some s => Some (s, w)
           | None => None
           end.

(** The ancestors of an entity, itself first and the root last: the
    finite, acyclic Outer chains are those that have such a list. *)
Inductive OuterChain (h : gmap addr ObjectData) : addr -> list addr -> Prop :=
| OuterChain_root a o :
    h !! a = Some o -> OuterPrivate o = None -> OuterChain h a [a]
| OuterChain_step a o outer l :
    h !! a = Some o -> OuterPrivate o = Some outer ->
    OuterChain h outer l -> OuterChain h a (a :: l).

(** Names of the entities of a chain, root first. *)
Definition chain_names (h : gmap addr ObjectData) (l : list addr) : list string :=
  rev (omap (fun a => Name <$> h !! a) l).

(** ** ObjectRegistry *)

(** [ObjectsByClass[objClass]]: [operator[]] of the map yields the stored
    vector, or a new empty one. *)
Definition class_objects (c : class_addr) (m : gmap class_addr (list addr)) : list addr :=
  default [] (m !! c).

Definition RegisterObject (object : option addr) : M unit :=
  match object with
  | None => ret tt
  | Some a =>
      (modify (log (EvRegisterObject a)) ;;
       name <- GetFullNameM a ;;
       modify (set_Objects <[name := a]>) ;;
       o <- deref a ;;
       match ClassPrivate o with
       | Some objClass =>
           modify (set_ObjectsByClass
                     (fun m => <[objClass := class_objects objClass m ++ [a]]> m))
       | None => ret tt
       end)%M
  end.

Definition UnregisterObject (object : option addr) : M unit :=
  match object with
  | None => ret tt
  | Some a =>
      (modify (log (EvUnregisterObject a)) ;;
       name <- GetFullNameM a ;;
       modify (set_Objects (delete name)) ;;
       o <- deref a ;;
       match ClassPrivate o with
       | Some objClass =>
           modify (set_ObjectsByClass
                     (fun m => <[objClass :=
                        filter (fun x => x <> a) (class_objects objClass m)]> m))
       | None => ret tt
       end)%M
  end.

Definition FindObject (name : string) (w : World) : option addr :=
  Objects w !! name.

Definition GetObjectsOfClass (objectClass : class_addr) (w : World) : list addr :=
  match ObjectsByClass w !! objectClass with
  | Some l => l
  | None => []
  end.

Definition GetObjectCount (w : World) : nat := size (Objects w).

(** ** Object: creation and destruction *)

Section Virtuals.

(** The two virtual functions [Object::CreateObject] dispatches to:
    the factory of the [Class] and the initialisation hook of the new
    entity. *)
Variable Class_CreateObject : class_addr -> option addr -> string -> M (option addr).
Variable PostInitProperties : addr -> M unit.

Definition CreateObject (objectClass : option class_addr) (outer : option addr)
    (name : string) : M (option addr) :=
  match objectClass with
  | None => ret None
  | Some c =>
      (newObject <- Class_CreateObject c outer name ;;
       match newObject with
       | Some a =>
           (RegisterObject (Some a) ;;
            modify (log (EvPostInitProperties a)) ;;
            PostInitProperties a ;;
            ret newObject)
       | None => ret newObject
       end)%M
  end.

End Virtuals.

(** The base implementations: [Class::CreateObject] returns [nullptr],
    [Object::PostInitProperties] has an empty body. *)
Definition Class_CreateObject_base : class_addr -> option addr -> string -> M (option addr) :=
  fun _ _ _ => ret None.

Definition PostInitProperties_base : addr -> M unit := fun _ => ret tt.

Definition DestroyObject (object : option addr) : M unit :=
  match object with
  | None => ret tt
  | Some a =>
      (BeginDestroy a ;;
       UnregisterObject (Some a) ;;
       FinishDestroy a ;;
       Release a)%M
  end.

(** ** ObjectPtr *)

Module ObjectPtr.

(** [Ptr] of the handle stored at location [this]. *)
Definition Ptr (this : nat) : M (option addr) :=
  fun w => match handles w !! this with
           | Some p => Some (p, w)
           | None => None
           end.

Definition set_Ptr (this : nat) (p : option addr) : M unit :=
  modify (set_handles <[this := p]>).

(** Storage for a handle under construction must not hold one already. *)
Definition fresh (this : nat) : M unit :=
  fun w => match handles w !! this with
           | Some _ => None
           | None => Some (tt, w)
           end.

Definition AddRef (this : nat) : M unit :=
  (p <- Ptr this ;;
   match p with
   | Some a => AddRef a
   | None => ret tt
   end)%M.

Definition Release (this : nat) : M unit :=
  (p <- Ptr this ;;
   match p with
   | Some a => Release a
   | None => ret tt
   end)%M.

(** [ObjectPtr()] *)
Definition ctor_default (this : nat) : M unit :=
  (fresh this ;; set_Ptr this None)%M.

(** [ObjectPtr(T* ptr)] *)
Definition ctor_raw (this : nat) (ptr : option addr) : M unit :=
  (fresh this ;; set_Ptr this ptr ;; AddRef this)%M.

(** [ObjectPtr(const ObjectPtr& other)] *)
Definition ctor_copy (this other : nat) : M unit :=
  (fresh this ;; p <- Ptr other ;; set_Ptr this p ;; AddRef this)%M.

(** [ObjectPtr(ObjectPtr&& other)] *)
Definition ctor_move (this other : nat) : M unit :=
  (fresh this ;; p <- Ptr other ;; set_Ptr this p ;; set_Ptr other None)%M.

(** [~ObjectPtr()] *)
Definition dtor (this : nat) : M unit :=
  (Release this ;; modify (set_handles (delete this)))%M.

(** [operator=(const ObjectPtr& other)] *)
Definition assign_copy (this other : nat) : M unit :=
  if decide (this <> other) then
    (Release this ;; p <- Ptr other ;; set_Ptr this p ;; AddRef this)%M
  else ret tt.

(** [operator=(ObjectPtr&& other)] *)
Definition assign_move (this other : nat) : M unit :=
  if decide (this <> other) then
    (Release this ;; p <- Ptr other ;; set_Ptr this p ;; set_Ptr other None)%M
  else ret tt.

Definition Get (this : nat) (w : World) : option (option addr) := handles w !! this.

Definition IsValid (this : nat) (w : World) : option bool :=
  (fun p => bool_decide (p <> None)) <$> handles w !! this.

End ObjectPtr.

(** A sequence of calls on the counter of one entity. *)
Inductive RefOp := OpAddRef | OpRelease.

#[global] Instance RefOp_eq_dec : EqDecision RefOp.
Proof. solve_decision. Defined.

Definition run_op (a : addr) (op : RefOp) : M unit :=
  match op with
  | OpAddRef => AddRef a
  | OpRelease => Release a
  end.

Fixpoint run_ops (a : addr) (ops : list RefOp) : M unit :=
  match ops with
  | [] => ret tt
  | op :: ops' => (run_op a op ;; run_ops a ops')%M
  end.

Definition count_op (op : RefOp) (ops : list RefOp) : Z :=
  Z.of_nat (length (filter (fun x => x = op) ops)).

(** ** Archive *)

Module ArchiveFlags.

Definition None_ : Z := 0.
Definition Loading : Z := Z.shiftl 1 0.
Definition Saving : Z := Z.shiftl 1 1.
Definition Binary : Z := Z.shiftl 1 2.
Definition Text : Z := Z.shiftl 1 3.
Definition Persistent : Z := Z.shiftl 1 4.
Definition Volatile : Z := Z.shiftl 1 5.

Definition or (a b : Z) : Z := Z.lor a b.
Definition and (a b : Z) : Z := Z.land a b.

End ArchiveFlags.

(** The data member of the abstract [Archive] and its constructor. *)
Record Archive := mkArchive { Flags : Z }.

Definition Archive_new (flags : Z) : Archive := mkArchive flags.

Definition IsLoading (ar : Archive) : bool :=
  negb (ArchiveFlags.and (Flags ar) ArchiveFlags.Loading =? ArchiveFlags.None_).

Definition IsSaving (ar : Archive) : bool :=
  negb (ArchiveFlags.and (Flags ar) ArchiveFlags.Saving =? ArchiveFlags.None_).

Definition IsBinary (ar : Archive) : bool :=
  negb (ArchiveFlags.and (Flags ar) ArchiveFlags.Binary =? ArchiveFlags.None_).

Definition IsText (ar : Archive) : bool :=
  negb (ArchiveFlags.and (Flags ar) ArchiveFlags.Text =? ArchiveFlags.None_).

Definition IsPersistent (ar : Archive) : bool :=
  negb (ArchiveFlags.and (Flags ar) ArchiveFlags.Persistent =? ArchiveFlags.None_).

(** *** SerializeArray

    The template is written against the pure virtual [operator<<] of the
    archive, so it is modelled over any backend: [base] projects the
    [Archive] subobject, [shift_uint32] and [shift_elem] are the overloads
    for the length prefix and for the element type ([None] is a backend
    that throws), and [T_init] is the value-initialised element [T()] that
    [std::vector::resize] appends. *)
Section SerializeArray.

Context {A T : Type}.
Variable base : A -> Archive.
Variable shift_uint32 : A -> Z -> option (A * Z).
Variable shift_elem : A -> T -> option (A * T).
Variable T_init : T.

(** [for (auto& element : array) *this << element;] *)
Fixpoint serialize_elements (ar : A) (array : list T) : option (A * list T) :=
  match array with
  | [] => Some (ar, [])
  | element :: rest =>
      match shift_elem ar element with
      | Some (ar1, element') =>
          match serialize_elements ar1 rest with
          | Some (ar2, rest') => Some (ar2, element' :: rest')
          | None => None
          end
      | None => None
      end
  end.

(** The statements before the loop: the prefix and the resize. *)
Definition SerializeArray_prefix (ar : A) (array : list T) : option (A * list T) :=
  let size := Int.to_uint32 (Z.of_nat (length array)) in
  match shift_uint32 ar size with
  | Some (ar1, size') =>
      if IsLoading (base ar1)
      then Some (ar1, resize (Z.to_nat size') T_init array)
      else Some (ar1, array)
  | None => None
  end.

Definition SerializeArray (ar : A) (array : list T) : option (A * list T) :=
  match SerializeArray_prefix ar array with
  | Some (ar1, array1) => serialize_elements ar1 array1
  | None => None
  end.

End SerializeArray.

(** *** Primitive values *)

Inductive NumType :=
| TInt8 | TUInt8 | TInt16 | TUInt16 | TInt32 | TUInt32 | TInt64 | TUInt64
| TFloat | TDouble.

Inductive PrimType := TBool | TNum (t : NumType) | TString.

(** A value of one of the twelve types [operator<<] is overloaded for.
    A [float] or [double] is carried as its IEEE-754 bit pattern, which is
    what a binary archive copies. *)
Inductive Prim :=
| PBool (b : bool)
| PNum (t : NumType) (z : Z)
| PString (s : string).

Definition type_of (v : Prim) : PrimType :=
  match v with
  | PBool _ => TBool
  | PNum t _ => TNum t
  | PString _ => TString
  end.

Definition num_bytes (t : NumType) : nat :=
  match t with
  | TInt8 | TUInt8 => 1
  | TInt16 | TUInt16 => 2
  | TInt32 | TUInt32 | TFloat => 4
  | TInt64 | TUInt64 | TDouble => 8
  end.

Definition num_signed (t : NumType) : bool :=
  match t with
  | TInt8 | TInt16 | TInt32 | TInt64 => true
  | _ => false
  end.

Definition num_bits (t : NumType) : Z := Z.of_nat (num_bytes t) * 8.

(** The values a variable of the numeric C++ type can hold. *)
Definition num_ok (t : NumType) (z : Z) : bool :=
  if num_signed t
  then (- 2 ^ (num_bits t - 1) <=? z) && (z <? 2 ^ (num_bits t - 1))
  else (0 <=? z) && (z <? 2 ^ num_bits t).

(** Well-formed values: a number within the range of its type, and a
    string whose length is a 64-bit [size_t]. *)
Definition prim_ok (v : Prim) : bool :=
  match v with
  | PBool _ => true
  | PNum t z => num_ok t z
  | PString s => Z.of_nat (String.length s) <=? Int.UINT64_MAX
  end.

(** A freshly declared variable of the type. *)
Definition fresh_var (t : PrimType) : Prim :=
  match t with
  | TBool => PBool false
  | TNum n => PNum n 0
  | TString => PString EmptyString
  end.

(** *** MemoryArchive *)

Record MemoryArchive := mkMemoryArchive {
  MBase : Archive;
  Data : list byte;
  Position : nat
}.

(** Modelled from the spec: the member definitions of [MemoryArchive]
    (only the class declaration in [Archive.h] is at hand).  The archive
    is a growable byte buffer with a cursor: saving overwrites or appends
    bytes at the cursor and advances it, loading reads bytes at the cursor
    and advances it, and a read past the end fails.  The chosen encoding is
    fixed-width little-endian for the numeric types, one byte for [bool],
    and the length as a 64-bit [size_t] followed by the bytes for a string. *)
Definition MemoryArchive_new (loading : bool) : MemoryArchive :=
  mkMemoryArchive
    (Archive_new (if loading then ArchiveFlags.Loading else ArchiveFlags.Saving)) [] 0.

(** Modelled from the spec: [MemoryArchive(const std::vector<uint8_t>&, bool)]. *)
Definition MemoryArchive_of_data (data : list byte) (loading : bool) : MemoryArchive :=
  mkMemoryArchive
    (Archive_new (if loading then ArchiveFlags.Loading else ArchiveFlags.Saving)) data 0.

Definition GetData (ar : MemoryArchive) : list byte := Data ar.

(** Modelled from the spec: [MemoryArchive::Seek] sets the cursor directly. *)
Definition Seek (position : Z) (ar : MemoryArchive) : MemoryArchive :=
  mkMemoryArchive (MBase ar) (Data ar) (Z.to_nat position).

(** Modelled from the spec: [MemoryArchive::Tell], the cursor. *)
Definition Tell (ar : MemoryArchive) : Z := Z.of_nat (Position ar).

(** Modelled from the spec: [MemoryArchive::TotalSize], the buffer length. *)
Definition TotalSize (ar : MemoryArchive) : Z := Z.of_nat (length (Data ar)).

(** Modelled from the spec: the write path of the buffer.  The buffer
    grows as needed; a gap left by a cursor beyond the end is zero-filled. *)
Definition write_bytes (bs : list byte) (ar : MemoryArchive) : MemoryArchive :=
  mkMemoryArchive (MBase ar)
    (resize (Position ar) x00 (Data ar) ++ bs
       ++ drop (Position ar + length bs)%nat (Data ar))
    (Position ar + length bs)%nat.

(** Modelled from the spec: the read path of the buffer, which fails on a
    read past the end. *)
Definition read_bytes (n : nat) (ar : MemoryArchive) : option (list byte * MemoryArchive) :=
  if (Position ar + n <=? length (Data ar))%nat
  then Some (take n (drop (Position ar) (Data ar)),
             mkMemoryArchive (MBase ar) (Data ar) (Position ar + n)%nat)
  else None.

(** Modelled from the spec: the byte encoding of a numeric value, the low
    [num_bytes t] bytes of its two's complement form, least significant
    first. *)
Definition encode_num (t : NumType) (z : Z) : list byte := le_split (num_bytes t) z.

(** Modelled from the spec: the value a numeric type reads from its bytes. *)
Definition decode_num (t : NumType) (bs : list byte) : Z :=
  let u := le_combine bs in
  if num_signed t && (2 ^ (num_bits t - 1) <=? u) then u - 2 ^ num_bits t else u.

(** Modelled from the spec: the byte encoding of a value. *)
Definition encode (v : Prim) : list byte :=
  match v with
  | PBool b => [if b then x01 else x00]
  | PNum t z => encode_num t z
  | PString s =>
      encode_num TUInt64 (Int.to_uint64 (Z.of_nat (String.length s)))
        ++ list_byte_of_string s
  end.

(** Modelled from the spec: loading reads the next value of the type of
    the caller's variable. *)
Definition load (t : PrimType) (ar : MemoryArchive) : option (MemoryArchive * Prim) :=
  match t with
  | TBool =>
      match read_bytes 1 ar with
      | Some (bs, ar1) => Some (ar1, PBool (negb (le_combine bs =? 0)))
      | None => None
      end
  | TNum n =>
      match read_bytes (num_bytes n) ar with
      | Some (bs, ar1) => Some (ar1, PNum n (decode_num n bs))
      | None => None
      end
  | TString =>
      match read_bytes 8 ar with
      | Some (bs, ar1) =>
          match read_bytes (Z.to_nat (decode_num TUInt64 bs)) ar1 with
          | Some (cs, ar2) => Some (ar2, PString (string_of_list_byte cs))
          | None => None
          end
      | None => None
      end
  end.

(** Modelled from the spec: [MemoryArchive::operator<<].  When Loading the
    caller's variable is overwritten with the next value of its type, when
    Saving its current value is written, and an archive that is neither is
    inert. *)
Definition shift (ar : MemoryArchive) (value : Prim) : option (MemoryArchive * Prim) :=
  if IsLoading (MBase ar) then load (type_of value) ar
  else if IsSaving (MBase ar) then Some (write_bytes (encode value) ar, value)
  else Some (ar, value).

(** The overload for [uint32_t&]. *)
Definition shift_uint32 (ar : MemoryArchive) (z : Z) : option (MemoryArchive * Z) :=
  match shift ar (PNum TUInt32 z) with
  | Some (ar1, PNum _ z') => Some (ar1, z')
  | _ => None
  end.

(** [ar << v1 << v2 << ...] on a list of variables. *)
Fixpoint shift_all (ar : MemoryArchive) (vars : list Prim) : option (MemoryArchive * list Prim) :=
  match vars with
  | [] => Some (ar, [])
  | v :: rest =>
      match shift ar v with
      | Some (ar1, v') =>
          match shift_all ar1 rest with
          | Some (ar2, rest') => Some (ar2, v' :: rest')
          | None => None
          end
      | None => None
      end
  end.

(** [SerializeArray] on a [std::vector] of the primitive type [t] through a
    memory archive. *)
Definition MemoryArchive_SerializeArray (t : PrimType) :
    MemoryArchive -> list Prim -> option (MemoryArchive * list Prim) :=
  SerializeArray MBase shift_uint32 shift (fresh_var t).

Definition MemoryArchive_SerializeArray_prefix (t : PrimType) :
    MemoryArchive -> list Prim -> option (MemoryArchive * list Prim) :=
  SerializeArray_prefix MBase shift_uint32 (fresh_var t).

(** ** Worlds and scenarios the statements below refer to *)

(** The world a [Release] leaves when it does not reclaim the entity. *)
Definition released (a : addr) (o : ObjectData) (w : World) : World :=
  log (EvRelease a) (set_heap <[a := set_RefCount (Int.to_int32 (RefCount o - 1)) o]> w).

(** Occurrences of a character in a string. *)
Fixpoint count_char (c : ascii) (s : string) : nat :=
  match s with
  | EmptyString => 0
  | String c' s' => (if Ascii.eqb c' c then 1 else 0) + count_char c s'
  end.

(** The number of segments a string splits into at its dots: one more
    than the dots it holds. *)
Definition dot_segments (s : string) : nat := S (count_char "." s).

(** A root entity whose own name holds a dot. *)
Definition dotted_name_world : World :=
  set_heap (fun _ => {[ 1%nat := mkObject "World.Level" None None 0 1 ]}) empty_world.

(** A root entity "World" and an entity "Level" inside it. *)
Definition nested_name_world : World :=
  set_heap (fun _ => {[ 1%nat := mkObject "World" None None 0 1;
                        2%nat := mkObject "Level" None (Some 1%nat) 0 1 ]}) empty_world.

(** The world [RegisterObject] leaves for an entity [o] at [a] whose full
    name is [n]. *)
Definition registered (a : addr) (n : string) (o : ObjectData) (w : World) : World :=
  let w1 := set_Objects <[n := a]> (log (EvRegisterObject a) w) in
  match ClassPrivate o with
  | Some c => set_ObjectsByClass (fun m => <[c := class_objects c m ++ [a]]> m) w1
  | None => w1
  end.

(** The world [UnregisterObject] leaves. *)
Definition unregistered (a : addr) (n : string) (o : ObjectData) (w : World) : World :=
  let w1 := set_Objects (delete n) (log (EvUnregisterObject a) w) in
  match ClassPrivate o with
  | Some c =>
      set_ObjectsByClass
        (fun m => <[c := filter (fun x => x <> a) (class_objects c m)]> m) w1
  | None => w1
  end.

(** A world with one registered root entity "Player" of class 10 at
    address 1, held by its creator and one further reference. *)
Definition one_entity_world : World :=
  mkWorld {[ 1%nat := mkObject "Player" (Some 10%nat) None ObjectFlags.NeedInitialization 2 ]}
          {[ "Player"%string := 1%nat ]}
          {[ 10%nat := [1%nat] ]}
          ∅ [].

(** The factory of a concrete class: it constructs an [Object] at the
    first free address and sets its name, outer and class. *)
Definition Class_CreateObject_concrete (c : class_addr) (outer : option addr) (name : string)
    : M (option addr) :=
  fun w =>
    let a := fresh (dom (heap w)) in
    Some (Some a,
          set_heap <[a := mkObject name (Some c) outer (ObjectFlagsPrivate new_ObjectData)
                                   (RefCount new_ObjectData)]> w).

(** The worlds [AddRef] and [Release] leave for a live entity [o] at [a]. *)
Definition addref_world (a : addr) (o : ObjectData) (w : World) : World :=
  log (EvAddRef a) (set_heap <[a := set_RefCount (Int.to_int32 (RefCount o + 1)) o]> w).

Definition release_world (a : addr) (o : ObjectData) (w : World) : World :=
  if RefCount o =? 1
  then log (EvDelete a) (set_heap (delete a) (released a o w))
  else released a o w.

(** Releasing what a handle held before it is overwritten. *)
Definition release_held (prev : option addr) (w : World) : option World :=
  match prev with
  | None => Some w
  | Some b => match heap w !! b with
              | Some ob => Some (release_world b ob w)
              | None => None
              end
  end.

(** An owning reference [p1] is copied into [p2] and [p3], then all three
    go out of scope. *)
Definition copy_twice_release_all (p1 p2 p3 : nat) : M unit :=
  (ObjectPtr.ctor_copy p2 p1 ;;
   ObjectPtr.ctor_copy p3 p1 ;;
   ObjectPtr.dtor p3 ;;
   ObjectPtr.dtor p2 ;;
   ObjectPtr.dtor p1)%M.

(** The same, with [p1] first constructed from the raw reference [a]. *)
Definition acquire_copy_twice_release_all (a : addr) (p1 p2 p3 : nat) : M unit :=
  (ObjectPtr.ctor_raw p1 (Some a) ;;
   copy_twice_release_all p1 p2 p3)%M.

(** The entity of [one_entity_world] with an owning reference to it at
    handle location 0; the counter is 2. *)
Definition one_handle_world : World := set_handles <[0%nat := Some 1%nat]> one_entity_world.

(** The bytes a sequence of values is saved as. *)
Definition encode_all (values : list Prim) : list byte := concat (encode <$> values).

(** ** Further members of ObjectBase *)

Definition set_Name (name : string) (o : ObjectData) : ObjectData :=
  mkObject name (ClassPrivate o) (OuterPrivate o) (ObjectFlagsPrivate o) (RefCount o).

Definition GetName (a : addr) (w : World) : option string :=
  Name <$> heap w !! a.

Definition SetName (a : addr) (name : string) : M unit :=
  (o <- deref a ;;
   modify (set_heap <[a := set_Name name o]>))%M.

Definition SetFlags (a : addr) (flags : Z) : M unit :=
  (o <- deref a ;;
   modify (set_heap <[a := set_Flags flags o]>))%M.

(** The flag words [AddFlags] and [RemoveFlags] store. *)
Definition added_flags (flags : Z) (o : ObjectData) : ObjectData :=
  set_Flags (ObjectFlags.or (ObjectFlagsPrivate o) flags) o.

Definition removed_flags (flags : Z) (o : ObjectData) : ObjectData :=
  set_Flags (ObjectFlags.and (ObjectFlagsPrivate o) (ObjectFlags.not flags)) o.

(** ** Reachability along Outer *)

(** [outer_of h a b]: the live entity [a] has [b] as its Outer. *)
Definition outer_of (h : gmap addr ObjectData) (a b : addr) : Prop :=
  exists o, h !! a = Some o /\ OuterPrivate o = Some b.

(** ** Accounting of owning references *)

(** The number of [ObjectPtr] variables that hold the entity [a]. *)
Definition holders (a : addr) (m : gmap nat (option addr)) : nat :=
  size (filter (fun kv => kv.2 = Some a) m).

(** 1 when the pointer is to [b], 0 otherwise. *)
Definition points_to (p : option addr) (b : addr) : Z :=
  if decide (p = Some b) then 1 else 0.

(** Every entity counted by [n] is live and its counter covers the count. *)
Definition covered (w : World) (n : addr -> Z) : Prop :=
  forall b, 0 < n b ->
    exists o, heap w !! b = Some o /\ n b <= RefCount o <= Int.INT32_MAX.

(** Every held entity is live and its counter is at least the number of
    owning references to it. *)
Definition handles_ok (w : World) : Prop :=
  covered w (fun b => Z.of_nat (holders b (handles w))).

(** The operations of [ObjectPtr], as a program may issue them. *)
Inductive HandleOp :=
| HDefault (this : nat)
| HRaw (this : nat) (ptr : option addr)
| HCopy (this other : nat)
| HMove (this other : nat)
| HDtor (this : nat)
| HAssignCopy (this other : nat)
| HAssignMove (this other : nat).

Definition run_handle_op (op : HandleOp) : M unit :=
  match op with
  | HDefault this => ObjectPtr.ctor_default this
  | HRaw this ptr => ObjectPtr.ctor_raw this ptr
  | HCopy this other => ObjectPtr.ctor_copy this other
  | HMove this other => ObjectPtr.ctor_move this other
  | HDtor this => ObjectPtr.dtor this
  | HAssignCopy this other => ObjectPtr.assign_copy this other
  | HAssignMove this other => ObjectPtr.assign_move this other
  end.

(** The world [DestroyObject] leaves for a live entity [o] at [a] whose
    full name is [n]: the four calls of its body, one after the other. *)
Definition destroy_steps (a : addr) (n : string) (o : ObjectData) (w : World) : World :=
  let o1 := added_flags ObjectFlags.BeginDestroyed o in
  let w1 := set_heap <[a := o1]> (log (EvBeginDestroy a) w) in
  let w2 := unregistered a n o1 w1 in
  let o3 := added_flags ObjectFlags.FinishDestroyed o1 in
  let w3 := set_heap <[a := o3]> (log (EvFinishDestroy a) w2) in
  release_world a o3 w3.

(** Taking a reference for a handle that now holds [p]. *)
Definition acquire_held (p : option addr) (w : World) : option World :=
  match p with
  | None => Some w
  | Some a => match heap w !! a with
              | Some o => Some (addref_world a o w)
              | None => None
              end
  end.

(** The pointer a handle location holds, null when there is no handle. *)
Definition held_at (m : gmap nat (option addr)) (h : nat) : option addr :=
  default None (m !! h).

(** A program: handle operations one after the other. *)
Fixpoint run_handle_ops (ops : list HandleOp) : M unit :=
  match ops with
  | [] => ret tt
  | op :: ops' => (run_handle_op op ;; run_handle_ops ops')%M
  end.

(** What the C++ program must provide for the operation to be a defined
    call: storage under construction is unused, operands exist, and a raw
    pointer is null or to a live entity. *)
Definition handle_op_defined (op : HandleOp) (w : World) : Prop :=
  match op with
  | HDefault this => handles w !! this = None
  | HRaw this ptr =>
      handles w !! this = None /\ forall a, ptr = Some a -> is_Some (heap w !! a)
  | HCopy this other => handles w !! this = None /\ is_Some (handles w !! other)
  | HMove this other => handles w !! this = None /\ is_Some (handles w !! other)
  | HDtor this => is_Some (handles w !! this)
  | HAssignCopy this other => is_Some (handles w !! this) /\ is_Some (handles w !! other)
  | HAssignMove this other => is_Some (handles w !! this) /\ is_Some (handles w !! other)
  end.

(** The pointer whose entity the operation calls [AddRef] on: the raw
    pointer, or what the source handle holds; none for the other
    operations and for self-assignment. *)
Definition incremented (op : HandleOp) (w : World) : option addr :=
  match op with
  | HRaw _ ptr => ptr
  | HCopy _ other => held_at (handles w) other
  | HAssignCopy this other =>
      if decide (this = other) then None else held_at (handles w) other
  | _ => None
  end.

(** The counter of the entity [p] points to is not negative and is below
    [INT32_MAX]: one more [fetch_add] does not wrap. *)
Definition counter_has_room (p : option addr) (w : World) : Prop :=
  forall a o, p = Some a -> heap w !! a = Some o -> 0 <= RefCount o < Int.INT32_MAX.

(** The operation finds the counter it increments, if any, with room. *)
Definition handle_op_no_wrap (op : HandleOp) (w : World) : Prop :=
  counter_has_room (incremented op w) w.

(** Each operation of the program is a defined call in the world the
    operations before it leave. *)
Fixpoint handle_ops_defined (ops : list HandleOp) (w : World) : Prop :=
  match ops with
  | [] => True
  | op :: ops' =>
      handle_op_defined op w /\
      forall w', run_handle_op op w = Some (tt, w') -> handle_ops_defined ops' w'
  end.

(** No operation of the program wraps a counter, each taken in the world
    the operations before it leave. *)
Fixpoint handle_ops_no_wrap (ops : list HandleOp) (w : World) : Prop :=
  match ops with
  | [] => True
  | op :: ops' =>
      handle_op_no_wrap op w /\
      forall w', run_handle_op op w = Some (tt, w') -> handle_ops_no_wrap ops' w'
  end.

(** An entity whose counter is at [INT32_MAX], held by one owning
    reference at handle location 0. *)
Definition full_counter_world : World :=
  mkWorld {[ 1%nat := mkObject "Player" (Some 10%nat) None ObjectFlags.NeedInitialization
                               Int.INT32_MAX ]}
          {[ "Player"%string := 1%nat ]}
          {[ 10%nat := [1%nat] ]}
          {[ 0%nat := Some 1%nat ]} [].

(** ** Engine

    [TitanMain/Engine/Engine.h] and [Engine.cpp].  A [float] is carried as
    its bit pattern; the one arithmetic operation the code performs on
    floats, addition, is a parameter [f_add] of the functions that use it,
    and so is the frame time [1.0f / 60.0f].  The subsystems are the two
    classes the repository derives from [Subsystem]. *)

Record TimeSubsystemData := mkTimeSubsystem {
  t_DeltaTime : Z;
  t_TotalTime : Z;
  t_FrameCount : Z;
  t_LastTime : Z
}.

Record ResourceManagerData := mkResourceManager {
  m_Resources : gmap string nat
}.

Inductive Subsystem :=
| STime (t : TimeSubsystemData)
| SResource (r : ResourceManagerData).

(** The template argument of [AddSubsystem<T>]: a class [std::make_unique]
    can construct, so one of the two concrete subsystem classes. *)
Inductive SubsystemKind := KTimeSubsystem | KResourceManager.

(** The template argument of [GetSubsystem<T>], the target of its
    [dynamic_cast]: the abstract base [Subsystem], one of the two classes
    derived from it, or a class outside that hierarchy. *)
Inductive SubsystemType := TSubsystem | TTimeSubsystem | TResourceManager | TUnrelated.

#[global] Instance SubsystemKind_eq_dec : EqDecision SubsystemKind.
Proof. solve_decision. Defined.

Definition kind_of (s : Subsystem) : SubsystemKind :=
  match s with
  | STime _ => KTimeSubsystem
  | SResource _ => KResourceManager
  end.

(** Whether an object of the concrete class [k] is a [T]: [TimeSubsystem]
    and [ResourceManager] each derive from [Subsystem] and from nothing
    else. *)
Definition derives_from (k : SubsystemKind) (T : SubsystemType) : bool :=
  match T, k with
  | TSubsystem, _ => true
  | TTimeSubsystem, KTimeSubsystem => true
  | TResourceManager, KResourceManager => true
  | _, _ => false
  end.

(** [dynamic_cast<T*>(subsystem.get())] is not null. *)
Definition dynamic_cast (T : SubsystemType) (s : Subsystem) : bool :=
  derives_from (kind_of s) T.

(** [std::make_unique<T>()]: the default member initialisers. *)
Definition new_Subsystem (k : SubsystemKind) : Subsystem :=
  match k with
  | KTimeSubsystem => STime (mkTimeSubsystem 0 0 0 0)
  | KResourceManager => SResource (mkResourceManager ∅)
  end.

Module TimeSubsystem.

Definition Initialize (t : TimeSubsystemData) : TimeSubsystemData :=
  mkTimeSubsystem (t_DeltaTime t) (t_TotalTime t) 0 0.

Definition Shutdown (t : TimeSubsystemData) : TimeSubsystemData := t.

Definition Update (f_add : Z -> Z -> Z) (deltaTime : Z) (t : TimeSubsystemData)
    : TimeSubsystemData :=
  mkTimeSubsystem deltaTime (f_add (t_TotalTime t) deltaTime)
                  (Int.to_uint64 (t_FrameCount t + 1)) (t_LastTime t).

Definition GetFrameCount (t : TimeSubsystemData) : Z := t_FrameCount t.

End TimeSubsystem.

Module ResourceManager.

Definition Initialize (r : ResourceManagerData) : ResourceManagerData := r.

Definition Shutdown (r : ResourceManagerData) : ResourceManagerData :=
  mkResourceManager ∅.

Definition Update (deltaTime : Z) (r : ResourceManagerData) : ResourceManagerData := r.

End ResourceManager.

(** The virtual calls on a [Subsystem]. *)
Definition Subsystem_Initialize (s : Subsystem) : Subsystem :=
  match s with
  | STime t => STime (TimeSubsystem.Initialize t)
  | SResource r => SResource (ResourceManager.Initialize r)
  end.

Definition Subsystem_Shutdown (s : Subsystem) : Subsystem :=
  match s with
  | STime t => STime (TimeSubsystem.Shutdown t)
  | SResource r => SResource (ResourceManager.Shutdown r)
  end.

Definition Subsystem_Update (f_add : Z -> Z -> Z) (deltaTime : Z) (s : Subsystem) : Subsystem :=
  match s with
  | STime t => STime (TimeSubsystem.Update f_add deltaTime t)
  | SResource r => SResource (ResourceManager.Update deltaTime r)
  end.

Definition Subsystem_GetName (s : Subsystem) : string :=
  match s with
  | STime _ => "TimeSubsystem"
  | SResource _ => "ResourceManager"
  end.

(** A virtual call the engine makes, on the subsystem at a position of
    [m_Subsystems]. *)
Inductive SubsystemCall :=
| CallInitialize (i : nat)
| CallShutdown (i : nat)
| CallUpdate (i : nat).

#[global] Instance SubsystemCall_eq_dec : EqDecision SubsystemCall.
Proof. solve_decision. Defined.

(** The data members of [Engine], and the calls it has made so far. *)
Record EngineData := mkEngine {
  m_Subsystems : list Subsystem;
  m_IsInitialized : bool;
  m_IsRunning : bool;
  m_DeltaTime : Z;
  m_TotalTime : Z;
  m_LastTime : Z;
  calls : list SubsystemCall
}.

Module Engine.

(** The engine [GetInstance] constructs. *)
Definition new : EngineData := mkEngine [] false false 0 0 0 [].

Definition IsInitialized (e : EngineData) : bool := m_IsInitialized e.

Definition AddSubsystem (k : SubsystemKind) (e : EngineData) : EngineData :=
  mkEngine (m_Subsystems e ++ [new_Subsystem k]) (m_IsInitialized e) (m_IsRunning e)
           (m_DeltaTime e) (m_TotalTime e) (m_LastTime e) (calls e).

(** The first subsystem the [dynamic_cast] succeeds on, with its position. *)
Definition GetSubsystem (T : SubsystemType) (e : EngineData) : option (nat * Subsystem) :=
  list_find (fun s => dynamic_cast T s = true) (m_Subsystems e).

Definition Initialize (e : EngineData) : EngineData :=
  if m_IsInitialized e then e
  else mkEngine (Subsystem_Initialize <$> m_Subsystems e) true true
                (m_DeltaTime e) (m_TotalTime e) (m_LastTime e)
                (calls e ++ (CallInitialize <$> seq 0 (length (m_Subsystems e)))).

Definition Shutdown (e : EngineData) : EngineData :=
  if negb (m_IsInitialized e) then e
  else mkEngine [] false false
                (m_DeltaTime e) (m_TotalTime e) (m_LastTime e)
                (calls e ++ (CallShutdown <$> rev (seq 0 (length (m_Subsystems e))))).

Definition Update (f_add : Z -> Z -> Z) (deltaTime : Z) (e : EngineData) : EngineData :=
  mkEngine (Subsystem_Update f_add deltaTime <$> m_Subsystems e)
           (m_IsInitialized e) (m_IsRunning e)
           (m_DeltaTime e) (m_TotalTime e) (m_LastTime e)
           (calls e ++ (CallUpdate <$> seq 0 (length (m_Subsystems e)))).

Definition Render (e : EngineData) : EngineData := e.

(** One turn of the loop of [Run]. *)
Definition frame (f_add : Z -> Z -> Z) (f_frame : Z) (e : EngineData) : EngineData :=
  let e1 := mkEngine (m_Subsystems e) (m_IsInitialized e) (m_IsRunning e)
                     f_frame (f_add (m_TotalTime e) f_frame) (m_LastTime e) (calls e) in
  Render (Update f_add (m_DeltaTime e1) e1).

(** [while (m_IsRunning) { ... }]; [fuel] bounds the number of turns and
    [None] stands for a loop that has not ended within them. *)
Fixpoint Run_loop (f_add : Z -> Z -> Z) (f_frame : Z) (fuel : nat) (e : EngineData)
    : option EngineData :=
  match fuel with
  | O => None
  | S fuel' =>
      if m_IsRunning e then Run_loop f_add f_frame fuel' (frame f_add f_frame e)
      else Some e
  end.

Definition Run (f_add : Z -> Z -> Z) (f_frame : Z) (fuel : nat) (e : EngineData)
    : option EngineData :=
  Run_loop f_add f_frame fuel (if negb (m_IsInitialized e) then Initialize e else e).

End Engine.

(** The state [Run] has reached after [n] turns of its loop. *)
Definition Run_frames (f_add : Z -> Z -> Z) (f_frame : Z) (n : nat) (e : EngineData)
    : EngineData :=
  Nat.iter n (Engine.frame f_add f_frame)
           (if negb (m_IsInitialized e) then Engine.Initialize e else e).

(** The public operations of [Engine] that return, and a client's sequence
    of them. *)
Inductive EngineOp :=
| OpInitialize
| OpShutdown
| OpAddSubsystem (k : SubsystemKind).

Definition run_engine_op (e : EngineData) (op : EngineOp) : EngineData :=
  match op with
  | OpInitialize => Engine.Initialize e
  | OpShutdown => Engine.Shutdown e
  | OpAddSubsystem k => Engine.AddSubsystem k e
  end.

Definition run_engine_ops (ops : list EngineOp) (e : EngineData) : EngineData :=
  fold_left run_engine_op ops e.

(** An engine with a [TimeSubsystem] and a [ResourceManager], added in that
    order. *)
Definition two_subsystem_engine : EngineData :=
  Engine.AddSubsystem KResourceManager (Engine.AddSubsystem KTimeSubsystem Engine.new).

(** * Properties *)

(** ** Fixed-width arithmetic *)

Lemma to_int32_range z : Int.in_int32 (Int.to_int32 z).
Proof.
  unfold Int.in_int32, Int.to_int32, Int.INT32_MIN, Int.INT32_MAX.
  pose proof (Z.mod_pos_bound (z + 2147483648) 4294967296). lia.
Qed.

Lemma to_int32_id z : Int.in_int32 z -> Int.to_int32 z = z.
Proof.
  unfold Int.in_int32, Int.to_int32, Int.INT32_MIN, Int.INT32_MAX. intros H.
  rewrite Z.mod_small; lia.
Qed.

Lemma to_int32_add_l x y : Int.to_int32 (Int.to_int32 x + y) = Int.to_int32 (x + y).
Proof.
  unfold Int.to_int32.
  replace ((x + 2147483648) mod 4294967296 - 2147483648 + y + 2147483648)
    with ((x + 2147483648) mod 4294967296 + y) by lia.
  rewrite Zplus_mod_idemp_l. f_equal. f_equal. lia.
Qed.

Lemma to_uint32_range z : 0 <= Int.to_uint32 z <= Int.UINT32_MAX.
Proof.
  unfold Int.to_uint32, Int.UINT32_MAX.
  pose proof (Z.mod_pos_bound z 4294967296). lia.
Qed.

Lemma to_uint32_id z : 0 <= z <= Int.UINT32_MAX -> Int.to_uint32 z = z.
Proof. unfold Int.to_uint32, Int.UINT32_MAX. intros. apply Z.mod_small. lia. Qed.


Lemma to_uint64_id z : 0 <= z <= Int.UINT64_MAX -> Int.to_uint64 z = z.
Proof. unfold Int.to_uint64, Int.UINT64_MAX. intros. apply Z.mod_small. lia. Qed.

Lemma to_int32_sub_l x y : Int.to_int32 (Int.to_int32 x - y) = Int.to_int32 (x - y).
Proof. unfold Z.sub. apply to_int32_add_l. Qed.

(** Testing a flag against a single-bit mask reads that bit. *)
Lemma land_bit_eqb (a n : Z) :
  0 <= n -> (Z.land a (Z.shiftl 1 n) =? 0) = negb (Z.testbit a n).
Proof.
  intros Hn. rewrite Z.shiftl_1_l.
  destruct (Z.testbit a n) eqn:Hb; simpl.
  - apply Z.eqb_neq. intros H0.
    assert (Hc : Z.testbit (Z.land a (2 ^ n)) n = true).
    { rewrite Z.land_spec, Hb, Z.pow2_bits_true by lia. reflexivity. }
    rewrite H0, Z.bits_0 in Hc. discriminate.
  - apply Z.eqb_eq. apply Z.bits_inj'. intros m Hm.
    rewrite Z.land_spec, Z.bits_0, Z.pow2_bits_eqb by lia.
    destruct (Z.eqb_spec n m) as [->|]; [rewrite Hb; reflexivity | apply andb_false_r].
Qed.

(** ** Archive direction queries *)

Lemma IsLoading_testbit flags : IsLoading (Archive_new flags) = Z.testbit flags 0.
Proof.
  unfold IsLoading, ArchiveFlags.and, ArchiveFlags.Loading, ArchiveFlags.None_; simpl Flags.
  rewrite land_bit_eqb by lia. apply negb_involutive.
Qed.

Lemma IsSaving_testbit flags : IsSaving (Archive_new flags) = Z.testbit flags 1.
Proof.
  unfold IsSaving, ArchiveFlags.and, ArchiveFlags.Saving, ArchiveFlags.None_; simpl Flags.
  rewrite land_bit_eqb by lia. apply negb_involutive.
Qed.

(** C10. [IsLoading] reads bit 0 of the flags and [IsSaving] reads bit 1,
    neither looks at the other bit: toggling the Saving bit leaves
    [IsLoading] unchanged and toggling the Loading bit leaves [IsSaving]
    unchanged.  An archive constructed with both Loading and Saving (with
    any further flags) answers true to both queries, and one constructed
    with no flags answers false to both. *)
Theorem Archive_direction_queries :
  (forall flags, IsLoading (Archive_new flags) = Z.testbit flags 0) /\
  (forall flags, IsSaving (Archive_new flags) = Z.testbit flags 1) /\
  (forall flags, IsLoading (Archive_new (Z.lxor flags ArchiveFlags.Saving))
                 = IsLoading (Archive_new flags)) /\
  (forall flags, IsSaving (Archive_new (Z.lxor flags ArchiveFlags.Loading))
                 = IsSaving (Archive_new flags)) /\
  (forall others,
      let both := ArchiveFlags.or (ArchiveFlags.or ArchiveFlags.Loading ArchiveFlags.Saving)
                                  others in
      IsLoading (Archive_new both) = true /\ IsSaving (Archive_new both) = true) /\
  IsLoading (Archive_new ArchiveFlags.None_) = false /\
  IsSaving (Archive_new ArchiveFlags.None_) = false.
Proof.
  repeat split.
  - apply IsLoading_testbit.
  - apply IsSaving_testbit.
  - intros flags. rewrite !IsLoading_testbit, Z.lxor_spec.
    change (Z.testbit ArchiveFlags.Saving 0) with false. apply xorb_false_r.
  - intros flags. rewrite !IsSaving_testbit, Z.lxor_spec.
    change (Z.testbit ArchiveFlags.Loading 1) with false. apply xorb_false_r.
  - rewrite IsLoading_testbit. unfold ArchiveFlags.or. rewrite !Z.lor_spec. reflexivity.
  - rewrite IsSaving_testbit. unfold ArchiveFlags.or. rewrite !Z.lor_spec. reflexivity.
Qed.

(** ** Reference counting *)

Lemma AddRef_live a w o :
  heap w !! a = Some o ->
  AddRef a w = Some (tt, log (EvAddRef a)
    (set_heap <[a := set_RefCount (Int.to_int32 (RefCount o + 1)) o]> w)).
Proof. intros H. unfold AddRef, bind, deref, modify. rewrite H. reflexivity. Qed.

Lemma AddRef_dead a w : heap w !! a = None -> AddRef a w = None.
Proof. intros H. unfold AddRef, bind, deref. rewrite H. reflexivity. Qed.

Lemma Release_live a w o :
  heap w !! a = Some o ->
  Release a w = Some (tt, if RefCount o =? 1
                          then log (EvDelete a) (set_heap (delete a) (released a o w))
                          else released a o w).
Proof.
  intros H. unfold Release, bind, deref, modify, delete_this, ret. rewrite H.
  destruct (RefCount o =? 1); reflexivity.
Qed.

Lemma Release_dead a w : heap w !! a = None -> Release a w = None.
Proof. intros H. unfold Release, bind, deref. rewrite H. reflexivity. Qed.

Lemma run_ops_dead a ops w w' :
  heap w !! a = None -> run_ops a ops w = Some (tt, w') -> heap w' !! a = None.
Proof.
  intros Hd. destruct ops as [|op ops]; simpl.
  - unfold ret. intros [= <-]. exact Hd.
  - unfold bind. destruct op; simpl.
    + rewrite AddRef_dead by exact Hd. discriminate.
    + rewrite Release_dead by exact Hd. discriminate.
Qed.

Lemma count_op_cons op x ops :
  count_op op (x :: ops) = (if decide (x = op) then 1 else 0) + count_op op ops.
Proof.
  unfold count_op. rewrite filter_cons. destruct (decide (x = op)); simpl length; lia.
Qed.

(** While the entity stays alive its counter is the 32-bit reading of the
    starting value plus the calls to [AddRef] minus the calls to [Release]. *)
Lemma run_ops_count ops : forall a w w' o,
  heap w !! a = Some o ->
  Int.in_int32 (RefCount o) ->
  run_ops a ops w = Some (tt, w') ->
  is_Some (heap w' !! a) ->
  GetRefCount a w' =
    Some (Int.to_int32 (RefCount o + count_op OpAddRef ops - count_op OpRelease ops)).
Proof.
  induction ops as [|op ops IH]; intros a w w' o Ho Hr Hrun Halive.
  - simpl in Hrun. injection Hrun as <-. unfold GetRefCount. rewrite Ho. simpl.
    unfold count_op. simpl. rewrite Z.add_0_r, Z.sub_0_r, to_int32_id; auto.
  - simpl in Hrun. unfold bind in Hrun. rewrite !count_op_cons.
    destruct op; simpl in Hrun.
    + rewrite (AddRef_live _ _ _ Ho) in Hrun.
      erewrite IH; [| | | exact Hrun | exact Halive].
      2:{ simpl. apply lookup_insert_eq. }
      2:{ simpl. apply to_int32_range. }
      simpl. rewrite <- !Z.add_sub_assoc, to_int32_add_l. do 2 f_equal. lia.
    + rewrite (Release_live _ _ _ Ho) in Hrun.
      destruct (RefCount o =? 1) eqn:E.
      * apply run_ops_dead in Hrun; [|simpl; apply lookup_delete_eq].
        rewrite Hrun in Halive. destruct Halive; discriminate.
      * erewrite IH; [| | | exact Hrun | exact Halive].
        2:{ simpl. apply lookup_insert_eq. }
        2:{ simpl. apply to_int32_range. }
        simpl. unfold Z.sub at 2. rewrite <- !Z.add_sub_assoc, to_int32_add_l.
        do 2 f_equal. lia.
Qed.

Lemma new_Object_fresh a w :
  heap w !! a = None ->
  new_Object a w = Some (tt, set_heap <[a := new_ObjectData]> w).
Proof. intros H. unfold new_Object. rewrite H. reflexivity. Qed.

Lemma new_Object_inv a w w0 :
  new_Object a w = Some (tt, w0) -> heap w0 !! a = Some new_ObjectData.
Proof.
  unfold new_Object. destruct (heap w !! a); [discriminate|].
  intros [= <-]. simpl. apply lookup_insert_eq.
Qed.

(** C1 (amended). A constructed entity starts with a counter of 1.  After a
    sequence of calls holding N [AddRef] and M [Release] in any order, with
    N >= M, the entity still alive, and 1 + N - M within the range of the
    signed 32-bit counter, [GetRefCount] is 1 + N - M. *)
Theorem RefCount_after_AddRef_Release (a : addr) (ops : list RefOp) (w w0 w' : World) :
  new_Object a w = Some (tt, w0) ->
  run_ops a ops w0 = Some (tt, w') ->
  is_Some (heap w' !! a) ->
  count_op OpRelease ops <= count_op OpAddRef ops ->
  1 + count_op OpAddRef ops - count_op OpRelease ops <= Int.INT32_MAX ->
  GetRefCount a w0 = Some 1 /\
  GetRefCount a w' = Some (1 + count_op OpAddRef ops - count_op OpRelease ops).
Proof.
  intros Hnew Hrun Halive HNM Hmax.
  apply new_Object_inv in Hnew. split.
  - unfold GetRefCount. rewrite Hnew. reflexivity.
  - rewrite (run_ops_count ops a w0 w' new_ObjectData Hnew); auto.
    + simpl. rewrite to_int32_id; [reflexivity|].
      unfold Int.in_int32, Int.INT32_MIN, Int.INT32_MAX in *. lia.
    + simpl. unfold Int.in_int32, Int.INT32_MIN, Int.INT32_MAX. lia.
Qed.

Lemma RefCount_after_AddRef_Release_witness :
  exists w0 w',
    new_Object 7%nat empty_world = Some (tt, w0) /\
    run_ops 7%nat [OpAddRef; OpAddRef; OpRelease] w0 = Some (tt, w') /\
    GetRefCount 7%nat w0 = Some 1 /\
    GetRefCount 7%nat w' = Some 2.
Proof.
  eexists _, _.
  split; [reflexivity|]. split; [reflexivity|].
  apply (RefCount_after_AddRef_Release 7%nat [OpAddRef; OpAddRef; OpRelease] empty_world).
  - reflexivity.
  - reflexivity.
  - vm_compute. eexists. reflexivity.
  - vm_compute. discriminate.
  - vm_compute. discriminate.
Defined.

Lemma run_ops_AddRef_repeat (n : nat) : forall a w o,
  heap w !! a = Some o ->
  Int.in_int32 (RefCount o) ->
  exists w', run_ops a (repeat OpAddRef n) w = Some (tt, w') /\
             GetRefCount a w' = Some (Int.to_int32 (RefCount o + Z.of_nat n)).
Proof.
  induction n as [|n IH]; intros a w o Ho Hr.
  - exists w. split; [reflexivity|].
    unfold GetRefCount. rewrite Ho. simpl. rewrite Z.add_0_r, to_int32_id; auto.
  - destruct (IH a (log (EvAddRef a)
        (set_heap <[a := set_RefCount (Int.to_int32 (RefCount o + 1)) o]> w))
        (set_RefCount (Int.to_int32 (RefCount o + 1)) o)) as (w' & Hrun & Hc).
    + simpl. apply lookup_insert_eq.
    + simpl. apply to_int32_range.
    + exists w'. split.
      * change (repeat OpAddRef (S n)) with (OpAddRef :: repeat OpAddRef n).
        simpl run_ops. unfold bind. simpl run_op.
        rewrite (AddRef_live _ _ _ Ho). exact Hrun.
      * rewrite Hc. simpl RefCount. rewrite to_int32_add_l. do 2 f_equal. lia.
Qed.

Lemma count_op_repeat_same op (n : nat) : count_op op (repeat op n) = Z.of_nat n.
Proof.
  induction n as [|n IH].
  - reflexivity.
  - change (repeat op (S n)) with (op :: repeat op n).
    rewrite count_op_cons, IH, decide_True by reflexivity. lia.
Qed.

Lemma count_op_repeat_other op op' (n : nat) : op' <> op -> count_op op (repeat op' n) = 0.
Proof.
  intros Hne. induction n as [|n IH].
  - reflexivity.
  - change (repeat op' (S n)) with (op' :: repeat op' n).
    rewrite count_op_cons, IH, decide_False by exact Hne. reflexivity.
Qed.

(** C1 as stated fails at N = 2147483647, M = 0: the entity is alive, but
    the 32-bit counter has wrapped to -2147483648 where the claim asks for
    2147483648. *)
Lemma RefCount_wraps_after_many_AddRef :
  let a : addr := 0%nat in
  let ops := repeat OpAddRef (Z.to_nat 2147483647) in
  exists w0 w',
    new_Object a empty_world = Some (tt, w0) /\
    run_ops a ops w0 = Some (tt, w') /\
    is_Some (heap w' !! a) /\
    count_op OpRelease ops <= count_op OpAddRef ops /\
    GetRefCount a w' = Some (-2147483648) /\
    GetRefCount a w' <> Some (1 + count_op OpAddRef ops - count_op OpRelease ops).
Proof.
  intros a ops.
  assert (HN : count_op OpAddRef ops = 2147483647).
  { unfold ops. rewrite count_op_repeat_same. apply Z2Nat.id. lia. }
  assert (HM : count_op OpRelease ops = 0).
  { unfold ops. apply count_op_repeat_other. discriminate. }
  destruct (run_ops_AddRef_repeat (Z.to_nat 2147483647) a
              (set_heap <[a := new_ObjectData]> empty_world) new_ObjectData)
    as (w' & Hrun & Hc).
  { simpl. apply lookup_insert_eq. }
  { simpl. unfold Int.in_int32, Int.INT32_MIN, Int.INT32_MAX. lia. }
  rewrite Z2Nat.id in Hc by lia.
  exists (set_heap <[a := new_ObjectData]> empty_world), w'.
  split; [reflexivity|]. split; [exact Hrun|].
  assert (Hc' : GetRefCount a w' = Some (-2147483648)) by exact Hc.
  split.
  { unfold GetRefCount in Hc'. destruct (heap w' !! a); [eauto | discriminate]. }
  split; [rewrite HN, HM; lia|].
  split; [exact Hc'|].
  rewrite Hc', HN, HM. discriminate.
Qed.

(** ** Names along the Outer chain *)

Lemma string_app_assoc (s1 s2 s3 : string) : (s1 +:+ s2) +:+ s3 = s1 +:+ (s2 +:+ s3).
Proof.
  induction s1 as [|c s1 IH]; [reflexivity|].
  change (String c ((s1 +:+ s2) +:+ s3) = String c (s1 +:+ (s2 +:+ s3))).
  f_equal. exact IH.
Qed.

Lemma concat_snoc (sep : string) (xs : list string) (x : string) :
  xs <> [] -> String.concat sep (xs ++ [x]) = String.concat sep xs +:+ sep +:+ x.
Proof.
  induction xs as [|y ys IH]; intros Hne; [congruence|].
  destruct ys as [|z zs].
  - reflexivity.
  - change (String.concat sep ((y :: z :: zs) ++ [x]))
      with (y +:+ sep +:+ String.concat sep ((z :: zs) ++ [x])).
    rewrite IH by discriminate.
    change (String.concat sep (y :: z :: zs))
      with (y +:+ sep +:+ String.concat sep (z :: zs)).
    now rewrite !string_app_assoc.
Qed.

Section OuterChains.

Variable h : gmap addr ObjectData.

Lemma OuterChain_head a l : OuterChain h a l -> exists l', l = a :: l'.
Proof. destruct 1; eauto. Qed.

Lemma OuterChain_det a l1 : OuterChain h a l1 -> forall l2, OuterChain h a l2 -> l1 = l2.
Proof.
  induction 1 as [a o Ho Hn | a o outer l Ho Hout Hc IH]; intros l2 H2.
  - inversion H2; subst; [reflexivity | congruence].
  - inversion H2 as [? o' Ho' Hn' | ? o' outer' l' Ho' Hout' Hc']; subst.
    + congruence.
    + f_equal. apply IH. congruence.
Qed.

(** Every entity on a chain heads a chain of its own, no longer than the
    one it lies on. *)
Lemma OuterChain_from_member a l :
  OuterChain h a l -> forall b, b ∈ l ->
  exists l', OuterChain h b l' /\ (length l' <= length l)%nat.
Proof.
  induction 1 as [a o Ho Hn | a o outer l Ho Hout Hc IH]; intros b Hb.
  - apply list_elem_of_singleton in Hb as ->.
    exists [a]. split; [econstructor; eauto | lia].
  - apply elem_of_cons in Hb as [-> | Hb].
    + exists (a :: l). split; [econstructor; eauto | lia].
    + destruct (IH b Hb) as (l' & Hl' & Hlen). exists l'. split; [exact Hl'|].
      simpl. lia.
Qed.

Lemma OuterChain_NoDup a l : OuterChain h a l -> NoDup l.
Proof.
  induction 1 as [a o Ho Hn | a o outer l Ho Hout Hc IH].
  - apply NoDup_singleton.
  - apply NoDup_cons. split; [|exact IH].
    intros Hin.
    destruct (OuterChain_from_member _ _ Hc a Hin) as (l' & Hl' & Hlen).
    assert (Heq : l' = a :: l).
    { eapply OuterChain_det; [exact Hl' | econstructor; eauto]. }
    subst l'. simpl in Hlen. lia.
Qed.

Lemma OuterChain_live a l : OuterChain h a l -> forall b, b ∈ l -> is_Some (h !! b).
Proof.
  induction 1 as [a o Ho Hn | a o outer l Ho Hout Hc IH]; intros b Hb.
  - apply list_elem_of_singleton in Hb as ->. eauto.
  - apply elem_of_cons in Hb as [-> | Hb]; eauto.
Qed.

(** An acyclic chain is never longer than the number of live entities. *)
Lemma OuterChain_length a l : OuterChain h a l -> (length l <= size h)%nat.
Proof.
  intros Hc.
  rewrite <- (size_list_to_set (C := gset addr) l) by (eapply OuterChain_NoDup; eauto).
  rewrite <- (size_dom h).
  apply subseteq_size. intros b Hb.
  apply elem_of_list_to_set in Hb. apply elem_of_dom.
  eapply OuterChain_live; eauto.
Qed.

Lemma chain_names_cons a o l :
  h !! a = Some o -> chain_names h (a :: l) = chain_names h l ++ [Name o].
Proof. intros Ho. unfold chain_names. simpl. rewrite Ho. reflexivity. Qed.

Lemma chain_names_length a l :
  OuterChain h a l -> length (chain_names h l) = length l.
Proof.
  induction 1 as [a o Ho Hn | a o outer l Ho Hout Hc IH].
  - unfold chain_names. simpl. rewrite Ho. reflexivity.
  - rewrite (chain_names_cons _ _ _ Ho), length_app, IH. simpl. lia.
Qed.

Lemma GetFullName_rec_chain a l :
  OuterChain h a l -> forall fuel, (length l <= fuel)%nat ->
  GetFullName_rec fuel h a = Some (String.concat "." (chain_names h l)).
Proof.
  induction 1 as [a o Ho Hn | a o outer l Ho Hout Hc IH]; intros fuel Hf.
  - destruct fuel as [|fuel]; [simpl in Hf; lia|].
    simpl. rewrite Ho, Hn. unfold chain_names. simpl. rewrite Ho. reflexivity.
  - destruct fuel as [|fuel]; [simpl in Hf; lia|].
    simpl. rewrite Ho, Hout, (IH fuel) by (simpl in Hf; lia).
    rewrite (chain_names_cons _ _ _ Ho), concat_snoc, string_app_assoc; [reflexivity|].
    intros Hnil. apply (f_equal length) in Hnil.
    rewrite (chain_names_length _ _ Hc) in Hnil.
    destruct (OuterChain_head _ _ Hc) as [l' ->]. discriminate.
Qed.

Lemma GetPathName_rec_chain a l :
  OuterChain h a l -> forall fuel, (length l <= fuel)%nat ->
  GetPathName_rec fuel h a = Some (String.concat "/" (chain_names h l)).
Proof.
  induction 1 as [a o Ho Hn | a o outer l Ho Hout Hc IH]; intros fuel Hf.
  - destruct fuel as [|fuel]; [simpl in Hf; lia|].
    simpl. rewrite Ho, Hn. unfold chain_names. simpl. rewrite Ho. reflexivity.
  - destruct fuel as [|fuel]; [simpl in Hf; lia|].
    simpl. rewrite Ho, Hout, (IH fuel) by (simpl in Hf; lia).
    rewrite (chain_names_cons _ _ _ Ho), concat_snoc, string_app_assoc; [reflexivity|].
    intros Hnil. apply (f_equal length) in Hnil.
    rewrite (chain_names_length _ _ Hc) in Hnil.
    destruct (OuterChain_head _ _ Hc) as [l' ->]. discriminate.
Qed.

End OuterChains.

Lemma GetFullName_chain (w : World) (a : addr) (l : list addr) :
  OuterChain (heap w) a l ->
  GetFullName a w = Some (String.concat "." (chain_names (heap w) l)).
Proof.
  intros Hc. unfold GetFullName, name_fuel. apply GetFullName_rec_chain; [exact Hc|].
  pose proof (OuterChain_length _ _ _ Hc). lia.
Qed.

Lemma GetPathName_chain (w : World) (a : addr) (l : list addr) :
  OuterChain (heap w) a l ->
  GetPathName a w = Some (String.concat "/" (chain_names (heap w) l)).
Proof.
  intros Hc. unfold GetPathName, name_fuel. apply GetPathName_rec_chain; [exact Hc|].
  pose proof (OuterChain_length _ _ _ Hc). lia.
Qed.

Lemma count_char_app c (s1 s2 : string) :
  count_char c (s1 +:+ s2) = (count_char c s1 + count_char c s2)%nat.
Proof.
  induction s1 as [|c' s1 IH]; [reflexivity|].
  change (count_char c (String c' (s1 +:+ s2))
          = (count_char c (String c' s1) + count_char c s2)%nat).
  simpl. rewrite IH. lia.
Qed.

Lemma count_char_concat c (sep : string) (l : list string) :
  count_char c (String.concat sep l) =
  (sum_list (count_char c <$> l) + (length l - 1) * count_char c sep)%nat.
Proof.
  induction l as [|x [|y ys] IH].
  - reflexivity.
  - simpl. lia.
  - change (String.concat sep (x :: y :: ys))
      with (x +:+ sep +:+ String.concat sep (y :: ys)).
    rewrite !count_char_app, IH. simpl. lia.
Qed.

Lemma sum_list_zeros (f : string -> nat) (l : list string) :
  Forall (fun n => f n = 0%nat) l -> sum_list (f <$> l) = 0%nat.
Proof.
  induction 1 as [|x l Hx _ IH]; [reflexivity|].
  rewrite fmap_cons. cbn [sum_list sum_list_with]. unfold id.
  change (f x + sum_list (f <$> l) = 0)%nat. lia.
Qed.

(** C8 (amended). For an entity whose Outer chain is finite and acyclic,
    with [chain] listing the D entities from the entity itself up to the
    root: [GetFullName] returns, and its result is the names of those D
    entities, root first, joined with '.'; [GetPathName] is the same with
    '/'.  Each result is the entity's own name when it has no Outer, and
    otherwise the result for its Outer, the separator, and the entity's own
    name.  The full name holds D - 1 separating dots besides the dots that
    occur inside the names themselves: it splits at its dots into D
    segments plus one for every dot inside a name, so into exactly D
    segments when no name of the chain holds a dot. *)
Theorem GetFullName_GetPathName_spec (w : World) (a : addr) (chain : list addr) :
  OuterChain (heap w) a chain ->
  let names := chain_names (heap w) chain in
  length names = length chain /\
  GetFullName a w = Some (String.concat "." names) /\
  GetPathName a w = Some (String.concat "/" names) /\
  (exists o, heap w !! a = Some o /\
     match OuterPrivate o with
     | None => GetFullName a w = Some (Name o) /\ GetPathName a w = Some (Name o)
     | Some outer =>
         exists full path,
           GetFullName outer w = Some full /\
           GetFullName a w = Some ((full +:+ ".") +:+ Name o) /\
           GetPathName outer w = Some path /\
           GetPathName a w = Some ((path +:+ "/") +:+ Name o)
     end) /\
  (forall full, GetFullName a w = Some full ->
     count_char "." full
     = (length chain - 1 + sum_list (count_char "." <$> names))%nat) /\
  (forall full, GetFullName a w = Some full ->
     dot_segments full = (length chain + sum_list (count_char "." <$> names))%nat) /\
  (Forall (fun n => count_char "." n = 0%nat) names ->
   forall full, GetFullName a w = Some full -> dot_segments full = length chain).
Proof.
  intros Hc names. subst names.
  pose proof (chain_names_length _ _ _ Hc) as Hlen.
  pose proof (GetFullName_chain _ _ _ Hc) as Hfull.
  pose proof (GetPathName_chain _ _ _ Hc) as Hpath.
  assert (Hpos : (1 <= length chain)%nat).
  { destruct (OuterChain_head _ _ _ Hc) as [l' ->]. simpl. lia. }
  assert (Hcount : forall full, GetFullName a w = Some full ->
            count_char "." full
            = (length chain - 1
               + sum_list (count_char "." <$> chain_names (heap w) chain))%nat).
  { intros full Hf. rewrite Hfull in Hf. injection Hf as <-.
    rewrite count_char_concat, Hlen. simpl. lia. }
  split; [exact Hlen|]. split; [exact Hfull|]. split; [exact Hpath|].
  split; [|split; [exact Hcount|split]].
  - inversion Hc as [? o Ho Hn | ? o outer l Ho Hout Hc']; subst.
    + exists o. split; [exact Ho|]. rewrite Hn.
      rewrite Hfull, Hpath. unfold chain_names. simpl. rewrite Ho. split; reflexivity.
    + exists o. split; [exact Ho|]. rewrite Hout.
      exists (String.concat "." (chain_names (heap w) l)),
             (String.concat "/" (chain_names (heap w) l)).
      assert (Hne : chain_names (heap w) l <> []).
      { intros Hnil. apply (f_equal length) in Hnil.
        rewrite (chain_names_length _ _ _ Hc') in Hnil.
        destruct (OuterChain_head _ _ _ Hc') as [l' ->]. discriminate. }
      rewrite Hfull, Hpath, (chain_names_cons _ _ _ _ Ho), !concat_snoc by exact Hne.
      rewrite !string_app_assoc.
      repeat split; auto using GetFullName_chain, GetPathName_chain.
  - intros full Hf. unfold dot_segments. rewrite (Hcount full Hf). lia.
  - intros Hz full Hf. unfold dot_segments.
    rewrite (Hcount full Hf), (sum_list_zeros _ _ Hz). lia.
Qed.

Lemma GetFullName_GetPathName_spec_witness :
  let w := set_heap (fun _ => {[ 1%nat := mkObject "World" None None 0 1;
                                 2%nat := mkObject "Level" None (Some 1%nat) 0 1;
                                 3%nat := mkObject "Actor" None (Some 2%nat) 0 1 ]})
                    empty_world in
  GetFullName 3%nat w = Some "World.Level.Actor"%string /\
  GetPathName 3%nat w = Some "World/Level/Actor"%string.
Proof.
  intros w.
  assert (Hc : OuterChain (heap w) 3%nat [3%nat; 2%nat; 1%nat]).
  { eapply OuterChain_step; [reflexivity | reflexivity |].
    eapply OuterChain_step; [reflexivity | reflexivity |].
    eapply OuterChain_root; reflexivity. }
  destruct (GetFullName_GetPathName_spec w 3%nat _ Hc) as (_ & Hf & Hp & _).
  split; [exact Hf | exact Hp].
Defined.

(** C8 as stated fails: a root entity (an Outer chain of depth 1) named
    "World.Level" has a full name of two '.'-joined segments, the very
    full name of the entity "Level" inside "World", whose chain has
    depth 2. *)
Lemma GetFullName_dotted_name_two_segments :
  OuterChain (heap dotted_name_world) 1%nat [1%nat] /\
  OuterChain (heap nested_name_world) 2%nat [2%nat; 1%nat] /\
  GetFullName 1%nat dotted_name_world = Some "World.Level"%string /\
  GetFullName 2%nat nested_name_world = Some "World.Level"%string /\
  dot_segments "World.Level" = 2%nat /\
  dot_segments "World.Level" <> length [1%nat].
Proof.
  split; [eapply OuterChain_root; reflexivity|].
  split.
  { eapply OuterChain_step; [reflexivity | reflexivity |].
    eapply OuterChain_root; reflexivity. }
  split; [reflexivity|]. split; [reflexivity|].
  split; [reflexivity | discriminate].
Qed.

(** ** The registry *)

Lemma GetFullName_live a w n : GetFullName a w = Some n -> is_Some (heap w !! a).
Proof.
  unfold GetFullName, name_fuel. simpl.
  destruct (heap w !! a); [eauto | discriminate].
Qed.

Lemma RegisterObject_run a w n o :
  GetFullName a w = Some n -> heap w !! a = Some o ->
  RegisterObject (Some a) w = Some (tt, registered a n o w).
Proof.
  intros Hn Ho. unfold RegisterObject, bind, modify, GetFullNameM, deref, registered.
  change (GetFullName a (log (EvRegisterObject a) w)) with (GetFullName a w).
  rewrite Hn. simpl. rewrite Ho. destruct (ClassPrivate o); reflexivity.
Qed.

Lemma UnregisterObject_run a w n o :
  GetFullName a w = Some n -> heap w !! a = Some o ->
  UnregisterObject (Some a) w = Some (tt, unregistered a n o w).
Proof.
  intros Hn Ho. unfold UnregisterObject, bind, modify, GetFullNameM, deref, unregistered.
  change (GetFullName a (log (EvUnregisterObject a) w)) with (GetFullName a w).
  rewrite Hn. simpl. rewrite Ho. destruct (ClassPrivate o); reflexivity.
Qed.

Lemma registered_heap a n o w : heap (registered a n o w) = heap w.
Proof. unfold registered. destruct (ClassPrivate o); reflexivity. Qed.

Lemma registered_Objects a n o w : Objects (registered a n o w) = <[n := a]> (Objects w).
Proof. unfold registered. destruct (ClassPrivate o); reflexivity. Qed.

Lemma registered_trace a n o w :
  trace (registered a n o w) = trace w ++ [EvRegisterObject a].
Proof. unfold registered. destruct (ClassPrivate o); reflexivity. Qed.

Lemma registered_class_self a n o w c :
  ClassPrivate o = Some c -> a ∈ GetObjectsOfClass c (registered a n o w).
Proof.
  intros Hc. unfold registered, GetObjectsOfClass. rewrite Hc. simpl.
  rewrite lookup_insert_eq. apply elem_of_app. right. apply list_elem_of_singleton.
  reflexivity.
Qed.

Lemma registered_class_mono a n o w c x :
  x ∈ GetObjectsOfClass c w -> x ∈ GetObjectsOfClass c (registered a n o w).
Proof.
  intros Hx. unfold registered, GetObjectsOfClass in *.
  destruct (ClassPrivate o) as [c'|]; simpl; [|exact Hx].
  destruct (decide (c' = c)) as [->|Hne].
  - rewrite lookup_insert_eq. apply elem_of_app. left.
    unfold class_objects. destruct (ObjectsByClass w !! c); exact Hx.
  - rewrite lookup_insert_ne by exact Hne. exact Hx.
Qed.

Lemma GetFullName_same_heap a w1 w2 : heap w1 = heap w2 -> GetFullName a w1 = GetFullName a w2.
Proof. intros H. unfold GetFullName. now rewrite H. Qed.

Lemma filter_key_singleton (m : gmap string addr) (n : string) (b : addr) :
  m !! n = Some b -> filter (fun kv => kv.1 = n) m = {[n := b]}.
Proof.
  intros Hm. apply map_eq. intros k.
  destruct (decide (k = n)) as [->|Hne].
  - rewrite lookup_singleton_eq. apply map_lookup_filter_Some. split; [exact Hm | reflexivity].
  - rewrite lookup_singleton_ne by congruence.
    apply map_lookup_filter_None. right. intros x _. simpl. exact Hne.
Qed.

(** C9. When two entities resolve to the same full name, registering one
    and then the other raises no error; the name map then has exactly one
    entry for that name, it maps to the second entity (after the first
    registration it mapped to the first), the second registration did not
    change the number of entries, and each entity that has a class is in
    the collection of that class. *)
Theorem RegisterObject_duplicate_name (w : World) (a b : addr) (n : string) :
  GetFullName a w = Some n ->
  GetFullName b w = Some n ->
  exists w1 w2,
    RegisterObject (Some a) w = Some (tt, w1) /\
    RegisterObject (Some b) w1 = Some (tt, w2) /\
    FindObject n w1 = Some a /\
    FindObject n w2 = Some b /\
    map_to_list (filter (fun kv => kv.1 = n) (Objects w2)) = [(n, b)] /\
    GetObjectCount w2 = GetObjectCount w1 /\
    (forall oa c, heap w !! a = Some oa -> ClassPrivate oa = Some c ->
                  a ∈ GetObjectsOfClass c w2) /\
    (forall ob c, heap w !! b = Some ob -> ClassPrivate ob = Some c ->
                  b ∈ GetObjectsOfClass c w2).
Proof.
  intros Ha Hb.
  destruct (GetFullName_live _ _ _ Ha) as [oa Hoa].
  destruct (GetFullName_live _ _ _ Hb) as [ob Hob].
  exists (registered a n oa w), (registered b n ob (registered a n oa w)).
  assert (Hb1 : GetFullName b (registered a n oa w) = Some n).
  { rewrite (GetFullName_same_heap b _ w); [exact Hb | apply registered_heap]. }
  assert (Hob1 : heap (registered a n oa w) !! b = Some ob).
  { rewrite registered_heap. exact Hob. }
  assert (Hf2 : Objects (registered b n ob (registered a n oa w)) !! n = Some b).
  { rewrite registered_Objects. apply lookup_insert_eq. }
  split; [apply RegisterObject_run; assumption|].
  split; [apply RegisterObject_run; assumption|].
  split; [unfold FindObject; rewrite registered_Objects; apply lookup_insert_eq|].
  split; [exact Hf2|].
  split; [rewrite (filter_key_singleton _ _ _ Hf2); apply map_to_list_singleton|].
  split.
  { unfold GetObjectCount. rewrite (registered_Objects b).
    apply map_size_insert_Some. exists a.
    rewrite registered_Objects. apply lookup_insert_eq. }
  split.
  - intros oa' c Hoa' Hc. assert (oa' = oa) by congruence. subst oa'.
    apply registered_class_mono, registered_class_self, Hc.
  - intros ob' c Hob' Hc. assert (ob' = ob) by congruence. subst ob'.
    apply registered_class_self, Hc.
Qed.

Lemma RegisterObject_duplicate_name_witness :
  let w := set_heap (fun _ => {[ 1%nat := mkObject "Dup" (Some 10%nat) None 0 1;
                                 2%nat := mkObject "Dup" (Some 20%nat) None 0 1 ]})
                    empty_world in
  exists w1 w2,
    RegisterObject (Some 1%nat) w = Some (tt, w1) /\
    RegisterObject (Some 2%nat) w1 = Some (tt, w2) /\
    FindObject "Dup" w2 = Some 2%nat /\
    GetObjectCount w2 = GetObjectCount w1.
Proof.
  intros w.
  destruct (RegisterObject_duplicate_name w 1%nat 2%nat "Dup" eq_refl eq_refl)
    as (w1 & w2 & H1 & H2 & _ & H4 & _ & H6 & _).
  exists w1, w2. repeat split; assumption.
Defined.

(** ** Creation and destruction *)

Lemma GetFullName_rec_insert_same fuel (h : gmap addr ObjectData) a o o' :
  h !! a = Some o -> Name o' = Name o -> OuterPrivate o' = OuterPrivate o ->
  forall b, GetFullName_rec fuel (<[a := o']> h) b = GetFullName_rec fuel h b.
Proof.
  intros Ho Hn Hout. induction fuel as [|fuel IH]; intros b; [reflexivity|].
  simpl. destruct (decide (b = a)) as [->|Hne].
  - rewrite lookup_insert_eq, Ho, Hn, Hout.
    destruct (OuterPrivate o); [rewrite IH|]; reflexivity.
  - rewrite lookup_insert_ne by congruence.
    destruct (h !! b) as [ob|]; [|reflexivity].
    destruct (OuterPrivate ob); [rewrite IH|]; reflexivity.
Qed.

(** Flags and counter do not enter the full name. *)
Lemma GetFullName_insert_same w w' a o o' b :
  heap w !! a = Some o -> heap w' = <[a := o']> (heap w) ->
  Name o' = Name o -> OuterPrivate o' = OuterPrivate o ->
  GetFullName b w' = GetFullName b w.
Proof.
  intros Ho Hh Hn Hout. unfold GetFullName, name_fuel. rewrite Hh.
  rewrite map_size_insert_Some by eauto.
  eapply GetFullName_rec_insert_same; eauto.
Qed.

Lemma AddFlags_run a flags w o :
  heap w !! a = Some o ->
  AddFlags a flags w =
    Some (tt, set_heap <[a := set_Flags (ObjectFlags.or (ObjectFlagsPrivate o) flags) o]> w).
Proof. intros Ho. unfold AddFlags, bind, deref, modify. rewrite Ho. reflexivity. Qed.

(** C3 (amended). [DestroyObject] on a live entity makes its calls in the
    order BeginDestroy, UnregisterObject, FinishDestroy, Release: the name
    is unregistered between the two phases.  Afterwards the name is no
    longer in the registry and the entity is not in the collection of its
    class; the entity is reclaimed when the released reference was the last
    one, and otherwise it carries both destroy flags and a counter one
    lower.  Destroying a null reference changes nothing. *)
Theorem DestroyObject_order (w : World) (a : addr) (o : ObjectData) (n : string) :
  heap w !! a = Some o ->
  GetFullName a w = Some n ->
  exists w',
    DestroyObject (Some a) w = Some (tt, w') /\
    trace w' = trace w
      ++ [EvBeginDestroy a; EvUnregisterObject a; EvFinishDestroy a; EvRelease a]
      ++ (if RefCount o =? 1 then [EvDelete a] else []) /\
    FindObject n w' = None /\
    (forall c, ClassPrivate o = Some c -> a ∉ GetObjectsOfClass c w') /\
    heap w' !! a =
      (if RefCount o =? 1 then None
       else Some (mkObject (Name o) (ClassPrivate o) (OuterPrivate o)
                    (ObjectFlags.or
                       (ObjectFlags.or (ObjectFlagsPrivate o) ObjectFlags.BeginDestroyed)
                       ObjectFlags.FinishDestroyed)
                    (Int.to_int32 (RefCount o - 1)))) /\
    DestroyObject None w = Some (tt, w).
Proof.
  intros Ho Hn.
  set (o1 := set_Flags (ObjectFlags.or (ObjectFlagsPrivate o) ObjectFlags.BeginDestroyed) o).
  set (w1 := set_heap <[a := o1]> (log (EvBeginDestroy a) w)).
  assert (H1 : BeginDestroy a w = Some (tt, w1)).
  { unfold BeginDestroy, bind, modify. now rewrite (AddFlags_run a _ _ o). }
  assert (Ho1 : heap w1 !! a = Some o1) by apply lookup_insert_eq.
  assert (Hn1 : GetFullName a w1 = Some n).
  { rewrite <- Hn. eapply (GetFullName_insert_same w w1 a o o1); eauto. }
  set (w2 := unregistered a n o1 w1).
  assert (H2 : UnregisterObject (Some a) w1 = Some (tt, w2))
    by (apply UnregisterObject_run; assumption).
  assert (Hh2 : heap w2 = heap w1).
  { unfold w2, unregistered. destruct (ClassPrivate o1); reflexivity. }
  assert (Ho2 : heap w2 !! a = Some o1) by (rewrite Hh2; exact Ho1).
  set (o3 := set_Flags (ObjectFlags.or (ObjectFlagsPrivate o1) ObjectFlags.FinishDestroyed) o1).
  set (w3 := set_heap <[a := o3]> (log (EvFinishDestroy a) w2)).
  assert (H3 : FinishDestroy a w2 = Some (tt, w3)).
  { unfold FinishDestroy, bind, modify. now rewrite (AddFlags_run a _ _ o1). }
  assert (Ho3 : heap w3 !! a = Some o3) by apply lookup_insert_eq.
  pose proof (Release_live a w3 o3 Ho3) as H4.
  eexists. split.
  { unfold DestroyObject, bind. rewrite H1, H2, H3. exact H4. }
  assert (Htr2 : trace w2 = trace w ++ [EvBeginDestroy a; EvUnregisterObject a]).
  { unfold w2, unregistered. destruct (ClassPrivate o1); simpl;
      now rewrite <- app_assoc. }
  assert (Hobj2 : Objects w2 !! n = None).
  { unfold w2, unregistered. destruct (ClassPrivate o1); simpl; apply lookup_delete_eq. }
  assert (Hcls2 : forall c, ClassPrivate o = Some c -> a ∉ GetObjectsOfClass c w2).
  { intros c Hc. unfold w2, unregistered, GetObjectsOfClass.
    change (ClassPrivate o1) with (ClassPrivate o). rewrite Hc. simpl.
    rewrite lookup_insert_eq. intros Hin. apply list_elem_of_filter in Hin as [Hne _].
    congruence. }
  change (RefCount o3) with (RefCount o).
  split; [|split; [|split; [|split]]].
  - destruct (RefCount o =? 1); simpl; rewrite Htr2, <- !app_assoc; reflexivity.
  - unfold FindObject. destruct (RefCount o =? 1); exact Hobj2.
  - intros c Hc. specialize (Hcls2 c Hc).
    destruct (RefCount o =? 1); exact Hcls2.
  - destruct (RefCount o =? 1); simpl.
    + apply lookup_delete_eq.
    + rewrite lookup_insert_eq. reflexivity.
  - reflexivity.
Qed.

Lemma DestroyObject_order_witness :
  exists w',
    DestroyObject (Some 1%nat) one_entity_world = Some (tt, w') /\
    trace w' = [EvBeginDestroy 1%nat; EvUnregisterObject 1%nat;
                EvFinishDestroy 1%nat; EvRelease 1%nat] /\
    FindObject "Player" w' = None.
Proof.
  destruct (DestroyObject_order one_entity_world 1%nat
              (mkObject "Player" (Some 10%nat) None ObjectFlags.NeedInitialization 2)
              "Player" eq_refl eq_refl)
    as (w' & Hrun & Htr & Hfind & _).
  exists w'. repeat split; assumption.
Defined.

(** C3 as stated fails on a live registered entity: the claim has
    FinishDestroy before the unregistration, the program calls
    [UnregisterObject] before [FinishDestroy]. *)
Lemma DestroyObject_unregisters_before_FinishDestroy :
  exists w',
    DestroyObject (Some 1%nat) one_entity_world = Some (tt, w') /\
    trace w' = [EvBeginDestroy 1%nat; EvUnregisterObject 1%nat;
                EvFinishDestroy 1%nat; EvRelease 1%nat] /\
    trace w' <> [EvBeginDestroy 1%nat; EvFinishDestroy 1%nat;
                 EvUnregisterObject 1%nat; EvRelease 1%nat].
Proof.
  eexists. split; [reflexivity|]. split; [reflexivity | discriminate].
Qed.

(** C4. [Object::CreateObject] with a null class returns null and leaves
    the world as it was: no entity, no registration, no failure.  The base
    [Class::CreateObject] produces nothing either.  When the factory of the
    class produces an entity (whose full name resolves), the entity is
    registered first, [PostInitProperties] is then called on a world whose
    registry already finds the entity under its full name, and the entity
    is what the caller gets back. *)
Theorem CreateObject_spec
    (factory : class_addr -> option addr -> string -> M (option addr))
    (PostInitProperties : addr -> M unit) :
  (forall outer name w,
      CreateObject factory PostInitProperties None outer name w = Some (None, w)) /\
  (forall c outer name w,
      CreateObject Class_CreateObject_base PostInitProperties (Some c) outer name w
      = Some (None, w)) /\
  (forall c outer name w w1 a n,
      factory c outer name w = Some (Some a, w1) ->
      GetFullName a w1 = Some n ->
      exists w2,
        RegisterObject (Some a) w1 = Some (tt, w2) /\
        FindObject n w2 = Some a /\
        trace w2 = trace w1 ++ [EvRegisterObject a] /\
        CreateObject factory PostInitProperties (Some c) outer name w =
          match PostInitProperties a (log (EvPostInitProperties a) w2) with
          | Some (_, w3) => Some (Some a, w3)
          | None => None
          end).
Proof.
  split; [reflexivity|]. split; [reflexivity|].
  intros c outer name w w1 a n Hf Hn.
  destruct (GetFullName_live _ _ _ Hn) as [o Ho].
  exists (registered a n o w1).
  pose proof (RegisterObject_run a w1 n o Hn Ho) as Hreg.
  split; [exact Hreg|].
  split; [unfold FindObject; rewrite registered_Objects; apply lookup_insert_eq|].
  split; [apply registered_trace|].
  unfold CreateObject, bind. rewrite Hf, Hreg. unfold modify, ret.
  destruct (PostInitProperties a _) as [[[] w3]|]; reflexivity.
Qed.

Lemma CreateObject_spec_witness :
  exists w2,
    RegisterObject (Some 0%nat)
      (set_heap <[0%nat := mkObject "Hero" (Some 10%nat) None
                             (ObjectFlagsPrivate new_ObjectData) 1]> empty_world)
      = Some (tt, w2) /\
    FindObject "Hero" w2 = Some 0%nat /\
    CreateObject Class_CreateObject_concrete PostInitProperties_base
      (Some 10%nat) None "Hero" empty_world
    = Some (Some 0%nat, log (EvPostInitProperties 0%nat) w2).
Proof.
  destruct (CreateObject_spec Class_CreateObject_concrete PostInitProperties_base)
    as (_ & _ & H).
  destruct (H 10%nat None "Hero"%string empty_world _ 0%nat "Hero"%string eq_refl eq_refl)
    as (w2 & Hreg & Hfind & _ & Hrun).
  exists w2. repeat split; assumption.
Defined.

(** ** Owning references *)

Lemma ObjectPtr_Release_run this prev w :
  handles w !! this = Some prev ->
  ObjectPtr.Release this w = (fun w' => (tt, w')) <$> release_held prev w.
Proof.
  intros Hh. unfold ObjectPtr.Release, ObjectPtr.Ptr, bind. rewrite Hh.
  destruct prev as [b|]; simpl; [|reflexivity].
  destruct (heap w !! b) as [ob|] eqn:Hb.
  - rewrite (Release_live _ _ _ Hb). reflexivity.
  - rewrite (Release_dead _ _ Hb). reflexivity.
Qed.

Lemma release_held_handles prev w w' :
  release_held prev w = Some w' -> handles w' = handles w.
Proof.
  destruct prev as [b|]; simpl; [|congruence].
  destruct (heap w !! b) as [ob|]; [|discriminate]. intros [= <-].
  unfold release_world. destruct (RefCount ob =? 1); reflexivity.
Qed.

Lemma release_world_other a o w b : b <> a -> heap (release_world a o w) !! b = heap w !! b.
Proof.
  intros Hne. unfold release_world.
  destruct (RefCount o =? 1); simpl.
  - rewrite lookup_delete_ne, lookup_insert_ne by congruence. reflexivity.
  - rewrite lookup_insert_ne by congruence. reflexivity.
Qed.

Lemma release_world_self a o w :
  heap (release_world a o w) !! a =
    if RefCount o =? 1 then None
    else Some (set_RefCount (Int.to_int32 (RefCount o - 1)) o).
Proof.
  unfold release_world. destruct (RefCount o =? 1); simpl.
  - apply lookup_delete_eq.
  - apply lookup_insert_eq.
Qed.

Lemma release_world_self_dead a o w :
  RefCount o = 1 -> heap (release_world a o w) !! a = None.
Proof. intros E. rewrite release_world_self, E. reflexivity. Qed.

Lemma release_world_destroy_count a o w :
  destroy_count a (release_world a o w)
  = (destroy_count a w + (if (RefCount o =? 1)%Z then 1 else 0))%nat.
Proof.
  unfold release_world, destroy_count.
  destruct (RefCount o =? 1); simpl; rewrite ?filter_app, ?length_app; simpl.
  - rewrite (filter_cons _ (EvDelete a)), decide_True by reflexivity. simpl. lia.
  - lia.
Qed.

Lemma ctor_raw_run this a o w :
  handles w !! this = None -> heap w !! a = Some o ->
  ObjectPtr.ctor_raw this (Some a) w
  = Some (tt, addref_world a o (set_handles <[this := Some a]> w)).
Proof.
  intros Hf Ho.
  unfold ObjectPtr.ctor_raw, ObjectPtr.fresh, ObjectPtr.set_Ptr, ObjectPtr.AddRef,
    ObjectPtr.Ptr, bind, modify.
  rewrite Hf. simpl. rewrite lookup_insert_eq.
  erewrite AddRef_live by exact Ho. reflexivity.
Qed.

Lemma ctor_raw_null this w :
  handles w !! this = None ->
  ObjectPtr.ctor_raw this None w = Some (tt, set_handles <[this := None]> w).
Proof.
  intros Hf.
  unfold ObjectPtr.ctor_raw, ObjectPtr.fresh, ObjectPtr.set_Ptr, ObjectPtr.AddRef,
    ObjectPtr.Ptr, bind, modify.
  rewrite Hf. simpl. rewrite lookup_insert_eq. reflexivity.
Qed.

Lemma ctor_copy_run this other a o w :
  handles w !! this = None -> handles w !! other = Some (Some a) -> heap w !! a = Some o ->
  ObjectPtr.ctor_copy this other w
  = Some (tt, addref_world a o (set_handles <[this := Some a]> w)).
Proof.
  intros Hf Hoth Ho.
  unfold ObjectPtr.ctor_copy, ObjectPtr.fresh, ObjectPtr.set_Ptr, ObjectPtr.AddRef,
    ObjectPtr.Ptr, bind, modify.
  rewrite Hf, Hoth. simpl. rewrite lookup_insert_eq.
  erewrite AddRef_live by exact Ho. reflexivity.
Qed.

Lemma ctor_move_run this other p w :
  handles w !! this = None -> handles w !! other = Some p ->
  ObjectPtr.ctor_move this other w
  = Some (tt, set_handles (fun m => <[other := None]> (<[this := p]> m)) w).
Proof.
  intros Hf Hoth.
  unfold ObjectPtr.ctor_move, ObjectPtr.fresh, ObjectPtr.set_Ptr, ObjectPtr.Ptr, bind, modify.
  rewrite Hf, Hoth. reflexivity.
Qed.

Lemma dtor_run this a o w :
  handles w !! this = Some (Some a) -> heap w !! a = Some o ->
  ObjectPtr.dtor this w = Some (tt, set_handles (delete this) (release_world a o w)).
Proof.
  intros Hh Ho. unfold ObjectPtr.dtor, bind.
  rewrite (ObjectPtr_Release_run _ _ _ Hh). simpl. rewrite Ho. reflexivity.
Qed.

Lemma assign_copy_run this other prev a w w1 o :
  this <> other ->
  handles w !! this = Some prev -> handles w !! other = Some (Some a) ->
  release_held prev w = Some w1 -> heap w1 !! a = Some o ->
  ObjectPtr.assign_copy this other w
  = Some (tt, addref_world a o (set_handles <[this := Some a]> w1)).
Proof.
  intros Hne Hh Hoth Hrel Ho. unfold ObjectPtr.assign_copy.
  rewrite decide_True by exact Hne. unfold bind.
  rewrite (ObjectPtr_Release_run _ _ _ Hh), Hrel. simpl.
  unfold ObjectPtr.Ptr, ObjectPtr.set_Ptr, ObjectPtr.AddRef, ObjectPtr.Ptr, bind, modify.
  rewrite (release_held_handles _ _ _ Hrel), Hoth. simpl. rewrite lookup_insert_eq.
  erewrite AddRef_live by exact Ho. reflexivity.
Qed.

Lemma assign_move_run this other prev p w w1 :
  this <> other ->
  handles w !! this = Some prev -> handles w !! other = Some p ->
  release_held prev w = Some w1 ->
  ObjectPtr.assign_move this other w
  = Some (tt, set_handles (fun m => <[other := None]> (<[this := p]> m)) w1).
Proof.
  intros Hne Hh Hoth Hrel. unfold ObjectPtr.assign_move.
  rewrite decide_True by exact Hne. unfold bind.
  rewrite (ObjectPtr_Release_run _ _ _ Hh), Hrel. simpl.
  unfold ObjectPtr.Ptr, ObjectPtr.set_Ptr, bind, modify.
  rewrite (release_held_handles _ _ _ Hrel), Hoth. reflexivity.
Qed.

Lemma to_int32_succ_pred x : Int.in_int32 x -> Int.to_int32 (Int.to_int32 (x + 1) - 1) = x.
Proof.
  intros Hx. rewrite to_int32_sub_l. replace (x + 1 - 1) with x by lia.
  apply to_int32_id, Hx.
Qed.

(** From a positive counter, up to three increments never land on 1, wrap
    or not. *)
Lemma to_int32_add_ne_1 c k :
  1 <= c <= Int.INT32_MAX -> 1 <= k <= 3 -> Int.to_int32 (c + k) <> 1.
Proof.
  unfold Int.to_int32, Int.INT32_MAX. intros Hc Hk.
  destruct (Z_le_gt_dec (c + k) 2147483647).
  - rewrite Z.mod_small by lia. lia.
  - replace (c + k + 2147483648) with (c + k - 2147483648 + 1 * 4294967296) by lia.
    rewrite Z_mod_plus_full, Z.mod_small by lia. lia.
Qed.

Section HandleSteps.

Variables (a : addr) (o : ObjectData) (w : World).
Hypothesis Ho : heap w !! a = Some o.

Lemma ctor_raw_step this :
  handles w !! this = None ->
  exists w',
    ObjectPtr.ctor_raw this (Some a) w = Some (tt, w') /\
    heap w' = <[a := set_RefCount (Int.to_int32 (RefCount o + 1)) o]> (heap w) /\
    handles w' = <[this := Some a]> (handles w) /\
    destroy_count a w' = destroy_count a w.
Proof.
  intros Hf. eexists. split; [apply ctor_raw_run; eassumption|].
  repeat split. unfold destroy_count. simpl.
  rewrite filter_app. simpl. rewrite length_app. simpl. lia.
Qed.

Lemma ctor_copy_step this other :
  handles w !! this = None -> handles w !! other = Some (Some a) ->
  exists w',
    ObjectPtr.ctor_copy this other w = Some (tt, w') /\
    heap w' = <[a := set_RefCount (Int.to_int32 (RefCount o + 1)) o]> (heap w) /\
    handles w' = <[this := Some a]> (handles w) /\
    destroy_count a w' = destroy_count a w.
Proof.
  intros Hf Hoth. eexists. split; [eapply ctor_copy_run; eassumption|].
  repeat split. unfold destroy_count. simpl.
  rewrite filter_app. simpl. rewrite length_app. simpl. lia.
Qed.

Lemma dtor_step this :
  handles w !! this = Some (Some a) ->
  exists w',
    ObjectPtr.dtor this w = Some (tt, w') /\
    heap w' = (if RefCount o =? 1 then delete a (heap w)
               else <[a := set_RefCount (Int.to_int32 (RefCount o - 1)) o]> (heap w)) /\
    handles w' = delete this (handles w) /\
    destroy_count a w'
    = (destroy_count a w + (if (RefCount o =? 1)%Z then 1 else 0))%nat.
Proof.
  intros Hh. eexists. split; [eapply dtor_run; eassumption|].
  split; [|split].
  - unfold release_world. destruct (RefCount o =? 1); simpl; [|reflexivity].
    apply delete_insert_eq.
  - simpl. unfold release_world. destruct (RefCount o =? 1); reflexivity.
  - apply release_world_destroy_count.
Qed.

End HandleSteps.

Lemma set_RefCount_twice x y o : set_RefCount x (set_RefCount y o) = set_RefCount x o.
Proof. reflexivity. Qed.

Lemma copy_twice_release_all_run (a : addr) (o : ObjectData) (w : World) (p1 p2 p3 : nat) :
  heap w !! a = Some o ->
  Int.in_int32 (RefCount o) ->
  Int.to_int32 (RefCount o + 1) <> 1 ->
  Int.to_int32 (RefCount o + 2) <> 1 ->
  handles w !! p1 = Some (Some a) ->
  handles w !! p2 = None -> handles w !! p3 = None -> p2 <> p3 ->
  exists w',
    copy_twice_release_all p1 p2 p3 w = Some (tt, w') /\
    heap w' = (if RefCount o =? 1 then delete a (heap w)
               else <[a := set_RefCount (Int.to_int32 (RefCount o - 1)) o]> (heap w)) /\
    handles w' = delete p1 (handles w) /\
    destroy_count a w'
    = (destroy_count a w + (if (RefCount o =? 1)%Z then 1 else 0))%nat.
Proof.
  intros Ho Hr Hn1 Hn2 H1 H2 H3 H23.
  assert (H12 : p1 <> p2) by congruence.
  assert (H13 : p1 <> p3) by congruence.
  (* p2 := copy of p1 *)
  destruct (ctor_copy_step a o w Ho p2 p1 H2 H1) as (w1 & R1 & Hh1 & Hp1 & Hd1).
  set (o1 := set_RefCount (Int.to_int32 (RefCount o + 1)) o) in *.
  assert (Ho1 : heap w1 !! a = Some o1) by (rewrite Hh1; apply lookup_insert_eq).
  (* p3 := copy of p1 *)
  destruct (ctor_copy_step a o1 w1 Ho1 p3 p1) as (w2 & R2 & Hh2 & Hp2 & Hd2).
  { rewrite Hp1, lookup_insert_ne by congruence. exact H3. }
  { rewrite Hp1, lookup_insert_ne by congruence. exact H1. }
  set (o2 := set_RefCount (Int.to_int32 (RefCount o1 + 1)) o1) in *.
  assert (Ho2 : heap w2 !! a = Some o2) by (rewrite Hh2; apply lookup_insert_eq).
  assert (Hc2 : RefCount o2 = Int.to_int32 (RefCount o + 2)).
  { simpl. rewrite to_int32_add_l. f_equal. lia. }
  (* ~p3 *)
  destruct (dtor_step a o2 w2 Ho2 p3) as (w3 & R3 & Hh3 & Hp3 & Hd3).
  { rewrite Hp2. apply lookup_insert_eq. }
  assert (E2 : (RefCount o2 =? 1) = false).
  { apply Z.eqb_neq. rewrite Hc2. exact Hn2. }
  rewrite E2 in Hh3, Hd3.
  set (o3 := set_RefCount (Int.to_int32 (RefCount o2 - 1)) o2) in *.
  assert (Ho3 : heap w3 !! a = Some o3) by (rewrite Hh3; apply lookup_insert_eq).
  assert (Hc3 : RefCount o3 = Int.to_int32 (RefCount o + 1)).
  { simpl. apply to_int32_succ_pred, to_int32_range. }
  (* ~p2 *)
  destruct (dtor_step a o3 w3 Ho3 p2) as (w4 & R4 & Hh4 & Hp4 & Hd4).
  { rewrite Hp3, lookup_delete_ne, Hp2, lookup_insert_ne, Hp1 by congruence.
    apply lookup_insert_eq. }
  assert (E3 : (RefCount o3 =? 1) = false).
  { apply Z.eqb_neq. rewrite Hc3. exact Hn1. }
  rewrite E3 in Hh4, Hd4.
  set (o4 := set_RefCount (Int.to_int32 (RefCount o3 - 1)) o3) in *.
  assert (Ho4 : heap w4 !! a = Some o4) by (rewrite Hh4; apply lookup_insert_eq).
  assert (Hc4 : RefCount o4 = RefCount o).
  { change (RefCount o4) with (Int.to_int32 (RefCount o3 - 1)).
    rewrite Hc3. apply to_int32_succ_pred, Hr. }
  (* ~p1 *)
  destruct (dtor_step a o4 w4 Ho4 p1) as (w5 & R5 & Hh5 & Hp5 & Hd5).
  { rewrite Hp4, lookup_delete_ne, Hp3, lookup_delete_ne, Hp2, lookup_insert_ne,
      Hp1, lookup_insert_ne by congruence. exact H1. }
  rewrite Hc4 in Hh5, Hd5.
  exists w5. split.
  { unfold copy_twice_release_all, bind. rewrite R1, R2, R3, R4. exact R5. }
  split; [|split].
  - rewrite Hh5, Hh4, Hh3, Hh2, Hh1.
    destruct (RefCount o =? 1) eqn:E.
    + rewrite !delete_insert_eq. reflexivity.
    + rewrite !insert_insert_eq. reflexivity.
  - rewrite Hp5, Hp4, Hp3, Hp2, Hp1.
    apply map_eq. intros i.
    repeat (rewrite ?lookup_delete, ?lookup_insert; case_decide; subst);
      congruence.
  - rewrite Hd5, Hd4, Hd3, Hd2, Hd1. lia.
Qed.

Lemma copy_twice_release_all_spec (a : addr) (o : ObjectData) (w : World) (p1 p2 p3 : nat) :
  heap w !! a = Some o ->
  1 <= RefCount o <= Int.INT32_MAX ->
  handles w !! p1 = Some (Some a) ->
  handles w !! p2 = None -> handles w !! p3 = None -> p2 <> p3 ->
  exists w',
    copy_twice_release_all p1 p2 p3 w = Some (tt, w') /\
    GetRefCount a w' = (if RefCount o =? 1 then None else Some (RefCount o - 1)) /\
    destroy_count a w'
    = (destroy_count a w + (if (RefCount o =? 1)%Z then 1 else 0))%nat.
Proof.
  intros Ho Hc H1 H2 H3 H23.
  destruct (copy_twice_release_all_run a o w p1 p2 p3) as (w' & Hrun & Hh & _ & Hd); auto.
  { unfold Int.in_int32, Int.INT32_MIN, Int.INT32_MAX in *. lia. }
  { apply to_int32_add_ne_1; lia. }
  { apply to_int32_add_ne_1; lia. }
  exists w'. split; [exact Hrun|]. split; [|exact Hd].
  unfold GetRefCount. rewrite Hh. destruct (RefCount o =? 1) eqn:E.
  - rewrite lookup_delete_eq. reflexivity.
  - rewrite lookup_insert_eq. simpl. f_equal. apply to_int32_id.
    apply Z.eqb_neq in E. unfold Int.in_int32, Int.INT32_MIN, Int.INT32_MAX in *. lia.
Qed.

Lemma acquire_copy_twice_release_all_spec
    (a : addr) (o : ObjectData) (w : World) (p1 p2 p3 : nat) :
  heap w !! a = Some o ->
  1 <= RefCount o <= Int.INT32_MAX ->
  handles w !! p1 = None -> handles w !! p2 = None -> handles w !! p3 = None ->
  p1 <> p2 -> p1 <> p3 -> p2 <> p3 ->
  exists w',
    acquire_copy_twice_release_all a p1 p2 p3 w = Some (tt, w') /\
    GetRefCount a w' = Some (RefCount o) /\
    destroy_count a w' = destroy_count a w /\
    handles w' = handles w.
Proof.
  intros Ho Hc H1 H2 H3 H12 H13 H23.
  destruct (ctor_raw_step a o w Ho p1 H1) as (w1 & R1 & Hh1 & Hp1 & Hd1).
  set (o1 := set_RefCount (Int.to_int32 (RefCount o + 1)) o) in *.
  assert (Ho1 : heap w1 !! a = Some o1) by (rewrite Hh1; apply lookup_insert_eq).
  assert (Hne : Int.to_int32 (RefCount o + 1) <> 1) by (apply to_int32_add_ne_1; lia).
  destruct (copy_twice_release_all_run a o1 w1 p1 p2 p3) as (w' & Hrun & Hh & Hp & Hd);
    auto.
  { apply to_int32_range. }
  { simpl. rewrite to_int32_add_l, <- Z.add_assoc. apply to_int32_add_ne_1; lia. }
  { simpl. rewrite to_int32_add_l, <- Z.add_assoc. apply to_int32_add_ne_1; lia. }
  { rewrite Hp1. apply lookup_insert_eq. }
  { rewrite Hp1, lookup_insert_ne by congruence. exact H2. }
  { rewrite Hp1, lookup_insert_ne by congruence. exact H3. }
  change (RefCount o1) with (Int.to_int32 (RefCount o + 1)) in Hh, Hd.
  apply Z.eqb_neq in Hne. rewrite Hne in Hh, Hd.
  exists w'. split.
  { unfold acquire_copy_twice_release_all, bind. rewrite R1. exact Hrun. }
  split; [|split].
  - unfold GetRefCount. rewrite Hh, lookup_insert_eq. simpl. f_equal.
    apply to_int32_succ_pred.
    unfold Int.in_int32, Int.INT32_MIN, Int.INT32_MAX in *. lia.
  - rewrite Hd, Hd1. lia.
  - rewrite Hp, Hp1. apply delete_insert_id. exact H1.
Qed.

Lemma release_held_other prev w w1 a :
  prev <> Some a -> release_held prev w = Some w1 -> heap w1 !! a = heap w !! a.
Proof.
  intros Hne. destruct prev as [b|]; simpl; [|congruence].
  destruct (heap w !! b) as [ob|]; [|discriminate]. intros [= <-].
  apply release_world_other. congruence.
Qed.

Lemma release_held_live prev w :
  (forall b, prev = Some b -> is_Some (heap w !! b)) ->
  exists w1, release_held prev w = Some w1.
Proof.
  intros Hl. destruct prev as [b|]; simpl; [|eauto].
  destruct (Hl b eq_refl) as [ob ->]. eauto.
Qed.

Lemma release_held_prev b ob w w1 :
  heap w !! b = Some ob -> release_held (Some b) w = Some w1 ->
  heap w1 !! b = if RefCount ob =? 1 then None
                 else Some (set_RefCount (Int.to_int32 (RefCount ob - 1)) ob).
Proof.
  intros Hb. simpl. rewrite Hb. intros [= <-]. apply release_world_self.
Qed.

Section OwningReference.

Variables (w : World) (a : addr) (o : ObjectData).
Hypothesis Ho : heap w !! a = Some o.

Lemma ctor_raw_counts this :
  handles w !! this = None ->
  (exists w', ObjectPtr.ctor_raw this (Some a) w = Some (tt, w') /\
              GetRefCount a w' = Some (Int.to_int32 (RefCount o + 1)) /\
              ObjectPtr.Get this w' = Some (Some a)) /\
  (exists w', ObjectPtr.ctor_raw this None w = Some (tt, w') /\
              heap w' = heap w /\
              ObjectPtr.Get this w' = Some None).
Proof.
  intros Hf. split.
  - destruct (ctor_raw_step a o w Ho this Hf) as (w' & R & Hh & Hp & _).
    exists w'. split; [exact R|]. unfold GetRefCount, ObjectPtr.Get.
    rewrite Hh, Hp, !lookup_insert_eq. split; reflexivity.
  - eexists. split; [apply ctor_raw_null; exact Hf|].
    split; [reflexivity|]. unfold ObjectPtr.Get. simpl. apply lookup_insert_eq.
Qed.

Lemma ctor_copy_counts this other :
  handles w !! this = None -> handles w !! other = Some (Some a) ->
  exists w', ObjectPtr.ctor_copy this other w = Some (tt, w') /\
             GetRefCount a w' = Some (Int.to_int32 (RefCount o + 1)) /\
             ObjectPtr.Get this w' = Some (Some a) /\
             ObjectPtr.Get other w' = Some (Some a).
Proof.
  intros Hf Hoth.
  destruct (ctor_copy_step a o w Ho this other Hf Hoth) as (w' & R & Hh & Hp & _).
  exists w'. split; [exact R|]. unfold GetRefCount, ObjectPtr.Get.
  rewrite Hh, Hp, !lookup_insert_eq.
  rewrite lookup_insert_ne by congruence. repeat split; auto.
Qed.

Lemma ctor_move_counts this other p :
  handles w !! this = None -> handles w !! other = Some p ->
  exists w', ObjectPtr.ctor_move this other w = Some (tt, w') /\
             heap w' = heap w /\
             ObjectPtr.Get this w' = Some p /\
             ObjectPtr.Get other w' = Some None.
Proof.
  intros Hf Hoth. eexists. split; [eapply ctor_move_run; eassumption|].
  split; [reflexivity|]. unfold ObjectPtr.Get. simpl.
  rewrite lookup_insert_eq, lookup_insert_ne, lookup_insert_eq by congruence.
  split; reflexivity.
Qed.

Lemma assign_copy_counts this other prev :
  this <> other ->
  handles w !! this = Some prev -> handles w !! other = Some (Some a) ->
  prev <> Some a -> (forall b, prev = Some b -> is_Some (heap w !! b)) ->
  exists w', ObjectPtr.assign_copy this other w = Some (tt, w') /\
             GetRefCount a w' = Some (Int.to_int32 (RefCount o + 1)) /\
             ObjectPtr.Get this w' = Some (Some a) /\
             ObjectPtr.Get other w' = Some (Some a) /\
             (forall b ob, prev = Some b -> heap w !! b = Some ob ->
                GetRefCount b w' =
                  if RefCount ob =? 1 then None
                  else Some (Int.to_int32 (RefCount ob - 1))).
Proof.
  intros Hne Hh Hoth Hprev Hlive.
  destruct (release_held_live prev w Hlive) as [w1 Hrel].
  assert (Ho1 : heap w1 !! a = Some o).
  { rewrite (release_held_other _ _ _ _ Hprev Hrel). exact Ho. }
  eexists. split; [eapply assign_copy_run; eassumption|].
  unfold GetRefCount, ObjectPtr.Get. simpl.
  rewrite !lookup_insert_eq, lookup_insert_ne by congruence.
  rewrite (release_held_handles _ _ _ Hrel).
  repeat split; auto.
  intros b ob -> Hb. rewrite lookup_insert_ne by congruence.
  rewrite (release_held_prev _ _ _ _ Hb Hrel).
  destruct (RefCount ob =? 1); reflexivity.
Qed.

Lemma assign_copy_same_entity this other :
  this <> other ->
  handles w !! this = Some (Some a) -> handles w !! other = Some (Some a) ->
  Int.in_int32 (RefCount o) -> RefCount o <> 1 ->
  exists w', ObjectPtr.assign_copy this other w = Some (tt, w') /\
             GetRefCount a w' = Some (RefCount o) /\
             ObjectPtr.Get this w' = Some (Some a).
Proof.
  intros Hne Hh Hoth Hr Hc.
  assert (Hrel : release_held (Some a) w = Some (released a o w)).
  { simpl. rewrite Ho. unfold release_world.
    apply Z.eqb_neq in Hc. rewrite Hc. reflexivity. }
  eexists. split.
  { eapply assign_copy_run; try eassumption. simpl. apply lookup_insert_eq. }
  unfold GetRefCount, ObjectPtr.Get. simpl. rewrite !lookup_insert_eq. simpl.
  split; [|reflexivity]. f_equal.
  rewrite to_int32_add_l. replace (RefCount o - 1 + 1) with (RefCount o) by lia.
  apply to_int32_id, Hr.
Qed.

Lemma assign_move_counts this other prev :
  this <> other ->
  handles w !! this = Some prev -> handles w !! other = Some (Some a) ->
  prev <> Some a -> (forall b, prev = Some b -> is_Some (heap w !! b)) ->
  exists w', ObjectPtr.assign_move this other w = Some (tt, w') /\
             GetRefCount a w' = Some (RefCount o) /\
             ObjectPtr.Get this w' = Some (Some a) /\
             ObjectPtr.Get other w' = Some None /\
             (forall b ob, prev = Some b -> heap w !! b = Some ob ->
                GetRefCount b w' =
                  if RefCount ob =? 1 then None
                  else Some (Int.to_int32 (RefCount ob - 1))).
Proof.
  intros Hne Hh Hoth Hprev Hlive.
  destruct (release_held_live prev w Hlive) as [w1 Hrel].
  assert (Ho1 : heap w1 !! a = Some o).
  { rewrite (release_held_other _ _ _ _ Hprev Hrel). exact Ho. }
  eexists. split; [eapply assign_move_run; eassumption|].
  unfold GetRefCount, ObjectPtr.Get. simpl.
  rewrite Ho1, lookup_insert_eq, lookup_insert_ne, lookup_insert_eq by congruence.
  repeat split; auto.
  intros b ob -> Hb.
  rewrite (release_held_prev _ _ _ _ Hb Hrel).
  destruct (RefCount ob =? 1); reflexivity.
Qed.

Lemma assign_self_noop this :
  ObjectPtr.assign_copy this this w = Some (tt, w) /\
  ObjectPtr.assign_move this this w = Some (tt, w).
Proof.
  unfold ObjectPtr.assign_copy, ObjectPtr.assign_move.
  rewrite !decide_False by (intros H; apply H; reflexivity). split; reflexivity.
Qed.

Lemma assign_copy_same_entity_last this other :
  this <> other ->
  handles w !! this = Some (Some a) -> handles w !! other = Some (Some a) ->
  RefCount o = 1 ->
  ObjectPtr.assign_copy this other w = None.
Proof.
  intros Hne Hh Hoth Hc.
  assert (Hrel : release_held (Some a) w = Some (release_world a o w)).
  { simpl. rewrite Ho. reflexivity. }
  unfold ObjectPtr.assign_copy. rewrite decide_True by exact Hne. unfold bind.
  rewrite (ObjectPtr_Release_run _ _ _ Hh), Hrel. simpl.
  unfold ObjectPtr.Ptr at 1, ObjectPtr.set_Ptr, ObjectPtr.AddRef, ObjectPtr.Ptr, bind, modify.
  rewrite (release_held_handles _ _ _ Hrel), Hoth. simpl. rewrite lookup_insert_eq.
  apply AddRef_dead. simpl. apply release_world_self_dead. exact Hc.
Qed.

Lemma assign_move_same_entity this other :
  this <> other ->
  handles w !! this = Some (Some a) -> handles w !! other = Some (Some a) ->
  exists w', ObjectPtr.assign_move this other w = Some (tt, w') /\
             GetRefCount a w' =
               (if RefCount o =? 1 then None
                else Some (Int.to_int32 (RefCount o - 1))) /\
             ObjectPtr.Get this w' = Some (Some a) /\
             ObjectPtr.Get other w' = Some None.
Proof.
  intros Hne Hh Hoth.
  assert (Hrel : release_held (Some a) w = Some (release_world a o w)).
  { simpl. rewrite Ho. reflexivity. }
  eexists. split; [eapply assign_move_run; eassumption|].
  unfold GetRefCount, ObjectPtr.Get. simpl.
  rewrite release_world_self, lookup_insert_eq, lookup_insert_ne, lookup_insert_eq
    by congruence.
  split; [destruct (RefCount o =? 1); reflexivity|]. split; reflexivity.
Qed.

Lemma assign_null_counts this other :
  this <> other ->
  handles w !! this = Some (Some a) -> handles w !! other = Some None ->
  (exists w', ObjectPtr.assign_copy this other w = Some (tt, w') /\
              GetRefCount a w' =
                (if RefCount o =? 1 then None
                 else Some (Int.to_int32 (RefCount o - 1))) /\
              ObjectPtr.Get this w' = Some None /\
              ObjectPtr.Get other w' = Some None) /\
  (exists w', ObjectPtr.assign_move this other w = Some (tt, w') /\
              GetRefCount a w' =
                (if RefCount o =? 1 then None
                 else Some (Int.to_int32 (RefCount o - 1))) /\
              ObjectPtr.Get this w' = Some None /\
              ObjectPtr.Get other w' = Some None).
Proof.
  intros Hne Hh Hoth.
  assert (Hrel : release_held (Some a) w = Some (release_world a o w)).
  { simpl. rewrite Ho. reflexivity. }
  pose proof (release_held_handles _ _ _ Hrel) as Hhs.
  split.
  - exists (set_handles <[this := None]> (release_world a o w)). split.
    { unfold ObjectPtr.assign_copy. rewrite decide_True by exact Hne. unfold bind.
      rewrite (ObjectPtr_Release_run _ _ _ Hh), Hrel. simpl.
      unfold ObjectPtr.Ptr at 1, ObjectPtr.set_Ptr, ObjectPtr.AddRef, ObjectPtr.Ptr,
        bind, modify.
      rewrite Hhs, Hoth. simpl. rewrite lookup_insert_eq. reflexivity. }
    unfold GetRefCount, ObjectPtr.Get. simpl.
    rewrite release_world_self, lookup_insert_eq, lookup_insert_ne, Hhs, Hoth
      by congruence.
    split; [destruct (RefCount o =? 1); reflexivity|]. split; reflexivity.
  - eexists. split; [eapply assign_move_run; eassumption|].
    unfold GetRefCount, ObjectPtr.Get. simpl.
    rewrite release_world_self, lookup_insert_eq, lookup_insert_ne, lookup_insert_eq
      by congruence.
    split; [destruct (RefCount o =? 1); reflexivity|]. split; reflexivity.
Qed.

Lemma dtor_counts this :
  handles w !! this = Some (Some a) ->
  exists w', ObjectPtr.dtor this w = Some (tt, w') /\
             GetRefCount a w' =
               (if RefCount o =? 1 then None
                else Some (Int.to_int32 (RefCount o - 1))) /\
             ObjectPtr.Get this w' = None.
Proof.
  intros Hh. destruct (dtor_step a o w Ho this Hh) as (w' & R & Hheap & Hp & _).
  exists w'. split; [exact R|]. unfold GetRefCount, ObjectPtr.Get.
  rewrite Hheap, Hp, lookup_delete_eq. split; [|reflexivity].
  destruct (RefCount o =? 1).
  - now rewrite lookup_delete_eq.
  - now rewrite lookup_insert_eq.
Qed.

(** The release that finds the counter at 1 is the one that takes it
    below 1; it reclaims the entity, once, and no other release does. *)
Lemma Release_below_one :
  1 <= RefCount o <= Int.INT32_MAX ->
  exists w', Release a w = Some (tt, w') /\
             (heap w' !! a = None <-> RefCount o - 1 < 1) /\
             destroy_count a w'
             = (destroy_count a w + (if (RefCount o - 1 <? 1)%Z then 1 else 0))%nat /\
             (heap w' !! a = None -> Release a w' = None).
Proof.
  intros Hc. eexists. split; [apply Release_live; exact Ho|].
  fold (release_world a o w).
  rewrite release_world_self, release_world_destroy_count.
  destruct (Z.eqb_spec (RefCount o) 1) as [E|E].
  - rewrite E. simpl. repeat split; auto; try lia.
    intros _. apply Release_dead. apply release_world_self_dead. now rewrite E.
  - destruct (Z.ltb_spec (RefCount o - 1) 1); [lia|].
    repeat split; try discriminate; try lia.
Qed.

End OwningReference.

(** C2 (amended). For a live entity with a positive counter, the counter
    being a signed 32-bit integer that wraps: constructing an owning
    reference from a raw reference increments the counter (a null
    reference touches no counter); copy construction increments it; move
    construction touches no counter and leaves the source null;
    destruction decrements the counter of the held entity, and reclaims
    the entity when the counter was 1.  Assignment from another owning
    reference first decrements the counter of the entity the target held
    before (reclaiming it when that counter was 1).  Copy assignment then
    increments the counter of the assigned entity: the counter is one
    higher when the target held another entity or none, and unchanged when
    the target held the same entity already, a call that is not defined
    when that counter is 1, the entity being reclaimed before it is
    acquired again.  Move assignment increments nothing and leaves the
    source null: the counter of the transferred entity is unchanged when
    the target held another entity or none, and one lower when the target
    held the same entity already.  Assignment from a null owning reference
    decrements the counter of the held entity and leaves the target null.
    Self-assignment, by copy or by move, changes nothing: the source of a
    self move-assignment stays set.  Hence constructing an owning
    reference, copying it twice and releasing all three returns the
    counter to the value it had before the first of the three was
    constructed, while copying an existing reference twice and releasing
    all three leaves it one below its value before the copies (reclaiming
    the entity exactly once when that value was 1).  The release that takes
    the counter below 1 reclaims the entity exactly once, and a further
    release of the reclaimed entity is not a defined call. *)
Theorem ObjectPtr_reference_counting (w : World) (a : addr) (o : ObjectData) :
  heap w !! a = Some o ->
  1 <= RefCount o <= Int.INT32_MAX ->
  (forall this, handles w !! this = None ->
     (exists w', ObjectPtr.ctor_raw this (Some a) w = Some (tt, w') /\
                 GetRefCount a w' = Some (Int.to_int32 (RefCount o + 1)) /\
                 ObjectPtr.Get this w' = Some (Some a)) /\
     (exists w', ObjectPtr.ctor_raw this None w = Some (tt, w') /\
                 heap w' = heap w /\
                 ObjectPtr.Get this w' = Some None)) /\
  (forall this other,
     handles w !! this = None -> handles w !! other = Some (Some a) ->
     exists w', ObjectPtr.ctor_copy this other w = Some (tt, w') /\
                GetRefCount a w' = Some (Int.to_int32 (RefCount o + 1)) /\
                ObjectPtr.Get this w' = Some (Some a) /\
                ObjectPtr.Get other w' = Some (Some a)) /\
  (forall this other prev,
     this <> other ->
     handles w !! this = Some prev -> handles w !! other = Some (Some a) ->
     prev <> Some a -> (forall b, prev = Some b -> is_Some (heap w !! b)) ->
     exists w', ObjectPtr.assign_copy this other w = Some (tt, w') /\
                GetRefCount a w' = Some (Int.to_int32 (RefCount o + 1)) /\
                ObjectPtr.Get this w' = Some (Some a) /\
                ObjectPtr.Get other w' = Some (Some a) /\
                (forall b ob, prev = Some b -> heap w !! b = Some ob ->
                   GetRefCount b w' =
                     if RefCount ob =? 1 then None
                     else Some (Int.to_int32 (RefCount ob - 1)))) /\
  (forall this other,
     this <> other ->
     handles w !! this = Some (Some a) -> handles w !! other = Some (Some a) ->
     RefCount o <> 1 ->
     exists w', ObjectPtr.assign_copy this other w = Some (tt, w') /\
                GetRefCount a w' = Some (RefCount o) /\
                ObjectPtr.Get this w' = Some (Some a)) /\
  (forall this other,
     this <> other ->
     handles w !! this = Some (Some a) -> handles w !! other = Some (Some a) ->
     RefCount o = 1 ->
     ObjectPtr.assign_copy this other w = None) /\
  (forall this other p,
     handles w !! this = None -> handles w !! other = Some p ->
     exists w', ObjectPtr.ctor_move this other w = Some (tt, w') /\
                heap w' = heap w /\
                ObjectPtr.Get this w' = Some p /\
                ObjectPtr.Get other w' = Some None) /\
  (forall this other prev,
     this <> other ->
     handles w !! this = Some prev -> handles w !! other = Some (Some a) ->
     prev <> Some a -> (forall b, prev = Some b -> is_Some (heap w !! b)) ->
     exists w', ObjectPtr.assign_move this other w = Some (tt, w') /\
                GetRefCount a w' = Some (RefCount o) /\
                ObjectPtr.Get this w' = Some (Some a) /\
                ObjectPtr.Get other w' = Some None /\
                (forall b ob, prev = Some b -> heap w !! b = Some ob ->
                   GetRefCount b w' =
                     if RefCount ob =? 1 then None
                     else Some (Int.to_int32 (RefCount ob - 1)))) /\
  (forall this other,
     this <> other ->
     handles w !! this = Some (Some a) -> handles w !! other = Some (Some a) ->
     exists w', ObjectPtr.assign_move this other w = Some (tt, w') /\
                GetRefCount a w' =
                  (if RefCount o =? 1 then None
                   else Some (Int.to_int32 (RefCount o - 1))) /\
                ObjectPtr.Get this w' = Some (Some a) /\
                ObjectPtr.Get other w' = Some None) /\
  (forall this other,
     this <> other ->
     handles w !! this = Some (Some a) -> handles w !! other = Some None ->
     (exists w', ObjectPtr.assign_copy this other w = Some (tt, w') /\
                 GetRefCount a w' =
                   (if RefCount o =? 1 then None
                    else Some (Int.to_int32 (RefCount o - 1))) /\
                 ObjectPtr.Get this w' = Some None /\
                 ObjectPtr.Get other w' = Some None) /\
     (exists w', ObjectPtr.assign_move this other w = Some (tt, w') /\
                 GetRefCount a w' =
                   (if RefCount o =? 1 then None
                    else Some (Int.to_int32 (RefCount o - 1))) /\
                 ObjectPtr.Get this w' = Some None /\
                 ObjectPtr.Get other w' = Some None)) /\
  (forall this,
     ObjectPtr.assign_copy this this w = Some (tt, w) /\
     ObjectPtr.assign_move this this w = Some (tt, w)) /\
  (forall this,
     handles w !! this = Some (Some a) ->
     exists w', ObjectPtr.dtor this w = Some (tt, w') /\
                GetRefCount a w' =
                  (if RefCount o =? 1 then None
                   else Some (Int.to_int32 (RefCount o - 1))) /\
                ObjectPtr.Get this w' = None) /\
  (forall p1 p2 p3,
     handles w !! p1 = None -> handles w !! p2 = None -> handles w !! p3 = None ->
     p1 <> p2 -> p1 <> p3 -> p2 <> p3 ->
     exists w', acquire_copy_twice_release_all a p1 p2 p3 w = Some (tt, w') /\
                GetRefCount a w' = Some (RefCount o) /\
                destroy_count a w' = destroy_count a w /\
                handles w' = handles w) /\
  (forall p1 p2 p3,
     handles w !! p1 = Some (Some a) ->
     handles w !! p2 = None -> handles w !! p3 = None -> p2 <> p3 ->
     exists w', copy_twice_release_all p1 p2 p3 w = Some (tt, w') /\
                GetRefCount a w' =
                  (if RefCount o =? 1 then None else Some (RefCount o - 1)) /\
                destroy_count a w'
                = (destroy_count a w + (if (RefCount o =? 1)%Z then 1 else 0))%nat) /\
  (exists w', Release a w = Some (tt, w') /\
              (heap w' !! a = None <-> RefCount o - 1 < 1) /\
              destroy_count a w'
              = (destroy_count a w + (if (RefCount o - 1 <? 1)%Z then 1 else 0))%nat /\
              (heap w' !! a = None -> Release a w' = None)).
Proof.
  intros Ho Hc.
  assert (Hr : Int.in_int32 (RefCount o)).
  { unfold Int.in_int32, Int.INT32_MIN, Int.INT32_MAX in *. lia. }
  split; [intros; eapply ctor_raw_counts; eauto|].
  split; [intros; eapply ctor_copy_counts; eauto|].
  split; [intros; eapply assign_copy_counts; eauto|].
  split; [intros; eapply assign_copy_same_entity; eauto|].
  split; [intros; eapply assign_copy_same_entity_last; eauto|].
  split; [intros; eapply ctor_move_counts; eauto|].
  split; [intros; eapply assign_move_counts; eauto|].
  split; [intros; eapply assign_move_same_entity; eauto|].
  split; [intros; eapply assign_null_counts; eauto|].
  split; [intros; apply assign_self_noop|].
  split; [intros; eapply dtor_counts; eauto|].
  split; [intros; eapply acquire_copy_twice_release_all_spec; eauto|].
  split; [intros; eapply copy_twice_release_all_spec; eauto|].
  eapply Release_below_one; eauto.
Qed.

Lemma ObjectPtr_reference_counting_witness :
  (exists w', acquire_copy_twice_release_all 1%nat 5%nat 6%nat 7%nat one_handle_world
              = Some (tt, w') /\
              GetRefCount 1%nat w' = Some 2) /\
  (exists w', copy_twice_release_all 0%nat 5%nat 6%nat one_handle_world = Some (tt, w') /\
              GetRefCount 1%nat w' = Some 1).
Proof.
  destruct (ObjectPtr_reference_counting one_handle_world 1%nat
              (mkObject "Player" (Some 10%nat) None ObjectFlags.NeedInitialization 2)
              eq_refl ltac:(vm_compute; split; discriminate))
    as (_ & _ & _ & _ & _ & _ & _ & _ & _ & _ & _ & HA & HB & _).
  split.
  - destruct (HA 5%nat 6%nat 7%nat eq_refl eq_refl eq_refl
                ltac:(discriminate) ltac:(discriminate) ltac:(discriminate))
      as (w' & R & Hc & _).
    exists w'. split; [exact R | exact Hc].
  - destruct (HB 0%nat 5%nat 6%nat eq_refl eq_refl eq_refl ltac:(discriminate))
      as (w' & R & Hc & _).
    exists w'. split; [exact R | exact Hc].
Defined.

(** C2 as stated fails: an owning reference to an entity whose counter is
    2 is copied twice and all three are released; the counter ends at 1,
    not at the 2 it had before the copies. *)
Lemma copy_twice_release_all_below_pre_copy_value :
  exists w',
    copy_twice_release_all 0%nat 5%nat 6%nat one_handle_world = Some (tt, w') /\
    GetRefCount 1%nat one_handle_world = Some 2 /\
    GetRefCount 1%nat w' = Some 1 /\
    GetRefCount 1%nat w' <> GetRefCount 1%nat one_handle_world.
Proof.
  eexists. split; [reflexivity|].
  split; [reflexivity|]. split; [reflexivity | discriminate].
Qed.

(** ** The memory archive *)

Lemma write_bytes_at_end bs ar :
  Position ar = length (Data ar) ->
  write_bytes bs ar
  = mkMemoryArchive (MBase ar) (Data ar ++ bs) (length (Data ar ++ bs)).
Proof.
  intros Hp. unfold write_bytes. rewrite Hp, resize_all, drop_ge, app_nil_r, length_app by lia.
  reflexivity.
Qed.

Lemma read_bytes_at pre bs rest ar :
  Data ar = pre ++ bs ++ rest -> Position ar = length pre ->
  read_bytes (length bs) ar
  = Some (bs, mkMemoryArchive (MBase ar) (Data ar) (length pre + length bs)).
Proof.
  intros Hd Hp. unfold read_bytes. rewrite Hp, Hd.
  rewrite !length_app.
  destruct (Nat.leb_spec (length pre + length bs) (length pre + (length bs + length rest)));
    [|lia].
  rewrite drop_app_length, take_app_length. reflexivity.
Qed.

(** A read that would pass the end of the buffer fails. *)
Lemma read_bytes_past_end n ar :
  (length (Data ar) < Position ar + n)%nat -> read_bytes n ar = None.
Proof.
  intros H. unfold read_bytes.
  destruct (Nat.leb_spec (Position ar + n) (length (Data ar))); [lia | reflexivity].
Qed.

Lemma decode_signed (bits z : Z) :
  0 < bits -> - 2 ^ (bits - 1) <= z < 2 ^ (bits - 1) ->
  (if 2 ^ (bits - 1) <=? z mod 2 ^ bits then z mod 2 ^ bits - 2 ^ bits else z mod 2 ^ bits) = z.
Proof.
  intros Hb Hz.
  assert (Hp : 2 ^ bits = 2 * 2 ^ (bits - 1)).
  { rewrite <- Z.pow_succ_r by lia. f_equal. lia. }
  assert (0 < 2 ^ (bits - 1)) by (apply Z.pow_pos_nonneg; lia).
  destruct (Z_lt_le_dec z 0).
  - replace (z mod 2 ^ bits) with (z + 2 ^ bits).
    + destruct (Z.leb_spec (2 ^ (bits - 1)) (z + 2 ^ bits)); lia.
    + apply (Z.mod_unique _ _ (-1)); lia.
  - rewrite Z.mod_small by lia.
    destruct (Z.leb_spec (2 ^ (bits - 1)) z); lia.
Qed.

Lemma decode_encode_num t z : num_ok t z = true -> decode_num t (encode_num t z) = z.
Proof.
  unfold num_ok, decode_num, encode_num. rewrite le_combine_split.
  fold (num_bits t).
  assert (Hb : 0 < num_bits t) by (destruct t; reflexivity).
  destruct (num_signed t); simpl.
  - intros H. apply andb_true_iff in H as [H1 H2].
    apply Z.leb_le in H1. apply Z.ltb_lt in H2.
    apply decode_signed; lia.
  - intros H. apply andb_true_iff in H as [H1 H2].
    apply Z.leb_le in H1. apply Z.ltb_lt in H2.
    apply Z.mod_small. lia.
Qed.

Lemma encode_num_length t z : length (encode_num t z) = num_bytes t.
Proof. apply length_le_split. Qed.

Lemma list_byte_of_string_length s : length (list_byte_of_string s) = String.length s.
Proof.
  unfold list_byte_of_string. rewrite length_map.
  induction s as [|c s IH]; simpl; [reflexivity | now rewrite IH].
Qed.

Lemma IsLoading_new loading : IsLoading (MBase (MemoryArchive_new loading)) = loading.
Proof. destruct loading; reflexivity. Qed.

Lemma IsSaving_new loading : IsSaving (MBase (MemoryArchive_new loading)) = negb loading.
Proof. destruct loading; reflexivity. Qed.

(** Saving a value at the end of the buffer appends its encoding. *)
Lemma shift_saving ar v :
  IsLoading (MBase ar) = false -> IsSaving (MBase ar) = true ->
  Position ar = length (Data ar) ->
  shift ar v
  = Some (mkMemoryArchive (MBase ar) (Data ar ++ encode v) (length (Data ar ++ encode v)), v).
Proof.
  intros HL HS Hp. unfold shift. rewrite HL, HS, write_bytes_at_end by exact Hp.
  reflexivity.
Qed.

(** Loading where an encoding starts overwrites the variable with the
    encoded value and moves the cursor past it. *)
Lemma shift_loading ar pre rest v x :
  IsLoading (MBase ar) = true ->
  prim_ok v = true -> type_of x = type_of v ->
  Data ar = pre ++ encode v ++ rest -> Position ar = length pre ->
  shift ar x
  = Some (mkMemoryArchive (MBase ar) (Data ar) (length pre + length (encode v)), v).
Proof.
  intros HL Hok Hty Hd Hp. unfold shift. rewrite HL, Hty.
  destruct v as [b | t z | s]; simpl type_of; unfold load.
  - change 1%nat with (length (encode (PBool b))).
    rewrite (read_bytes_at pre _ rest) by assumption.
    destruct b; reflexivity.
  - rewrite <- (encode_num_length t z).
    change (encode_num t z) with (encode (PNum t z)).
    rewrite (read_bytes_at pre _ rest) by assumption.
    simpl encode. rewrite decode_encode_num by exact Hok. reflexivity.
  - simpl in Hok. apply Z.leb_le in Hok.
    set (n := Int.to_uint64 (Z.of_nat (String.length s))) in *.
    assert (Hn : n = Z.of_nat (String.length s)).
    { unfold n. apply to_uint64_id. lia. }
    change (encode (PString s))
      with (encode_num TUInt64 n ++ list_byte_of_string s) in *.
    rewrite <- app_assoc in Hd.
    change 8%nat with (num_bytes TUInt64).
    rewrite <- (encode_num_length TUInt64 n).
    rewrite (read_bytes_at pre _ (list_byte_of_string s ++ rest)) by assumption.
    rewrite decode_encode_num.
    2:{ unfold num_ok. simpl. apply andb_true_iff. split.
        - apply Z.leb_le. lia.
        - apply Z.ltb_lt. unfold Int.UINT64_MAX in Hok.
          change (num_bits TUInt64) with 64. lia. }
    rewrite Hn, Nat2Z.id, <- list_byte_of_string_length.
    rewrite (read_bytes_at (pre ++ encode_num TUInt64 n) _ rest).
    + simpl. rewrite string_of_list_byte_of_string, length_app, encode_num_length.
      do 3 f_equal. simpl. lia.
    + simpl. rewrite Hd, <- app_assoc. reflexivity.
    + simpl. rewrite length_app. reflexivity.
Qed.

Lemma shift_all_saving values : forall ar,
  IsLoading (MBase ar) = false -> IsSaving (MBase ar) = true ->
  Position ar = length (Data ar) ->
  shift_all ar values
  = Some (mkMemoryArchive (MBase ar) (Data ar ++ encode_all values)
            (length (Data ar ++ encode_all values)), values).
Proof.
  induction values as [|v values IH]; intros ar HL HS Hp.
  - simpl. unfold encode_all. simpl. rewrite app_nil_r, <- Hp. destruct ar; reflexivity.
  - simpl. rewrite (shift_saving ar v HL HS Hp).
    rewrite IH by (simpl; auto). simpl.
    unfold encode_all. simpl. rewrite <- !app_assoc. reflexivity.
Qed.

Lemma shift_all_loading values : forall vars ar pre rest,
  IsLoading (MBase ar) = true ->
  Forall (fun v => prim_ok v = true) values ->
  type_of <$> vars = type_of <$> values ->
  Data ar = pre ++ encode_all values ++ rest -> Position ar = length pre ->
  shift_all ar vars
  = Some (mkMemoryArchive (MBase ar) (Data ar) (length pre + length (encode_all values)),
          values).
Proof.
  induction values as [|v values IH]; intros vars ar pre rest HL Hok Hty Hd Hp.
  - destruct vars; [|discriminate]. simpl. rewrite Nat.add_0_r, <- Hp.
    destruct ar; reflexivity.
  - destruct vars as [|x vars]; [discriminate|].
    injection Hty as Hx Hty. inversion Hok as [|? ? Hv Hvs]; subst.
    unfold encode_all in Hd. simpl in Hd. rewrite <- app_assoc in Hd.
    fold (encode_all values) in Hd.
    simpl. rewrite (shift_loading ar pre _ v x HL Hv Hx Hd Hp).
    rewrite (IH vars _ (pre ++ encode v) rest); simpl; auto.
    + unfold encode_all. simpl. rewrite !length_app, Nat.add_assoc. reflexivity.
    + rewrite Hd, <- app_assoc. reflexivity.
    + rewrite length_app. reflexivity.
Qed.

(** C5. Saving any sequence of primitive values (booleans, integers of
    every width and signedness within the range of their type, float and
    double bit patterns, strings, the empty string included) to a new
    memory archive succeeds, and loading from a new loading archive over
    the saved bytes into any variables of the same types, fresh ones
    included, succeeds, yields exactly the saved values in order, and
    consumes exactly the saved bytes. *)
Theorem MemoryArchive_roundtrip (values : list Prim) :
  Forall (fun v => prim_ok v = true) values ->
  exists saved,
    shift_all (MemoryArchive_new false) values = Some (saved, values) /\
    GetData saved = encode_all values /\
    (forall vars, type_of <$> vars = type_of <$> values ->
       exists loaded,
         shift_all (MemoryArchive_of_data (GetData saved) true) vars
         = Some (loaded, values) /\
         Tell loaded = TotalSize loaded) /\
    exists loaded,
      shift_all (MemoryArchive_of_data (GetData saved) true)
                (fresh_var <$> (type_of <$> values))
      = Some (loaded, values).
Proof.
  intros Hok.
  eexists. split; [apply shift_all_saving; reflexivity|].
  split; [reflexivity|].
  assert (Hload : forall vars, type_of <$> vars = type_of <$> values ->
     exists loaded,
       shift_all (MemoryArchive_of_data (encode_all values) true) vars
       = Some (loaded, values) /\
       Tell loaded = TotalSize loaded).
  { intros vars Hty. eexists. split.
    - apply (shift_all_loading values vars _ [] []); auto.
      simpl. rewrite app_nil_r. reflexivity.
    - unfold Tell, TotalSize. simpl. reflexivity. }
  split; [exact Hload|].
  destruct (Hload (fresh_var <$> (type_of <$> values))) as (loaded & Hl & _).
  { rewrite <- !list_fmap_compose. apply list_fmap_ext. intros _ v _. simpl.
    destruct v; reflexivity. }
  exists loaded. exact Hl.
Qed.

Lemma MemoryArchive_roundtrip_witness :
  let values := [PBool true; PNum TInt8 (-128); PNum TUInt16 65535; PNum TInt32 (-1);
                 PNum TUInt64 18446744073709551615; PNum TFloat 1065353216;
                 PNum TDouble 4607182418800017408; PString EmptyString;
                 PString "Titan"] in
  exists saved loaded,
    shift_all (MemoryArchive_new false) values = Some (saved, values) /\
    shift_all (MemoryArchive_of_data (GetData saved) true)
              (fresh_var <$> (type_of <$> values))
    = Some (loaded, values).
Proof.
  intros values.
  destruct (MemoryArchive_roundtrip values) as (saved & Hs & _ & _ & loaded & Hl).
  { repeat constructor. }
  exists saved, loaded. split; assumption.
Defined.

(** ** SerializeArray *)

Section SerializeArrayFacts.

Context {A T : Type}.
Variable base : A -> Archive.
Variable shift_uint32 : A -> Z -> option (A * Z).
Variable shift_elem : A -> T -> option (A * T).
Variable T_init : T.

Lemma serialize_elements_length : forall array ar ar' array',
  serialize_elements shift_elem ar array = Some (ar', array') ->
  length array' = length array.
Proof.
  induction array as [|x array IH]; intros ar ar' array' H; simpl in H.
  - injection H as <- <-. reflexivity.
  - destruct (shift_elem ar x) as [[ar1 x']|]; [|discriminate].
    destruct (serialize_elements shift_elem ar1 array) as [[ar2 rest']|] eqn:E;
      [|discriminate].
    injection H as <- <-. simpl. f_equal. eapply IH. exact E.
Qed.

(** The loop serializes the elements in order: those of a front part
    before those of the rest, each on the archive the previous one left. *)
Lemma serialize_elements_app : forall l1 l2 ar,
  serialize_elements shift_elem ar (l1 ++ l2) =
  match serialize_elements shift_elem ar l1 with
  | Some (ar1, l1') =>
      match serialize_elements shift_elem ar1 l2 with
      | Some (ar2, l2') => Some (ar2, l1' ++ l2')
      | None => None
      end
  | None => None
  end.
Proof.
  induction l1 as [|x l1 IH]; intros l2 ar; simpl.
  - destruct (serialize_elements shift_elem ar l2) as [[ar2 l2']|]; reflexivity.
  - destruct (shift_elem ar x) as [[ar1 x']|]; [|reflexivity].
    rewrite IH.
    destruct (serialize_elements shift_elem ar1 l1) as [[ar2 l1']|]; [|reflexivity].
    destruct (serialize_elements shift_elem ar2 l2) as [[ar3 l2']|]; reflexivity.
Qed.

Lemma SerializeArray_prefix_loading ar array ar1 n :
  shift_uint32 ar (Int.to_uint32 (Z.of_nat (length array))) = Some (ar1, n) ->
  IsLoading (base ar1) = true ->
  SerializeArray_prefix base shift_uint32 T_init ar array
  = Some (ar1, resize (Z.to_nat n) T_init array).
Proof. intros H HL. unfold SerializeArray_prefix. rewrite H, HL. reflexivity. Qed.

Lemma SerializeArray_prefix_saving ar array ar1 n :
  shift_uint32 ar (Int.to_uint32 (Z.of_nat (length array))) = Some (ar1, n) ->
  IsLoading (base ar1) = false ->
  SerializeArray_prefix base shift_uint32 T_init ar array = Some (ar1, array).
Proof. intros H HL. unfold SerializeArray_prefix. rewrite H, HL. reflexivity. Qed.

Lemma SerializeArray_steps ar array :
  match shift_uint32 ar (Int.to_uint32 (Z.of_nat (length array))) with
  | None => SerializeArray base shift_uint32 shift_elem T_init ar array = None
  | Some (ar1, n) =>
      SerializeArray base shift_uint32 shift_elem T_init ar array
      = serialize_elements shift_elem ar1
          (if IsLoading (base ar1) then resize (Z.to_nat n) T_init array else array) /\
      (IsLoading (base ar1) = true ->
       forall ar2 array',
         SerializeArray base shift_uint32 shift_elem T_init ar array = Some (ar2, array') ->
         length array' = Z.to_nat n) /\
      (IsLoading (base ar1) = false ->
       forall ar2 array',
         SerializeArray base shift_uint32 shift_elem T_init ar array = Some (ar2, array') ->
         length array' = length array) /\
      (array = [] -> IsLoading (base ar1) = false \/ n = 0 ->
       SerializeArray base shift_uint32 shift_elem T_init ar array = Some (ar1, []))
  end.
Proof.
  unfold SerializeArray, SerializeArray_prefix.
  destruct (shift_uint32 ar _) as [[ar1 n]|]; [|reflexivity].
  split; [destruct (IsLoading (base ar1)); reflexivity|].
  split; [|split].
  - intros HL ar2 array'. rewrite HL. intros H.
    apply serialize_elements_length in H. rewrite H. apply length_resize.
  - intros HL ar2 array'. rewrite HL. apply serialize_elements_length.
  - intros -> [HL | ->].
    + rewrite HL. reflexivity.
    + destruct (IsLoading (base ar1)); reflexivity.
Qed.

End SerializeArrayFacts.

Lemma shift_uint32_saving ar z :
  IsLoading (MBase ar) = false -> IsSaving (MBase ar) = true ->
  Position ar = length (Data ar) ->
  shift_uint32 ar z
  = Some (mkMemoryArchive (MBase ar) (Data ar ++ encode_num TUInt32 z)
            (length (Data ar ++ encode_num TUInt32 z)), z).
Proof.
  intros HL HS Hp. unfold shift_uint32. rewrite (shift_saving ar _ HL HS Hp). reflexivity.
Qed.

Lemma shift_uint32_loading ar pre rest n z :
  IsLoading (MBase ar) = true -> 0 <= n <= Int.UINT32_MAX ->
  Data ar = pre ++ encode_num TUInt32 n ++ rest -> Position ar = length pre ->
  shift_uint32 ar z
  = Some (mkMemoryArchive (MBase ar) (Data ar) (length pre + 4), n).
Proof.
  intros HL Hn Hd Hp. unfold shift_uint32.
  rewrite (shift_loading ar pre rest (PNum TUInt32 n) (PNum TUInt32 z)); auto.
  simpl. unfold num_ok. simpl. apply andb_true_iff.
  unfold Int.UINT32_MAX in Hn. change (num_bits TUInt32) with 32.
  split; [apply Z.leb_le | apply Z.ltb_lt]; lia.
Qed.

Lemma serialize_elements_shift_all ar vars :
  serialize_elements shift ar vars = shift_all ar vars.
Proof.
  revert ar. induction vars as [|v vars IH]; intros ar; simpl; [reflexivity|].
  destruct (shift ar v) as [[ar1 v']|]; [|reflexivity]. rewrite IH. reflexivity.
Qed.

Lemma types_of_Forall t (l : list Prim) :
  Forall (fun v => type_of v = t) l -> type_of <$> l = replicate (length l) t.
Proof.
  induction 1 as [|v l Hv Hl IH]; [reflexivity|]. rewrite fmap_cons, Hv, IH. reflexivity.
Qed.

Lemma type_of_fresh_var t : type_of (fresh_var t) = t.
Proof. destruct t; reflexivity. Qed.

Lemma MemoryArchive_SerializeArray_save t elems :
  MemoryArchive_SerializeArray t (MemoryArchive_new false) elems
  = Some (mkMemoryArchive (MBase (MemoryArchive_new false))
            (encode_num TUInt32 (Int.to_uint32 (Z.of_nat (length elems)))
               ++ encode_all elems)
            (length (encode_num TUInt32 (Int.to_uint32 (Z.of_nat (length elems)))
                       ++ encode_all elems)),
          elems).
Proof.
  unfold MemoryArchive_SerializeArray, SerializeArray, SerializeArray_prefix.
  rewrite shift_uint32_saving by reflexivity.
  change (IsLoading _) with false. cbv iota.
  rewrite serialize_elements_shift_all, shift_all_saving by reflexivity.
  reflexivity.
Qed.

Lemma MemoryArchive_SerializeArray_load t elems dest :
  Forall (fun v => prim_ok v = true) elems ->
  Forall (fun v => type_of v = t) elems ->
  Z.of_nat (length elems) <= Int.UINT32_MAX ->
  Forall (fun v => type_of v = t) dest ->
  MemoryArchive_SerializeArray t
    (MemoryArchive_of_data
       (encode_num TUInt32 (Z.of_nat (length elems)) ++ encode_all elems) true) dest
  = Some (mkMemoryArchive (Archive_new ArchiveFlags.Loading)
            (encode_num TUInt32 (Z.of_nat (length elems)) ++ encode_all elems)
            (4 + length (encode_all elems)),
          elems).
Proof.
  intros Hok Hty Hlen Hdest.
  unfold MemoryArchive_SerializeArray, SerializeArray, SerializeArray_prefix.
  rewrite (shift_uint32_loading _ [] (encode_all elems) (Z.of_nat (length elems)));
    [| reflexivity | lia | reflexivity | reflexivity].
  change (IsLoading _) with true. cbv iota.
  rewrite Nat2Z.id, serialize_elements_shift_all.
  rewrite (shift_all_loading elems _ _ (encode_num TUInt32 (Z.of_nat (length elems))) []);
    auto.
  - rewrite (types_of_Forall t elems Hty).
    rewrite (types_of_Forall t (resize (length elems) (fresh_var t) dest)).
    + rewrite length_resize. reflexivity.
    + apply Forall_resize; [apply type_of_fresh_var | exact Hdest].
  - simpl. rewrite app_nil_r. reflexivity.
Qed.

(** C6. [SerializeArray] first hands the 32-bit count of the vector to the
    archive, and does nothing else when that fails.  On a Loading archive
    the vector is then resized to the count the archive gave back and the
    elements are serialized one by one in order, so the result has exactly
    that many elements; on an archive that is not Loading the vector is
    left at its size and its elements are serialized in order.  An empty
    vector that is saved, or loaded with a zero prefix, involves no element
    operation: the archive is left as the prefix left it.  Through a memory
    archive: saving writes the count and then the elements' encodings in
    order, and loading those bytes into any vector of the element type
    yields the saved elements; an empty vector is saved as four zero bytes
    and loads back as an empty vector. *)
Theorem SerializeArray_spec :
  (forall (A T : Type) (base : A -> Archive) (shift_u32 : A -> Z -> option (A * Z))
          (shift_elem : A -> T -> option (A * T)) (T_init : T) (ar : A) (array : list T),
     match shift_u32 ar (Int.to_uint32 (Z.of_nat (length array))) with
     | None => SerializeArray base shift_u32 shift_elem T_init ar array = None
     | Some (ar1, n) =>
         SerializeArray base shift_u32 shift_elem T_init ar array
         = serialize_elements shift_elem ar1
             (if IsLoading (base ar1) then resize (Z.to_nat n) T_init array else array) /\
         (IsLoading (base ar1) = true ->
          forall ar2 array',
            SerializeArray base shift_u32 shift_elem T_init ar array = Some (ar2, array') ->
            length array' = Z.to_nat n) /\
         (IsLoading (base ar1) = false ->
          forall ar2 array',
            SerializeArray base shift_u32 shift_elem T_init ar array = Some (ar2, array') ->
            length array' = length array) /\
         (array = [] -> IsLoading (base ar1) = false \/ n = 0 ->
          SerializeArray base shift_u32 shift_elem T_init ar array = Some (ar1, []))
     end) /\
  (forall (A T : Type) (shift_elem : A -> T -> option (A * T)) (l1 l2 : list T) (ar : A),
     serialize_elements shift_elem ar (l1 ++ l2) =
     match serialize_elements shift_elem ar l1 with
     | Some (ar1, l1') =>
         match serialize_elements shift_elem ar1 l2 with
         | Some (ar2, l2') => Some (ar2, l1' ++ l2')
         | None => None
         end
     | None => None
     end) /\
  (forall t elems,
     exists saved,
       MemoryArchive_SerializeArray t (MemoryArchive_new false) elems = Some (saved, elems) /\
       GetData saved
       = encode_num TUInt32 (Int.to_uint32 (Z.of_nat (length elems))) ++ encode_all elems /\
       (Forall (fun v => prim_ok v = true) elems ->
        Forall (fun v => type_of v = t) elems ->
        Z.of_nat (length elems) <= Int.UINT32_MAX ->
        forall dest, Forall (fun v => type_of v = t) dest ->
        exists loaded,
          MemoryArchive_SerializeArray t (MemoryArchive_of_data (GetData saved) true) dest
          = Some (loaded, elems))) /\
  (forall t,
     exists saved,
       MemoryArchive_SerializeArray t (MemoryArchive_new false) [] = Some (saved, []) /\
       GetData saved = [x00; x00; x00; x00] /\
       forall dest, Forall (fun v => type_of v = t) dest ->
         MemoryArchive_SerializeArray t (MemoryArchive_of_data (GetData saved) true) dest
         = Some (Seek 4 (MemoryArchive_of_data (GetData saved) true), [])).
Proof.
  split; [intros; apply SerializeArray_steps|].
  split; [intros; apply serialize_elements_app|].
  split.
  - intros t elems. eexists.
    split; [apply MemoryArchive_SerializeArray_save|].
    split; [reflexivity|].
    intros Hok Hty Hlen dest Hdest. eexists. unfold GetData. simpl Data.
    rewrite to_uint32_id by lia.
    apply MemoryArchive_SerializeArray_load; assumption.
  - intros t. eexists.
    split; [apply MemoryArchive_SerializeArray_save|].
    split; [reflexivity|].
    intros dest Hdest.
    assert (Hlen : Z.of_nat (length (@nil Prim)) <= Int.UINT32_MAX) by (simpl; discriminate).
    exact (MemoryArchive_SerializeArray_load t [] dest
             (List.Forall_nil _) (List.Forall_nil _) Hlen Hdest).
Qed.

Lemma SerializeArray_spec_witness :
  let elems := [PNum TInt32 1; PNum TInt32 (-2); PNum TInt32 3] in
  exists saved loaded,
    MemoryArchive_SerializeArray (TNum TInt32) (MemoryArchive_new false) elems
    = Some (saved, elems) /\
    MemoryArchive_SerializeArray (TNum TInt32)
      (MemoryArchive_of_data (GetData saved) true) []
    = Some (loaded, elems).
Proof.
  intros elems.
  destruct SerializeArray_spec as (_ & _ & H & _).
  destruct (H (TNum TInt32) elems) as (saved & Hs & _ & Hl).
  destruct (Hl ltac:(repeat constructor) ltac:(repeat constructor)
               ltac:(vm_compute; discriminate) [] ltac:(constructor))
    as (loaded & Hload).
  exists saved, loaded. split; assumption.
Defined.

Lemma MemoryArchive_prefix_resize t n rest dest :
  0 <= n <= Int.UINT32_MAX ->
  exists ar1 resized,
    MemoryArchive_SerializeArray_prefix t
      (MemoryArchive_of_data (encode_num TUInt32 n ++ rest) true) dest
    = Some (ar1, resized) /\
    Z.of_nat (length resized) = n.
Proof.
  intros Hn. eexists _, _. split.
  - unfold MemoryArchive_SerializeArray_prefix.
    apply SerializeArray_prefix_loading.
    + apply (shift_uint32_loading _ [] rest n); auto.
    + reflexivity.
  - rewrite length_resize. apply Z2Nat.id. lia.
Qed.

(** C7 (amended). When an archive is Loading an array, whatever count the
    backend hands back for the prefix is the size the destination is
    resized to: [SerializeArray] compares it with no bound and has no
    failure of its own, it fails only where the backend does.  Through a
    memory archive every 32-bit prefix, up to 4294967295, sizes the
    destination. *)
Theorem SerializeArray_resize_unbounded :
  (forall (A T : Type) (base : A -> Archive) (shift_u32 : A -> Z -> option (A * Z))
          (T_init : T) (ar ar1 : A) (array : list T) (n : Z),
     shift_u32 ar (Int.to_uint32 (Z.of_nat (length array))) = Some (ar1, n) ->
     IsLoading (base ar1) = true ->
     exists resized,
       SerializeArray_prefix base shift_u32 T_init ar array = Some (ar1, resized) /\
       length resized = Z.to_nat n) /\
  (forall (A T : Type) (base : A -> Archive) (shift_u32 : A -> Z -> option (A * Z))
          (T_init : T) (ar : A) (array : list T),
     SerializeArray_prefix base shift_u32 T_init ar array = None <->
     shift_u32 ar (Int.to_uint32 (Z.of_nat (length array))) = None) /\
  (forall t n rest dest,
     0 <= n <= Int.UINT32_MAX ->
     exists ar1 resized,
       MemoryArchive_SerializeArray_prefix t
         (MemoryArchive_of_data (encode_num TUInt32 n ++ rest) true) dest
       = Some (ar1, resized) /\
       Z.of_nat (length resized) = n).
Proof.
  split; [|split].
  - intros A T base shift_u32 T_init ar ar1 array n H HL. eexists.
    split; [apply SerializeArray_prefix_loading; eassumption|].
    apply length_resize.
  - intros A T base shift_u32 T_init ar array. unfold SerializeArray_prefix.
    destruct (shift_u32 ar _) as [[ar1 n]|].
    + destruct (IsLoading (base ar1)); split; discriminate.
    + split; reflexivity.
  - apply MemoryArchive_prefix_resize.
Qed.

Lemma SerializeArray_resize_unbounded_witness :
  exists ar1 resized,
    MemoryArchive_SerializeArray_prefix (TNum TUInt8)
      (MemoryArchive_of_data (encode_num TUInt32 1000 ++ []) true) []
    = Some (ar1, resized) /\
    Z.of_nat (length resized) = 1000.
Proof.
  destruct SerializeArray_resize_unbounded as (_ & _ & H).
  apply (H (TNum TUInt8) 1000 [] []). split; discriminate.
Defined.

(** C7 as stated fails: a Loading memory archive whose first four bytes
    are FF FF FF FF resizes an empty destination to 4294967295 elements;
    the prefix is not bounded and no failure is raised before the resize. *)
Lemma SerializeArray_resizes_to_corrupt_prefix :
  exists ar1 resized,
    MemoryArchive_SerializeArray_prefix (TNum TUInt8)
      (MemoryArchive_of_data [xff; xff; xff; xff] true) []
    = Some (ar1, resized) /\
    Z.of_nat (length resized) = 4294967295.
Proof.
  apply (MemoryArchive_prefix_resize (TNum TUInt8) 4294967295 [] []).
  split; discriminate.
Qed.

(** * Further properties of the code *)

(** ** Object flags *)

Lemma ObjectFlags_not_testbit f i :
  0 <= i ->
  Z.testbit (ObjectFlags.not f) i = (i <? 32) && negb (Z.testbit f i).
Proof.
  intros Hi. unfold ObjectFlags.not, Int.to_uint32.
  change 4294967296 with (2 ^ 32).
  destruct (Z.ltb_spec i 32).
  - rewrite Z.mod_pow2_bits_low, Z.lnot_spec by lia. reflexivity.
  - rewrite Z.mod_pow2_bits_high by lia. reflexivity.
Qed.

Lemma uint32_testbit_high g i : 0 <= g <= Int.UINT32_MAX -> 32 <= i -> Z.testbit g i = false.
Proof.
  intros Hg Hi. unfold Int.UINT32_MAX in Hg.
  destruct (Z.eq_dec g 0) as [->|]; [apply Z.bits_0|].
  apply Z.bits_above_log2; [lia|].
  assert (Z.log2 g < 32); [|lia].
  apply Z.log2_lt_pow2; lia.
Qed.

Lemma HasFlags_set_Flags g x o :
  HasFlags g (set_Flags x o) = negb (Z.land x g =? 0).
Proof. reflexivity. Qed.

Lemma land_lor_same x f : Z.land (Z.lor x f) f = f.
Proof.
  apply Z.bits_inj'. intros i _. rewrite Z.land_spec, Z.lor_spec.
  destruct (Z.testbit x i), (Z.testbit f i); reflexivity.
Qed.

Lemma land_lor_disjoint x f g : Z.land g f = 0 -> Z.land (Z.lor x f) g = Z.land x g.
Proof.
  intros Hd. apply Z.bits_inj'. intros i _.
  assert (Hb : Z.testbit (Z.land g f) i = false) by (rewrite Hd; apply Z.bits_0).
  rewrite Z.land_spec in Hb. rewrite !Z.land_spec, Z.lor_spec.
  destruct (Z.testbit x i), (Z.testbit f i), (Z.testbit g i); simpl in *; congruence.
Qed.

Lemma land_not_same x f : Z.land (Z.land x (ObjectFlags.not f)) f = 0.
Proof.
  apply Z.bits_inj'. intros i Hi.
  rewrite !Z.land_spec, ObjectFlags_not_testbit, Z.bits_0 by exact Hi.
  destruct (Z.testbit x i), (i <? 32), (Z.testbit f i); reflexivity.
Qed.

Lemma land_not_disjoint x f g :
  0 <= g <= Int.UINT32_MAX -> Z.land g f = 0 ->
  Z.land (Z.land x (ObjectFlags.not f)) g = Z.land x g.
Proof.
  intros Hg Hd. apply Z.bits_inj'. intros i Hi.
  assert (Hb : Z.testbit (Z.land g f) i = false) by (rewrite Hd; apply Z.bits_0).
  rewrite Z.land_spec in Hb.
  rewrite !Z.land_spec, ObjectFlags_not_testbit by exact Hi.
  destruct (Z.ltb_spec i 32).
  - destruct (Z.testbit x i), (Z.testbit f i), (Z.testbit g i); simpl in *; congruence.
  - rewrite (uint32_testbit_high g i Hg) by lia.
    rewrite !andb_false_r. reflexivity.
Qed.

Lemma RemoveFlags_run a flags w o :
  heap w !! a = Some o ->
  RemoveFlags a flags w = Some (tt, set_heap <[a := removed_flags flags o]> w).
Proof. intros Ho. unfold RemoveFlags, bind, deref, modify. rewrite Ho. reflexivity. Qed.

(** X1. [AddFlags] makes [HasFlags] of the added mask true (unless the
    mask is empty), [RemoveFlags] makes it false; both leave the answer
    for every mask that shares no bit with theirs as it was, and neither
    touches name, class, outer or counter. *)
Theorem AddFlags_RemoveFlags_HasFlags (a : addr) (w : World) (o : ObjectData) (f : Z) :
  heap w !! a = Some o ->
  (exists w' o',
     AddFlags a f w = Some (tt, w') /\ heap w' !! a = Some o' /\
     HasFlags f o' = negb (f =? 0) /\
     (forall g, Z.land g f = 0 -> HasFlags g o' = HasFlags g o) /\
     (forall g, HasFlags g o = true -> HasFlags g o' = true) /\
     set_Flags (ObjectFlagsPrivate o) o' = o) /\
  (exists w' o',
     RemoveFlags a f w = Some (tt, w') /\ heap w' !! a = Some o' /\
     HasFlags f o' = false /\
     (forall g, 0 <= g <= Int.UINT32_MAX -> Z.land g f = 0 ->
                HasFlags g o' = HasFlags g o) /\
     set_Flags (ObjectFlagsPrivate o) o' = o).
Proof.
  intros Ho. split.
  - exists (set_heap <[a := added_flags f o]> w), (added_flags f o).
    split; [apply AddFlags_run; exact Ho|].
    split; [apply lookup_insert_eq|].
    unfold added_flags, ObjectFlags.or. rewrite !HasFlags_set_Flags.
    split; [rewrite land_lor_same; reflexivity|].
    split; [intros g Hg; unfold HasFlags, ObjectFlags.and, ObjectFlags.None_;
            cbn [ObjectFlagsPrivate set_Flags];
            rewrite land_lor_disjoint by exact Hg; reflexivity|].
    split; [|destruct o; reflexivity].
    intros g. unfold HasFlags, ObjectFlags.and, ObjectFlags.None_.
    cbn [ObjectFlagsPrivate set_Flags].
    rewrite !negb_true_iff, !Z.eqb_neq. intros Hne H0. apply Hne.
    apply Z.bits_inj'. intros i _.
    assert (Hb : Z.testbit (Z.land (Z.lor (ObjectFlagsPrivate o) f) g) i = false)
      by (rewrite H0; apply Z.bits_0).
    rewrite Z.land_spec, Z.lor_spec in Hb. rewrite Z.land_spec, Z.bits_0.
    destruct (Z.testbit (ObjectFlagsPrivate o) i), (Z.testbit g i); simpl in *; congruence.
  - exists (set_heap <[a := removed_flags f o]> w), (removed_flags f o).
    split; [apply RemoveFlags_run; exact Ho|].
    split; [apply lookup_insert_eq|].
    unfold removed_flags, ObjectFlags.and. rewrite !HasFlags_set_Flags.
    split; [rewrite land_not_same; reflexivity|].
    split; [|destruct o; reflexivity].
    intros g Hg Hd. unfold HasFlags, ObjectFlags.and, ObjectFlags.None_.
    cbn [ObjectFlagsPrivate set_Flags].
    rewrite land_not_disjoint by assumption. reflexivity.
Qed.

Lemma AddFlags_RemoveFlags_HasFlags_witness :
  exists w' o',
    AddFlags 1%nat ObjectFlags.Transient one_entity_world = Some (tt, w') /\
    heap w' !! 1%nat = Some o' /\
    HasFlags ObjectFlags.Transient o' = true.
Proof.
  destruct (AddFlags_RemoveFlags_HasFlags 1%nat one_entity_world
              (mkObject "Player" (Some 10%nat) None ObjectFlags.NeedInitialization 2)
              ObjectFlags.Transient eq_refl)
    as ((w' & o' & Hrun & Ho' & Hhas & _) & _).
  exists w', o'. repeat split; assumption.
Defined.

(** X2. [HasFlags] asks whether any bit of the mask is set, not whether
    all are: for a mask built with [|] it is the disjunction of the
    answers for the parts, and for the empty mask it is false. *)
Theorem HasFlags_any_of (o : ObjectData) (g1 g2 : Z) :
  HasFlags (ObjectFlags.or g1 g2) o = HasFlags g1 o || HasFlags g2 o /\
  HasFlags ObjectFlags.None_ o = false.
Proof.
  split.
  - unfold HasFlags, ObjectFlags.and, ObjectFlags.or, ObjectFlags.None_.
    rewrite Z.land_lor_distr_r, <- negb_andb. f_equal.
    destruct (Z.eqb_spec (Z.land (ObjectFlagsPrivate o) g1) 0) as [E1|E1];
      destruct (Z.eqb_spec (Z.land (ObjectFlagsPrivate o) g2) 0) as [E2|E2]; simpl.
    + rewrite E1, E2. reflexivity.
    + apply Z.eqb_neq. intros H. apply Z.lor_eq_0_iff in H. tauto.
    + apply Z.eqb_neq. intros H. apply Z.lor_eq_0_iff in H. tauto.
    + apply Z.eqb_neq. intros H. apply Z.lor_eq_0_iff in H. tauto.
  - unfold HasFlags, ObjectFlags.and, ObjectFlags.None_. rewrite Z.land_0_r. reflexivity.
Qed.

(** ** The registry, beyond registration of duplicates *)

Lemma unregistered_heap a n o w : heap (unregistered a n o w) = heap w.
Proof. unfold unregistered. destruct (ClassPrivate o); reflexivity. Qed.

Lemma unregistered_handles a n o w : handles (unregistered a n o w) = handles w.
Proof. unfold unregistered. destruct (ClassPrivate o); reflexivity. Qed.

Lemma unregistered_Objects a n o w : Objects (unregistered a n o w) = delete n (Objects w).
Proof. unfold unregistered. destruct (ClassPrivate o); reflexivity. Qed.

Lemma GetObjectsOfClass_class_objects c w :
  GetObjectsOfClass c w = class_objects c (ObjectsByClass w).
Proof. unfold GetObjectsOfClass, class_objects. destruct (_ !! c); reflexivity. Qed.

Lemma registered_class a n o w c :
  GetObjectsOfClass c (registered a n o w) =
  if decide (ClassPrivate o = Some c) then GetObjectsOfClass c w ++ [a]
  else GetObjectsOfClass c w.
Proof.
  rewrite !GetObjectsOfClass_class_objects. unfold registered.
  destruct (ClassPrivate o) as [c'|]; simpl.
  - destruct (decide (Some c' = Some c)) as [[= ->]|Hne].
    + unfold class_objects at 1. rewrite lookup_insert_eq. reflexivity.
    + unfold class_objects at 1. rewrite lookup_insert_ne by congruence. reflexivity.
  - first [reflexivity | rewrite decide_False by discriminate; reflexivity].
Qed.

Lemma unregistered_class a n o w c :
  GetObjectsOfClass c (unregistered a n o w) =
  if decide (ClassPrivate o = Some c)
  then filter (fun x => x <> a) (GetObjectsOfClass c w)
  else GetObjectsOfClass c w.
Proof.
  rewrite !GetObjectsOfClass_class_objects. unfold unregistered.
  destruct (ClassPrivate o) as [c'|]; simpl.
  - destruct (decide (Some c' = Some c)) as [[= ->]|Hne].
    + unfold class_objects at 1. rewrite lookup_insert_eq. reflexivity.
    + unfold class_objects at 1. rewrite lookup_insert_ne by congruence. reflexivity.
  - first [reflexivity | rewrite decide_False by discriminate; reflexivity].
Qed.

Lemma filter_ne_notin (a : addr) (l : list addr) :
  a ∉ l -> filter (fun x => x <> a) l = l.
Proof.
  induction l as [|x l IH]; intros Hn; [reflexivity|].
  rewrite filter_cons. apply not_elem_of_cons in Hn as [Hne Hn].
  rewrite decide_True by congruence. f_equal. apply IH, Hn.
Qed.

(** X3. Registering an entity makes [FindObject] of its full name return
    it and appends it to the end of the collection of its class; other
    names and other classes are as before, no entity is touched, and the
    number of names grows by one exactly when the name was new. *)
Theorem RegisterObject_effect (w : World) (a : addr) (o : ObjectData) (n : string) :
  heap w !! a = Some o ->
  GetFullName a w = Some n ->
  exists w',
    RegisterObject (Some a) w = Some (tt, w') /\
    FindObject n w' = Some a /\
    (forall n', n' <> n -> FindObject n' w' = FindObject n' w) /\
    (forall c, GetObjectsOfClass c w' =
               if decide (ClassPrivate o = Some c) then GetObjectsOfClass c w ++ [a]
               else GetObjectsOfClass c w) /\
    heap w' = heap w /\
    GetObjectCount w' = match FindObject n w with
                        | Some _ => GetObjectCount w
                        | None => S (GetObjectCount w)
                        end.
Proof.
  intros Ho Hn. exists (registered a n o w).
  split; [apply RegisterObject_run; assumption|].
  unfold FindObject, GetObjectCount. rewrite registered_Objects.
  split; [apply lookup_insert_eq|].
  split; [intros n' Hne; apply lookup_insert_ne; congruence|].
  split; [intros c; apply registered_class|].
  split; [apply registered_heap|].
  rewrite map_size_insert. destruct (Objects w !! n); reflexivity.
Qed.

Lemma RegisterObject_effect_witness :
  let w := set_heap (fun _ => {[ 1%nat := mkObject "Boss" (Some 10%nat) None 0 1 ]})
                    empty_world in
  exists w',
    RegisterObject (Some 1%nat) w = Some (tt, w') /\
    FindObject "Boss" w' = Some 1%nat /\
    GetObjectsOfClass 10%nat w' = [1%nat] /\
    GetObjectCount w' = 1%nat.
Proof.
  intros w.
  destruct (RegisterObject_effect w 1%nat (mkObject "Boss" (Some 10%nat) None 0 1)
              "Boss" eq_refl eq_refl)
    as (w' & Hrun & Hfind & _ & Hcls & _ & Hcount).
  exists w'. repeat split; try assumption.
  rewrite (Hcls 10%nat). reflexivity.
Defined.

(** X4. Unregistering an entity erases its current full name from the
    name map and every occurrence of the entity from the collection of its
    class, keeping the other members in their order; other names and other
    classes are as before and no entity is touched. *)
Theorem UnregisterObject_effect (w : World) (a : addr) (o : ObjectData) (n : string) :
  heap w !! a = Some o ->
  GetFullName a w = Some n ->
  exists w',
    UnregisterObject (Some a) w = Some (tt, w') /\
    FindObject n w' = None /\
    (forall n', n' <> n -> FindObject n' w' = FindObject n' w) /\
    (forall c, GetObjectsOfClass c w' =
               if decide (ClassPrivate o = Some c)
               then filter (fun x => x <> a) (GetObjectsOfClass c w)
               else GetObjectsOfClass c w) /\
    (forall c, a ∉ GetObjectsOfClass c w' \/ ClassPrivate o <> Some c) /\
    heap w' = heap w /\
    GetObjectCount w' = match FindObject n w with
                        | Some _ => pred (GetObjectCount w)
                        | None => GetObjectCount w
                        end.
Proof.
  intros Ho Hn. exists (unregistered a n o w).
  split; [apply UnregisterObject_run; assumption|].
  unfold FindObject, GetObjectCount. rewrite unregistered_Objects.
  split; [apply lookup_delete_eq|].
  split; [intros n' Hne; apply lookup_delete_ne; congruence|].
  split; [intros c; apply unregistered_class|].
  split.
  { intros c. rewrite unregistered_class.
    destruct (decide (ClassPrivate o = Some c)); [left | right; assumption].
    intros Hin. apply list_elem_of_filter in Hin as [Hne _]. congruence. }
  split; [apply unregistered_heap|].
  rewrite map_size_delete. destruct (Objects w !! n); reflexivity.
Qed.

Lemma UnregisterObject_effect_witness :
  exists w',
    UnregisterObject (Some 1%nat) one_entity_world = Some (tt, w') /\
    FindObject "Player" w' = None /\
    GetObjectsOfClass 10%nat w' = [] /\
    GetObjectCount w' = 0%nat.
Proof.
  destruct (UnregisterObject_effect one_entity_world 1%nat
              (mkObject "Player" (Some 10%nat) None ObjectFlags.NeedInitialization 2)
              "Player" eq_refl eq_refl)
    as (w' & Hrun & Hfind & _ & Hcls & _ & _ & Hcount).
  exists w'. repeat split; try assumption.
  rewrite (Hcls 10%nat). reflexivity.
Defined.

(** X5. Registering an entity under a name that was free, into a class
    collection that did not hold it, and unregistering it again gives back
    the registry as it was for every lookup: every name, every class
    collection, and the number of names. *)
Theorem RegisterObject_UnregisterObject_roundtrip
    (w : World) (a : addr) (o : ObjectData) (n : string) :
  heap w !! a = Some o ->
  GetFullName a w = Some n ->
  FindObject n w = None ->
  (forall c, ClassPrivate o = Some c -> a ∉ GetObjectsOfClass c w) ->
  exists w1 w2,
    RegisterObject (Some a) w = Some (tt, w1) /\
    UnregisterObject (Some a) w1 = Some (tt, w2) /\
    (forall n', FindObject n' w2 = FindObject n' w) /\
    (forall c, GetObjectsOfClass c w2 = GetObjectsOfClass c w) /\
    GetObjectCount w2 = GetObjectCount w /\
    heap w2 = heap w.
Proof.
  intros Ho Hn Hfree Hnew.
  exists (registered a n o w), (unregistered a n o (registered a n o w)).
  split; [apply RegisterObject_run; assumption|].
  split.
  { apply UnregisterObject_run.
    - rewrite (GetFullName_same_heap a _ w); [exact Hn | apply registered_heap].
    - rewrite registered_heap. exact Ho. }
  assert (HO : Objects (unregistered a n o (registered a n o w)) = Objects w).
  { rewrite unregistered_Objects, registered_Objects. apply delete_insert_id. exact Hfree. }
  split; [intros n'; unfold FindObject; rewrite HO; reflexivity|].
  split.
  { intros c. rewrite unregistered_class, registered_class.
    destruct (decide (ClassPrivate o = Some c)) as [Hc|]; [|reflexivity].
    rewrite filter_app, filter_cons, filter_nil, decide_False, app_nil_r by tauto.
    apply filter_ne_notin, Hnew, Hc. }
  split; [unfold GetObjectCount; rewrite HO; reflexivity|].
  rewrite unregistered_heap. apply registered_heap.
Qed.

Lemma RegisterObject_UnregisterObject_roundtrip_witness :
  let w := set_heap (fun _ => {[ 1%nat := mkObject "Boss" (Some 10%nat) None 0 1 ]})
                    empty_world in
  exists w1 w2,
    RegisterObject (Some 1%nat) w = Some (tt, w1) /\
    UnregisterObject (Some 1%nat) w1 = Some (tt, w2) /\
    FindObject "Boss" w1 = Some 1%nat /\
    FindObject "Boss" w2 = None /\
    GetObjectsOfClass 10%nat w2 = [] /\
    GetObjectCount w2 = 0%nat.
Proof.
  intros w.
  destruct (RegisterObject_UnregisterObject_roundtrip w 1%nat
              (mkObject "Boss" (Some 10%nat) None 0 1) "Boss" eq_refl eq_refl eq_refl)
    as (w1 & w2 & H1 & H2 & Hf & Hc & Hn & _).
  { intros c _. apply not_elem_of_nil. }
  exists w1, w2. split; [exact H1|]. split; [exact H2|].
  split.
  { unfold RegisterObject in H1. injection H1 as <-. reflexivity. }
  split; [rewrite Hf; reflexivity|].
  split; [rewrite Hc; reflexivity | rewrite Hn; reflexivity].
Defined.

(** X6. The name map is erased by name, not by entity: when two different
    entities were registered under one full name, unregistering the first
    removes the name although it mapped to the second, which can then no
    longer be found by name while it is still live and still listed in the
    collection of its class. *)
Theorem UnregisterObject_shared_name
    (w : World) (a b : addr) (oa ob : ObjectData) (n : string) :
  a <> b ->
  heap w !! a = Some oa -> heap w !! b = Some ob ->
  GetFullName a w = Some n -> GetFullName b w = Some n ->
  exists w1 w2 w3,
    RegisterObject (Some a) w = Some (tt, w1) /\
    RegisterObject (Some b) w1 = Some (tt, w2) /\
    UnregisterObject (Some a) w2 = Some (tt, w3) /\
    FindObject n w2 = Some b /\
    FindObject n w3 = None /\
    heap w3 !! b = Some ob /\
    (forall c, ClassPrivate ob = Some c -> b ∈ GetObjectsOfClass c w3).
Proof.
  intros Hab Hoa Hob Hna Hnb.
  set (w1 := registered a n oa w).
  set (w2 := registered b n ob w1).
  set (w3 := unregistered a n oa w2).
  assert (Hh1 : heap w1 = heap w) by apply registered_heap.
  assert (Hh2 : heap w2 = heap w) by (unfold w2; rewrite registered_heap; exact Hh1).
  exists w1, w2, w3.
  split; [apply RegisterObject_run; assumption|].
  split.
  { apply RegisterObject_run.
    - rewrite (GetFullName_same_heap b w1 w Hh1). exact Hnb.
    - rewrite Hh1. exact Hob. }
  split.
  { apply UnregisterObject_run.
    - rewrite (GetFullName_same_heap a w2 w Hh2). exact Hna.
    - rewrite Hh2. exact Hoa. }
  split; [unfold FindObject, w2; rewrite registered_Objects; apply lookup_insert_eq|].
  split; [unfold FindObject, w3; rewrite unregistered_Objects; apply lookup_delete_eq|].
  split; [unfold w3; rewrite unregistered_heap, Hh2; exact Hob|].
  intros c Hc. unfold w3. rewrite unregistered_class.
  assert (Hin : b ∈ GetObjectsOfClass c w2) by (apply registered_class_self, Hc).
  destruct (decide (ClassPrivate oa = Some c)); [|exact Hin].
  apply list_elem_of_filter. split; [congruence | exact Hin].
Qed.

Lemma UnregisterObject_shared_name_witness :
  let w := set_heap (fun _ => {[ 1%nat := mkObject "Dup" (Some 10%nat) None 0 1;
                                 2%nat := mkObject "Dup" (Some 20%nat) None 0 1 ]})
                    empty_world in
  exists w1 w2 w3,
    RegisterObject (Some 1%nat) w = Some (tt, w1) /\
    RegisterObject (Some 2%nat) w1 = Some (tt, w2) /\
    UnregisterObject (Some 1%nat) w2 = Some (tt, w3) /\
    FindObject "Dup" w3 = None /\
    2%nat ∈ GetObjectsOfClass 20%nat w3.
Proof.
  intros w.
  destruct (UnregisterObject_shared_name w 1%nat 2%nat
              (mkObject "Dup" (Some 10%nat) None 0 1)
              (mkObject "Dup" (Some 20%nat) None 0 1) "Dup"
              ltac:(discriminate) eq_refl eq_refl eq_refl eq_refl)
    as (w1 & w2 & w3 & H1 & H2 & H3 & _ & Hf & _ & Hc).
  exists w1, w2, w3. repeat split; try assumption.
  apply Hc. reflexivity.
Defined.

Lemma DestroyObject_run (w : World) (a : addr) (o : ObjectData) (n : string) :
  heap w !! a = Some o -> GetFullName a w = Some n ->
  DestroyObject (Some a) w = Some (tt, destroy_steps a n o w).
Proof.
  intros Ho Hn. unfold destroy_steps.
  set (o1 := added_flags ObjectFlags.BeginDestroyed o).
  set (w1 := set_heap <[a := o1]> (log (EvBeginDestroy a) w)).
  assert (H1 : BeginDestroy a w = Some (tt, w1)).
  { unfold BeginDestroy, bind, modify. now rewrite (AddFlags_run a _ _ o). }
  assert (Ho1 : heap w1 !! a = Some o1) by apply lookup_insert_eq.
  assert (Hn1 : GetFullName a w1 = Some n).
  { rewrite <- Hn. eapply (GetFullName_insert_same w w1 a o o1); eauto. }
  set (w2 := unregistered a n o1 w1).
  assert (H2 : UnregisterObject (Some a) w1 = Some (tt, w2))
    by (apply UnregisterObject_run; assumption).
  assert (Ho2 : heap w2 !! a = Some o1).
  { unfold w2. rewrite unregistered_heap. exact Ho1. }
  set (o3 := added_flags ObjectFlags.FinishDestroyed o1).
  set (w3 := set_heap <[a := o3]> (log (EvFinishDestroy a) w2)).
  assert (H3 : FinishDestroy a w2 = Some (tt, w3)).
  { unfold FinishDestroy, bind, modify. now rewrite (AddFlags_run a _ _ o1). }
  assert (Ho3 : heap w3 !! a = Some o3) by apply lookup_insert_eq.
  unfold DestroyObject, bind. rewrite H1, H2, H3.
  apply (Release_live a w3 o3 Ho3).
Qed.

Lemma destroy_steps_Objects a n o w :
  Objects (destroy_steps a n o w) = delete n (Objects w).
Proof.
  unfold destroy_steps, release_world, released.
  destruct (RefCount _ =? 1); simpl; rewrite unregistered_Objects; reflexivity.
Qed.

Lemma destroy_steps_handles a n o w : handles (destroy_steps a n o w) = handles w.
Proof.
  unfold destroy_steps, release_world, released.
  destruct (RefCount _ =? 1); simpl; rewrite unregistered_handles; reflexivity.
Qed.

Lemma destroy_steps_heap a n o w :
  heap (destroy_steps a n o w) !! a =
  if RefCount o =? 1 then None
  else Some (set_RefCount (Int.to_int32 (RefCount o - 1))
               (added_flags ObjectFlags.FinishDestroyed
                  (added_flags ObjectFlags.BeginDestroyed o))).
Proof. unfold destroy_steps. rewrite release_world_self. reflexivity. Qed.

Lemma SetName_run a name w o :
  heap w !! a = Some o ->
  SetName a name w = Some (tt, set_heap <[a := set_Name name o]> w).
Proof. intros Ho. unfold SetName, bind, deref, modify. rewrite Ho. reflexivity. Qed.

(** X7. The registry does not follow a rename.  An entity registered
    under its full name and then renamed, so that its full name changes,
    is unregistered by [DestroyObject] under the new name: the old name
    stays in the name map.  When the destroyed entity held its last
    reference, the old name then maps to a reclaimed entity. *)
Theorem rename_leaves_stale_name
    (w : World) (a : addr) (o : ObjectData) (n name' n' : string) :
  heap w !! a = Some o ->
  GetFullName a w = Some n ->
  GetFullName a (set_heap <[a := set_Name name' o]> w) = Some n' ->
  n' <> n ->
  exists w1 w2 w3,
    RegisterObject (Some a) w = Some (tt, w1) /\
    SetName a name' w1 = Some (tt, w2) /\
    DestroyObject (Some a) w2 = Some (tt, w3) /\
    FindObject n w3 = Some a /\
    (RefCount o = 1 -> heap w3 !! a = None).
Proof.
  intros Ho Hn Hn' Hne.
  set (w1 := registered a n o w).
  set (w2 := set_heap <[a := set_Name name' o]> w1).
  assert (Ho1 : heap w1 !! a = Some o) by (unfold w1; rewrite registered_heap; exact Ho).
  assert (Ho2 : heap w2 !! a = Some (set_Name name' o)) by apply lookup_insert_eq.
  assert (Hn2 : GetFullName a w2 = Some n').
  { rewrite <- Hn'. apply GetFullName_same_heap. unfold w2, w1. simpl.
    rewrite registered_heap. reflexivity. }
  exists w1, w2, (destroy_steps a n' (set_Name name' o) w2).
  split; [apply RegisterObject_run; assumption|].
  split; [apply SetName_run; exact Ho1|].
  split; [apply DestroyObject_run; assumption|].
  split.
  - unfold FindObject. rewrite destroy_steps_Objects. unfold w2, w1. simpl.
    rewrite registered_Objects, lookup_delete_ne, lookup_insert_eq by congruence.
    reflexivity.
  - intros Hc. rewrite destroy_steps_heap. simpl. rewrite Hc. reflexivity.
Qed.

Lemma rename_leaves_stale_name_witness :
  let w := set_heap (fun _ => {[ 1%nat := mkObject "Old" None None 0 1 ]}) empty_world in
  exists w1 w2 w3,
    RegisterObject (Some 1%nat) w = Some (tt, w1) /\
    SetName 1%nat "New" w1 = Some (tt, w2) /\
    DestroyObject (Some 1%nat) w2 = Some (tt, w3) /\
    FindObject "Old" w3 = Some 1%nat /\
    heap w3 !! 1%nat = None.
Proof.
  intros w.
  destruct (rename_leaves_stale_name w 1%nat (mkObject "Old" None None 0 1)
              "Old" "New" "New" eq_refl eq_refl eq_refl ltac:(discriminate))
    as (w1 & w2 & w3 & H1 & H2 & H3 & Hf & Hd).
  exists w1, w2, w3. repeat split; try assumption. apply Hd. reflexivity.
Defined.

(** ** When the name functions return *)

Lemma GetFullName_rec_Some_chain fuel (h : gmap addr ObjectData) : forall a s,
  GetFullName_rec fuel h a = Some s ->
  exists l, OuterChain h a l /\ (length l <= fuel)%nat.
Proof.
  induction fuel as [|fuel IH]; intros a s H; [discriminate|].
  simpl in H. destruct (h !! a) as [o|] eqn:Ho; [|discriminate].
  destruct (OuterPrivate o) as [outer|] eqn:Hout.
  - destruct (GetFullName_rec fuel h outer) as [s'|] eqn:E; [|discriminate].
    destruct (IH outer s' E) as (l & Hl & Hlen).
    exists (a :: l). split; [econstructor; eauto | simpl; lia].
  - exists [a]. split; [econstructor; eauto | simpl; lia].
Qed.

Lemma GetPathName_rec_Some_chain fuel (h : gmap addr ObjectData) : forall a s,
  GetPathName_rec fuel h a = Some s ->
  exists l, OuterChain h a l /\ (length l <= fuel)%nat.
Proof.
  induction fuel as [|fuel IH]; intros a s H; [discriminate|].
  simpl in H. destruct (h !! a) as [o|] eqn:Ho; [|discriminate].
  destruct (OuterPrivate o) as [outer|] eqn:Hout.
  - destruct (GetPathName_rec fuel h outer) as [s'|] eqn:E; [|discriminate].
    destruct (IH outer s' E) as (l & Hl & Hlen).
    exists (a :: l). split; [econstructor; eauto | simpl; lia].
  - exists [a]. split; [econstructor; eauto | simpl; lia].
Qed.

(** Whatever an entity reaches through Outer links lies on its chain,
    behind the entity itself. *)
Lemma OuterChain_reaches (h : gmap addr ObjectData) a b :
  tc (outer_of h) a b -> forall l, OuterChain h a l -> exists l', l = a :: l' /\ b ∈ l'.
Proof.
  induction 1 as [a b (o & Ho & Hout) | a c b (o & Ho & Hout) Htc IH]; intros l Hl.
  - inversion Hl as [? o' Ho' Hn | ? o' outer l0 Ho' Hout' Hc]; subst; [congruence|].
    assert (outer = b) by congruence. subst outer.
    exists l0. split; [reflexivity|].
    destruct (OuterChain_head _ _ _ Hc) as [l1 ->]. apply list_elem_of_here.
  - inversion Hl as [? o' Ho' Hn | ? o' outer l0 Ho' Hout' Hc]; subst; [congruence|].
    assert (outer = c) by congruence. subst outer.
    destruct (IH l0 Hc) as (l1 & -> & Hb).
    exists (c :: l1). split; [reflexivity|]. apply list_elem_of_further, Hb.
Qed.

(** X8. [GetFullName] and [GetPathName] return exactly for the entities
    whose Outer chain is finite, acyclic and live throughout; a deeper
    recursion budget never gives a different answer.  For an entity that
    reaches itself through Outer links neither returns, however deep the
    recursion is allowed to go. *)
Theorem GetFullName_returns_iff_chain (w : World) (a : addr) :
  (is_Some (GetFullName a w) <-> exists chain, OuterChain (heap w) a chain) /\
  (is_Some (GetPathName a w) <-> exists chain, OuterChain (heap w) a chain) /\
  (forall fuel s, GetFullName_rec fuel (heap w) a = Some s -> GetFullName a w = Some s) /\
  (forall fuel s, GetPathName_rec fuel (heap w) a = Some s -> GetPathName a w = Some s) /\
  (tc (outer_of (heap w)) a a ->
   forall fuel, GetFullName_rec fuel (heap w) a = None /\
                GetPathName_rec fuel (heap w) a = None).
Proof.
  split; [|split; [|split; [|split]]].
  - split.
    + intros [s Hs]. apply GetFullName_rec_Some_chain in Hs as (l & Hl & _). eauto.
    + intros [l Hl]. rewrite (GetFullName_chain w a l Hl). eauto.
  - split.
    + intros [s Hs]. apply GetPathName_rec_Some_chain in Hs as (l & Hl & _). eauto.
    + intros [l Hl]. rewrite (GetPathName_chain w a l Hl). eauto.
  - intros fuel s Hs.
    destruct (GetFullName_rec_Some_chain _ _ _ _ Hs) as (l & Hl & Hlen).
    rewrite (GetFullName_chain w a l Hl).
    rewrite (GetFullName_rec_chain _ _ _ Hl fuel Hlen) in Hs. exact Hs.
  - intros fuel s Hs.
    destruct (GetPathName_rec_Some_chain _ _ _ _ Hs) as (l & Hl & Hlen).
    rewrite (GetPathName_chain w a l Hl).
    rewrite (GetPathName_rec_chain _ _ _ Hl fuel Hlen) in Hs. exact Hs.
  - intros Hcyc fuel.
    assert (Hno : forall l, ~ OuterChain (heap w) a l).
    { intros l Hl. destruct (OuterChain_reaches _ _ _ Hcyc l Hl) as (l' & -> & Hin).
      apply OuterChain_NoDup in Hl. apply NoDup_cons in Hl as [Hnin _]. auto. }
    split.
    + destruct (GetFullName_rec fuel (heap w) a) as [s|] eqn:E; [|reflexivity].
      apply GetFullName_rec_Some_chain in E as (l & Hl & _). destruct (Hno l Hl).
    + destruct (GetPathName_rec fuel (heap w) a) as [s|] eqn:E; [|reflexivity].
      apply GetPathName_rec_Some_chain in E as (l & Hl & _). destruct (Hno l Hl).
Qed.

Lemma GetFullName_returns_iff_chain_witness :
  let w := set_heap (fun _ => {[ 1%nat := mkObject "A" None (Some 2%nat) 0 1;
                                 2%nat := mkObject "B" None (Some 1%nat) 0 1 ]})
                    empty_world in
  GetFullName_rec 1000 (heap w) 1%nat = None /\
  GetPathName_rec 1000 (heap w) 1%nat = None.
Proof.
  intros w.
  destruct (GetFullName_returns_iff_chain w 1%nat) as (_ & _ & _ & _ & H).
  apply H.
  eapply tc_l; [|apply tc_once].
  - exists (mkObject "A" None (Some 2%nat) 0 1). split; reflexivity.
  - exists (mkObject "B" None (Some 1%nat) 0 1). split; reflexivity.
Defined.

(** ** Reclamation *)

Lemma destroy_count_trace a w w' :
  trace w' = trace w -> destroy_count a w' = destroy_count a w.
Proof. unfold destroy_count. intros ->. reflexivity. Qed.

Lemma destroy_count_app a w (es : list Event) w' :
  trace w' = trace w ++ es ->
  destroy_count a w'
  = (destroy_count a w + length (filter (fun e => e = EvDelete a) es))%nat.
Proof. unfold destroy_count. intros ->. rewrite filter_app, length_app. reflexivity. Qed.

Lemma run_ops_dead_nil a ops w w' :
  heap w !! a = None -> run_ops a ops w = Some (tt, w') -> ops = [] /\ w' = w.
Proof.
  intros Hd. destruct ops as [|op ops]; simpl.
  - unfold ret. intros [= <-]. auto.
  - unfold bind. destruct op; simpl.
    + rewrite AddRef_dead by exact Hd. discriminate.
    + rewrite Release_dead by exact Hd. discriminate.
Qed.

(** X9. Along any sequence of [AddRef] and [Release] calls on a live
    entity that the program can make, the entity is reclaimed at most
    once, and only by a [Release] that is the last call of the sequence:
    when the entity is still alive afterwards nothing was reclaimed, and
    when it is not, the sequence ends in the [Release] that reclaimed it. *)
Theorem run_ops_reclaims_once (ops : list RefOp) :
  forall (a : addr) (w w' : World) (o : ObjectData),
    heap w !! a = Some o ->
    run_ops a ops w = Some (tt, w') ->
    (is_Some (heap w' !! a) -> destroy_count a w' = destroy_count a w) /\
    (heap w' !! a = None ->
     (exists ops0, ops = ops0 ++ [OpRelease]) /\
     destroy_count a w' = S (destroy_count a w)).
Proof.
  induction ops as [|op ops IH]; intros a w w' o Ho Hrun.
  - simpl in Hrun. injection Hrun as <-. split; [reflexivity|].
    intros Hd. congruence.
  - simpl in Hrun. unfold bind in Hrun. destruct op; simpl in Hrun.
    + rewrite (AddRef_live _ _ _ Ho) in Hrun.
      destruct (IH a _ w' _ (lookup_insert_eq _ _ _) Hrun) as [Hlive Hdead].
      assert (Hdc : destroy_count a (log (EvAddRef a)
                (set_heap <[a := set_RefCount (Int.to_int32 (RefCount o + 1)) o]> w))
              = destroy_count a w).
      { erewrite destroy_count_app by reflexivity.
        rewrite filter_cons, decide_False, filter_nil by discriminate.
        simpl. rewrite Nat.add_0_r. reflexivity. }
      rewrite Hdc in Hlive, Hdead. split; [exact Hlive|].
      intros Hd. destruct (Hdead Hd) as [[ops0 ->] Hc]. split; [|exact Hc].
      exists (OpAddRef :: ops0). reflexivity.
    + rewrite (Release_live _ _ _ Ho) in Hrun. fold (release_world a o w) in Hrun.
      pose proof (release_world_destroy_count a o w) as Hdc.
      pose proof (release_world_self a o w) as Hself.
      destruct (RefCount o =? 1) eqn:E.
      * destruct (run_ops_dead_nil _ _ _ _ Hself Hrun) as [-> ->].
        split.
        { intros [x Hx]. congruence. }
        intros _. split; [exists []; reflexivity | lia].
      * destruct (IH a _ w' _ Hself Hrun) as [Hlive Hdead].
        rewrite Hdc, Nat.add_0_r in Hlive, Hdead. split; [exact Hlive|].
        intros Hd. destruct (Hdead Hd) as [[ops0 ->] Hc]. split; [|exact Hc].
        exists (OpRelease :: ops0). reflexivity.
Qed.

Lemma run_ops_reclaims_once_witness :
  exists w',
    run_ops 1%nat [OpAddRef; OpRelease; OpRelease; OpRelease] one_entity_world
    = Some (tt, w') /\
    heap w' !! 1%nat = None /\
    destroy_count 1%nat w' = 1%nat.
Proof.
  eexists. split; [reflexivity|]. split; [reflexivity|].
  refine (proj2 (proj2 (run_ops_reclaims_once [OpAddRef; OpRelease; OpRelease; OpRelease]
                  1%nat one_entity_world _ _ eq_refl eq_refl) eq_refl)).
Defined.

(** ** Owning references never dangle *)

Lemma holder_lookup b (m : gmap nat (option addr)) h :
  filter (fun kv : nat * option addr => kv.2 = Some b) m !! h
  = if decide (m !! h = Some (Some b)) then Some (Some b) else None.
Proof.
  case_decide as Hd.
  - apply map_lookup_filter_Some. split; [exact Hd | reflexivity].
  - apply map_lookup_filter_None. destruct (m !! h) as [q|] eqn:E; [right | left; reflexivity].
    intros x [= <-]. simpl. congruence.
Qed.

Lemma points_to_held_at b (m : gmap nat (option addr)) h :
  points_to (held_at m h) b = if decide (m !! h = Some (Some b)) then 1 else 0.
Proof.
  unfold points_to, held_at. destruct (m !! h) as [q|]; simpl.
  - repeat case_decide; congruence.
  - repeat case_decide; congruence.
Qed.

Lemma holders_pos b (m : gmap nat (option addr)) h :
  m !! h = Some (Some b) -> (0 < holders b m)%nat.
Proof.
  intros Hm. unfold holders.
  assert (Hne : size (filter (fun kv : nat * option addr => kv.2 = Some b) m) <> 0%nat).
  { apply map_size_ne_0_lookup. exists h. rewrite holder_lookup, decide_True by exact Hm.
    eauto. }
  lia.
Qed.

Lemma holders_delete b (m : gmap nat (option addr)) h :
  Z.of_nat (holders b (delete h m)) = Z.of_nat (holders b m) - points_to (held_at m h) b.
Proof.
  rewrite points_to_held_at. unfold holders.
  rewrite map_filter_delete, map_size_delete, holder_lookup.
  case_decide as Hd.
  - pose proof (holders_pos b m h Hd). unfold holders in *. simpl. lia.
  - simpl. lia.
Qed.

Lemma holders_insert b (m : gmap nat (option addr)) h p :
  Z.of_nat (holders b (<[h := p]> m))
  = Z.of_nat (holders b m) - points_to (held_at m h) b + points_to p b.
Proof.
  rewrite points_to_held_at. unfold holders at 1.
  rewrite map_filter_insert. unfold points_to. simpl.
  destruct (decide (p = Some b)) as [Hp|Hp].
  - rewrite map_size_insert, holder_lookup. fold (holders b m).
    case_decide; simpl; lia.
  - fold (holders b (delete h m)). rewrite holders_delete, points_to_held_at. lia.
Qed.

Lemma covered_ext w (n n' : addr -> Z) :
  (forall b, n b = n' b) -> covered w n -> covered w n'.
Proof. intros He Hc b Hb. rewrite <- He in *. apply Hc, Hb. Qed.

Lemma covered_same_heap w w' n : heap w' = heap w -> covered w n -> covered w' n.
Proof. intros Hh Hc b Hb. rewrite Hh. apply Hc, Hb. Qed.

Lemma covered_release_held w n prev :
  covered w n -> (forall b, prev = Some b -> 0 < n b) ->
  exists w1, release_held prev w = Some w1 /\
             covered w1 (fun b => n b - points_to prev b) /\
             handles w1 = handles w /\
             (forall b, prev <> Some b -> heap w1 !! b = heap w !! b) /\
             (forall b o, prev = Some b -> heap w !! b = Some o -> RefCount o <> 1 ->
                heap w1 !! b = Some (set_RefCount (RefCount o - 1) o)).
Proof.
  intros Hc Hp. destruct prev as [a|]; simpl.
  - destruct (Hc a (Hp a eq_refl)) as (o & Ho & Hle & Hmax). rewrite Ho.
    exists (release_world a o w).
    assert (Hid : RefCount o <> 1 -> Int.to_int32 (RefCount o - 1) = RefCount o - 1).
    { intros Hne. apply to_int32_id. specialize (Hp a eq_refl).
      unfold Int.in_int32, Int.INT32_MIN, Int.INT32_MAX in *. lia. }
    split; [reflexivity|]. split; [|split; [|split]].
    + intros b Hb. unfold points_to in Hb |- *.
      destruct (decide (Some a = Some b)) as [[= <-]|Hne].
      * rewrite release_world_self.
        destruct (Z.eqb_spec (RefCount o) 1) as [E|E]; [lia|].
        eexists. split; [reflexivity|]. simpl. rewrite (Hid E). lia.
      * rewrite release_world_other by congruence.
        rewrite Z.sub_0_r in *. apply Hc, Hb.
    + unfold release_world. destruct (RefCount o =? 1); reflexivity.
    + intros b Hne. apply release_world_other. congruence.
    + intros b o' [= <-] Ho' Hne. assert (o' = o) by congruence. subst o'.
      rewrite release_world_self. apply Z.eqb_neq in Hne as E. rewrite E.
      rewrite (Hid Hne). reflexivity.
  - exists w. split; [reflexivity|]. split; [|split; [|split]]; auto.
    + eapply covered_ext; [|exact Hc]. intros b. unfold points_to.
      rewrite decide_False by discriminate. lia.
    + intros b o [=].
Qed.

Lemma covered_acquire_held w n p :
  covered w n ->
  (forall a, p = Some a ->
     exists o, heap w !! a = Some o /\ n a <= RefCount o /\ 0 <= RefCount o < Int.INT32_MAX) ->
  exists w2, acquire_held p w = Some w2 /\
             covered w2 (fun b => n b + points_to p b) /\
             handles w2 = handles w.
Proof.
  intros Hc Hp. destruct p as [a|]; simpl.
  - destruct (Hp a eq_refl) as (o & Ho & Hle & Hr). rewrite Ho.
    exists (addref_world a o w). split; [reflexivity|]. split; [|reflexivity].
    intros b Hb. unfold points_to in Hb |- *. simpl.
    destruct (decide (Some a = Some b)) as [[= <-]|Hne].
    + rewrite lookup_insert_eq. eexists. split; [reflexivity|]. simpl.
      rewrite to_int32_id; [lia|].
      unfold Int.in_int32, Int.INT32_MIN, Int.INT32_MAX in *. lia.
    + rewrite lookup_insert_ne by congruence. rewrite Z.add_0_r in *. apply Hc, Hb.
  - exists w. split; [reflexivity|]. split; [|reflexivity].
    eapply covered_ext; [|exact Hc]. intros b. unfold points_to.
    rewrite decide_False by discriminate. lia.
Qed.

Lemma points_to_None b : points_to None b = 0.
Proof. unfold points_to. rewrite decide_False by discriminate. reflexivity. Qed.

Lemma held_at_None (m : gmap nat (option addr)) h : m !! h = None -> held_at m h = None.
Proof. unfold held_at. intros ->. reflexivity. Qed.

Lemma held_at_Some (m : gmap nat (option addr)) h p : m !! h = Some p -> held_at m h = p.
Proof. unfold held_at. intros ->. reflexivity. Qed.

Lemma holders_two a (m : gmap nat (option addr)) h1 h2 :
  h1 <> h2 -> m !! h1 = Some (Some a) -> m !! h2 = Some (Some a) ->
  2 <= Z.of_nat (holders a m).
Proof.
  intros Hne H1 H2.
  pose proof (holders_delete a m h1) as Hd.
  rewrite (held_at_Some _ _ _ H1) in Hd. unfold points_to in Hd.
  rewrite decide_True in Hd by reflexivity.
  assert (H2' : delete h1 m !! h2 = Some (Some a)) by (rewrite lookup_delete_ne; auto).
  pose proof (holders_pos a _ h2 H2'). lia.
Qed.

Lemma ObjectPtr_AddRef_run this p w :
  handles w !! this = Some p ->
  ObjectPtr.AddRef this w = (fun w' => (tt, w')) <$> acquire_held p w.
Proof.
  intros Hh. unfold ObjectPtr.AddRef, ObjectPtr.Ptr, bind. rewrite Hh.
  destruct p as [a|]; simpl; [|reflexivity].
  destruct (heap w !! a) as [o|] eqn:Ho.
  - rewrite (AddRef_live _ _ _ Ho). reflexivity.
  - rewrite (AddRef_dead _ _ Ho). reflexivity.
Qed.

Lemma ctor_raw_run_gen this p w w2 :
  handles w !! this = None ->
  acquire_held p (set_handles <[this := p]> w) = Some w2 ->
  ObjectPtr.ctor_raw this p w = Some (tt, w2).
Proof.
  intros Hf Ha. unfold ObjectPtr.ctor_raw, ObjectPtr.fresh, ObjectPtr.set_Ptr, bind, modify.
  rewrite Hf. rewrite (ObjectPtr_AddRef_run this p) by apply lookup_insert_eq.
  rewrite Ha. reflexivity.
Qed.

Lemma ctor_copy_run_gen this other p w w2 :
  handles w !! this = None -> handles w !! other = Some p ->
  acquire_held p (set_handles <[this := p]> w) = Some w2 ->
  ObjectPtr.ctor_copy this other w = Some (tt, w2).
Proof.
  intros Hf Hoth Ha.
  unfold ObjectPtr.ctor_copy, ObjectPtr.fresh, ObjectPtr.set_Ptr, ObjectPtr.Ptr at 1,
    bind, modify.
  rewrite Hf, Hoth. rewrite (ObjectPtr_AddRef_run this p) by apply lookup_insert_eq.
  rewrite Ha. reflexivity.
Qed.

Lemma dtor_run_gen this prev w w1 :
  handles w !! this = Some prev -> release_held prev w = Some w1 ->
  ObjectPtr.dtor this w = Some (tt, set_handles (delete this) w1).
Proof.
  intros Hh Hrel. unfold ObjectPtr.dtor, bind.
  rewrite (ObjectPtr_Release_run _ _ _ Hh), Hrel. reflexivity.
Qed.

Lemma assign_copy_run_gen this other prev p w w1 w2 :
  this <> other ->
  handles w !! this = Some prev -> handles w !! other = Some p ->
  release_held prev w = Some w1 ->
  acquire_held p (set_handles <[this := p]> w1) = Some w2 ->
  ObjectPtr.assign_copy this other w = Some (tt, w2).
Proof.
  intros Hne Hh Hoth Hrel Ha. unfold ObjectPtr.assign_copy.
  rewrite decide_True by exact Hne. unfold bind.
  rewrite (ObjectPtr_Release_run _ _ _ Hh), Hrel. simpl.
  unfold ObjectPtr.Ptr at 1, ObjectPtr.set_Ptr, bind, modify.
  rewrite (release_held_handles _ _ _ Hrel), Hoth.
  rewrite (ObjectPtr_AddRef_run this p) by apply lookup_insert_eq.
  rewrite Ha. reflexivity.
Qed.

Lemma handles_ok_live w h a :
  handles_ok w -> handles w !! h = Some (Some a) -> is_Some (heap w !! a).
Proof.
  intros Hok Hh. destruct (Hok a) as (o & Ho & _); [|eauto].
  pose proof (holders_pos a _ h Hh). lia.
Qed.

Lemma handles_ok_room w p h :
  handles_ok w -> handles w !! h = Some p -> counter_has_room p w ->
  forall a, p = Some a ->
    exists o, heap w !! a = Some o /\
              Z.of_nat (holders a (handles w)) <= RefCount o /\
              0 <= RefCount o < Int.INT32_MAX.
Proof.
  intros Hok Hh Hroom a ->. destruct (Hok a) as (o & Ho & Hle & _).
  - pose proof (holders_pos a _ h Hh). lia.
  - exists o. split; [exact Ho|]. split; [exact Hle|]. exact (Hroom a o eq_refl Ho).
Qed.

Lemma handle_op_keeps_handles_ok (op : HandleOp) (w : World) :
  handles_ok w -> handle_op_defined op w -> handle_op_no_wrap op w ->
  exists w', run_handle_op op w = Some (tt, w') /\ handles_ok w'.
Proof.
  intros Hok Hready Hroom. unfold handles_ok in *. unfold handle_op_no_wrap in Hroom.
  destruct op as [this | this ptr | this other | this other | this
                  | this other | this other]; simpl in Hready, Hroom |- *.
  - (* ObjectPtr() *)
    exists (set_handles <[this := None]> w). split.
    + unfold ObjectPtr.ctor_default, ObjectPtr.fresh, ObjectPtr.set_Ptr, bind, modify.
      rewrite Hready. reflexivity.
    + eapply covered_ext; [|eapply covered_same_heap; [|exact Hok]; reflexivity].
      intros b. simpl. rewrite holders_insert, (held_at_None _ _ Hready), !points_to_None.
      lia.
  - (* ObjectPtr(T* ptr) *)
    destruct Hready as [Hf Hlive].
    destruct (covered_acquire_held (set_handles <[this := ptr]> w)
                (fun b => Z.of_nat (holders b (handles w))) ptr)
      as (w2 & Ha & Hc2 & Hh2).
    { eapply covered_same_heap; [|exact Hok]. reflexivity. }
    { intros a ->. destruct (Hlive a eq_refl) as [o Ho].
      pose proof (Hroom a o eq_refl Ho) as Hr.
      exists o. split; [exact Ho|]. split; [|lia].
      destruct (Z_le_gt_dec (Z.of_nat (holders a (handles w))) 0) as [|Hpos]; [lia|].
      destruct (Hok a) as (o' & Ho' & Hle & _); [lia|].
      assert (o' = o) by congruence. subst o'. exact Hle. }
    exists w2. split; [apply ctor_raw_run_gen; assumption|].
    eapply covered_ext; [|exact Hc2]. intros b. rewrite Hh2. simpl.
    rewrite holders_insert, (held_at_None _ _ Hf), points_to_None. lia.
  - (* ObjectPtr(const ObjectPtr&) *)
    destruct Hready as (Hf & p & Hoth).
    rewrite (held_at_Some _ _ _ Hoth) in Hroom.
    destruct (covered_acquire_held (set_handles <[this := p]> w)
                (fun b => Z.of_nat (holders b (handles w))) p)
      as (w2 & Ha & Hc2 & Hh2).
    { eapply covered_same_heap; [|exact Hok]. reflexivity. }
    { exact (handles_ok_room w p other Hok Hoth Hroom). }
    exists w2. split; [eapply ctor_copy_run_gen; eassumption|].
    eapply covered_ext; [|exact Hc2]. intros b. rewrite Hh2. simpl.
    rewrite holders_insert, (held_at_None _ _ Hf), points_to_None. lia.
  - (* ObjectPtr(ObjectPtr&&) *)
    destruct Hready as (Hf & p & Hoth).
    eexists. split; [eapply ctor_move_run; eassumption|].
    eapply covered_ext; [|eapply covered_same_heap; [|exact Hok]; reflexivity].
    intros b. simpl. rewrite !holders_insert, (held_at_None _ _ Hf), !points_to_None.
    rewrite (held_at_Some _ other p) by (rewrite lookup_insert_ne; congruence). lia.
  - (* ~ObjectPtr() *)
    destruct Hready as [prev Hh].
    destruct (covered_release_held w _ prev Hok) as (w1 & Hrel & Hc1 & Hh1 & _).
    { intros b ->. pose proof (holders_pos b _ this Hh). lia. }
    exists (set_handles (delete this) w1). split; [eapply dtor_run_gen; eassumption|].
    eapply covered_ext; [|eapply covered_same_heap; [|exact Hc1]; reflexivity].
    intros b. simpl. rewrite Hh1, holders_delete, (held_at_Some _ _ _ Hh). reflexivity.
  - (* operator=(const ObjectPtr&) *)
    destruct Hready as ([prev Hh] & p & Hoth).
    destruct (decide (this = other)) as [->|Hne].
    { exists w. split; [|exact Hok]. unfold ObjectPtr.assign_copy.
      rewrite decide_False by tauto. reflexivity. }
    rewrite (held_at_Some _ _ _ Hoth) in Hroom.
    destruct (covered_release_held w _ prev Hok)
      as (w1 & Hrel & Hc1 & Hh1 & Hother & Hself).
    { intros b ->. pose proof (holders_pos b _ this Hh). lia. }
    destruct (covered_acquire_held (set_handles <[this := p]> w1)
                (fun b => Z.of_nat (holders b (handles w)) - points_to prev b) p)
      as (w2 & Ha & Hc2 & Hh2).
    { eapply covered_same_heap; [|exact Hc1]. reflexivity. }
    { intros a ->. simpl.
      destruct (handles_ok_room w (Some a) other Hok Hoth Hroom a eq_refl)
        as (o & Ho & Hle & Hr).
      destruct (decide (prev = Some a)) as [->|Hpa].
      - pose proof (holders_two a _ this other Hne Hh Hoth).
        rewrite (Hself a o eq_refl Ho) by lia.
        eexists. split; [reflexivity|]. unfold points_to.
        rewrite decide_True by reflexivity. simpl. lia.
      - rewrite (Hother a) by congruence. exists o. split; [exact Ho|].
        unfold points_to. rewrite decide_False by exact Hpa. lia. }
    exists w2. split; [eapply assign_copy_run_gen; eassumption|].
    eapply covered_ext; [|exact Hc2]. intros b. rewrite Hh2. simpl.
    rewrite Hh1, holders_insert, (held_at_Some _ _ _ Hh). reflexivity.
  - (* operator=(ObjectPtr&&) *)
    destruct Hready as ([prev Hh] & [p Hoth]).
    destruct (decide (this = other)) as [->|Hne].
    { exists w. split; [|exact Hok]. unfold ObjectPtr.assign_move.
      rewrite decide_False by tauto. reflexivity. }
    destruct (covered_release_held w _ prev Hok) as (w1 & Hrel & Hc1 & Hh1 & _).
    { intros b ->. pose proof (holders_pos b _ this Hh). lia. }
    eexists. split; [eapply assign_move_run; eassumption|].
    eapply covered_ext; [|eapply covered_same_heap; [|exact Hc1]; reflexivity].
    intros b. simpl. rewrite Hh1, !holders_insert, (held_at_Some _ _ _ Hh), points_to_None.
    rewrite (held_at_Some _ other p) by (rewrite lookup_insert_ne; congruence). lia.
Qed.

Lemma handle_ops_keep_handles_ok (ops : list HandleOp) :
  forall w : World,
    handles_ok w -> handle_ops_defined ops w -> handle_ops_no_wrap ops w ->
    exists w',
      run_handle_ops ops w = Some (tt, w') /\
      handles_ok w' /\
      (forall h a, handles w' !! h = Some (Some a) -> is_Some (heap w' !! a)).
Proof.
  induction ops as [|op ops IH]; intros w Hok Hdef Hroom.
  - exists w. split; [reflexivity|]. split; [exact Hok|].
    intros h a. apply handles_ok_live, Hok.
  - destruct Hdef as [Hop Hrest]. destruct Hroom as [Hop' Hrest'].
    destruct (handle_op_keeps_handles_ok op w Hok Hop Hop') as (w1 & Hrun & Hok1).
    destruct (IH w1 Hok1 (Hrest w1 Hrun) (Hrest' w1 Hrun)) as (w' & Hrun' & Hok' & Hlive).
    exists w'. split; [|split; assumption].
    simpl. unfold bind. rewrite Hrun. exact Hrun'.
Qed.

Lemma handles_ok_no_handles w : handles w = ∅ -> handles_ok w.
Proof.
  intros He b Hb. unfold holders in Hb. rewrite He, map_filter_empty, map_size_empty in Hb.
  simpl in Hb. lia.
Qed.

Lemma holders_singleton (a : addr) (h : nat) :
  holders a {[ h := Some a ]} = 1%nat.
Proof.
  unfold holders. rewrite map_filter_singleton_True by reflexivity.
  apply map_size_singleton.
Qed.

Lemma holders_singleton_other (a b : addr) (h : nat) :
  b <> a -> holders b {[ h := Some a ]} = 0%nat.
Proof.
  intros Hne. unfold holders.
  rewrite map_filter_singleton_False by (simpl; congruence).
  apply map_size_empty.
Qed.

(** X10. Owning references never dangle, as long as no counter wraps.
    Starting from a world in which every held entity is live and its
    counter is at least the number of handles that hold it, every program
    of [ObjectPtr] operations that are defined calls (unused storage for
    constructors, existing operands, raw pointers null or to live
    entities), in which every operation that increments a counter finds
    it, when the operation starts, at 0 or above and below [INT32_MAX],
    runs to the end; afterwards every held entity is again live with a
    counter that covers its handles; self-assignment included.  The bound
    on the counter is needed: copy construction is a defined call on a
    handle whose entity has its counter at [INT32_MAX], the increment
    wraps to [INT32_MIN], and the counter no longer covers the two handles
    that then hold the entity. *)
Theorem ObjectPtr_never_dangles :
  (forall (ops : list HandleOp) (w : World),
     handles_ok w -> handle_ops_defined ops w -> handle_ops_no_wrap ops w ->
     exists w',
       run_handle_ops ops w = Some (tt, w') /\
       handles_ok w' /\
       (forall h a, handles w' !! h = Some (Some a) -> is_Some (heap w' !! a))) /\
  (handles_ok full_counter_world /\
   handle_op_defined (HCopy 1%nat 0%nat) full_counter_world /\
   ~ handle_op_no_wrap (HCopy 1%nat 0%nat) full_counter_world /\
   exists w',
     run_handle_op (HCopy 1%nat 0%nat) full_counter_world = Some (tt, w') /\
     GetRefCount 1%nat w' = Some Int.INT32_MIN /\
     holders 1%nat (handles w') = 2%nat /\
     ~ handles_ok w').
Proof.
  split; [intros ops w; apply handle_ops_keep_handles_ok|].
  split; [|split; [|split]].
  - unfold handles_ok, covered.
    change (handles full_counter_world)
      with ({[ 0%nat := Some 1%nat ]} : gmap nat (option addr)).
    intros b Hb.
    destruct (decide (b = 1%nat)) as [->|Hne].
    + eexists. split; [reflexivity|]. rewrite holders_singleton.
      cbn [RefCount]. unfold Int.INT32_MAX. lia.
    + rewrite holders_singleton_other in Hb by exact Hne. lia.
  - split; [reflexivity | eexists; reflexivity].
  - intros Hroom.
    specialize (Hroom 1%nat _ eq_refl eq_refl). cbn [RefCount] in Hroom. lia.
  - eexists. split; [reflexivity|].
    split; [reflexivity|]. split; [vm_compute; reflexivity|].
    intros Hok. destruct (Hok 1%nat) as (o & Ho & Hle & _).
    + vm_compute. reflexivity.
    + injection Ho as <-. revert Hle. vm_compute. intros Hle. apply Hle. reflexivity.
Qed.

Lemma ObjectPtr_never_dangles_witness :
  let ops := [HRaw 0%nat (Some 1%nat); HCopy 1%nat 0%nat; HAssignCopy 1%nat 1%nat;
              HMove 2%nat 0%nat; HAssignCopy 0%nat 1%nat; HDtor 1%nat; HDtor 2%nat] in
  exists w',
    run_handle_ops ops one_entity_world = Some (tt, w') /\
    handles_ok w' /\
    (forall h a, handles w' !! h = Some (Some a) -> is_Some (heap w' !! a)).
Proof.
  intros ops.
  apply (proj1 ObjectPtr_never_dangles ops one_entity_world).
  - apply handles_ok_no_handles. reflexivity.
  - repeat (split; [| intros ? [= <-]]);
      repeat first
        [ reflexivity
        | split
        | (eexists; reflexivity)
        | exact I
        | (intros ? [= <-]; eexists; reflexivity) ].
  - repeat (split; [| intros ? [= <-]]);
      repeat first
        [ exact I
        | solve [intros ? ? [=]]
        | solve [intros ? ? [= <-] Ho; vm_compute in Ho; injection Ho as <-;
                 vm_compute; split; [discriminate | reflexivity]] ].
Defined.

(** ** Destruction seen from the other references *)

Lemma HasFlags_bit (o : ObjectData) (n : Z) :
  0 <= n -> HasFlags (Z.shiftl 1 n) o = Z.testbit (ObjectFlagsPrivate o) n.
Proof.
  intros Hn. unfold HasFlags, ObjectFlags.and, ObjectFlags.None_.
  rewrite land_bit_eqb by exact Hn. apply negb_involutive.
Qed.

(** X11. An entity destroyed while another reference to it exists stays
    live: it is pending kill, carries both destroy flags, can no longer be
    found by its name, its counter is one lower, and an owning reference
    that holds it still reports itself valid, since [IsValid] looks at the
    pointer only.  A newly constructed entity is not pending kill. *)
Theorem DestroyObject_with_other_reference
    (w : World) (a : addr) (o : ObjectData) (n : string) (h : nat) :
  heap w !! a = Some o ->
  GetFullName a w = Some n ->
  RefCount o <> 1 ->
  handles w !! h = Some (Some a) ->
  IsPendingKill new_ObjectData = false /\
  exists w' o',
    DestroyObject (Some a) w = Some (tt, w') /\
    heap w' !! a = Some o' /\
    IsPendingKill o' = true /\
    HasFlags ObjectFlags.FinishDestroyed o' = true /\
    RefCount o' = Int.to_int32 (RefCount o - 1) /\
    Name o' = Name o /\
    FindObject n w' = None /\
    ObjectPtr.IsValid h w' = Some true.
Proof.
  intros Ho Hn Hc Hh. split; [reflexivity|].
  eexists _, _. split; [apply DestroyObject_run; eassumption|].
  split.
  { rewrite destroy_steps_heap. apply Z.eqb_neq in Hc. rewrite Hc. reflexivity. }
  split.
  { unfold IsPendingKill, ObjectFlags.BeginDestroyed at 1. rewrite HasFlags_bit by lia.
    cbn [ObjectFlagsPrivate set_RefCount set_Flags added_flags].
    unfold ObjectFlags.or. rewrite !Z.lor_spec.
    change (Z.testbit ObjectFlags.BeginDestroyed 6) with true.
    rewrite orb_true_r. reflexivity. }
  split.
  { unfold ObjectFlags.FinishDestroyed at 1. rewrite HasFlags_bit by lia.
    cbn [ObjectFlagsPrivate set_RefCount set_Flags added_flags].
    unfold ObjectFlags.or. rewrite !Z.lor_spec.
    change (Z.testbit ObjectFlags.FinishDestroyed 7) with true.
    apply orb_true_r. }
  split; [reflexivity|]. split; [reflexivity|].
  split.
  { unfold FindObject. rewrite destroy_steps_Objects. apply lookup_delete_eq. }
  unfold ObjectPtr.IsValid. rewrite destroy_steps_handles, Hh. reflexivity.
Qed.

Lemma DestroyObject_with_other_reference_witness :
  exists w' o',
    DestroyObject (Some 1%nat) one_handle_world = Some (tt, w') /\
    heap w' !! 1%nat = Some o' /\
    IsPendingKill o' = true /\
    ObjectPtr.IsValid 0%nat w' = Some true.
Proof.
  destruct (DestroyObject_with_other_reference one_handle_world 1%nat
              (mkObject "Player" (Some 10%nat) None ObjectFlags.NeedInitialization 2)
              "Player" 0%nat eq_refl eq_refl ltac:(discriminate) eq_refl)
    as (_ & w' & o' & Hrun & Ho' & Hpk & _ & _ & _ & _ & Hv).
  exists w', o'. repeat split; assumption.
Defined.

Lemma filter_no_delete a (es : list Event) :
  Forall (fun e => e <> EvDelete a) es -> filter (fun e => e = EvDelete a) es = [].
Proof.
  induction 1 as [|e es He Hes IH]; [reflexivity|].
  rewrite filter_cons, decide_False by exact He. exact IH.
Qed.

Lemma destroy_steps_heap_map a n o w :
  heap (destroy_steps a n o w) =
  if RefCount o =? 1 then delete a (heap w)
  else <[a := set_RefCount (Int.to_int32 (RefCount o - 1))
                (added_flags ObjectFlags.FinishDestroyed
                   (added_flags ObjectFlags.BeginDestroyed o))]> (heap w).
Proof.
  unfold destroy_steps, release_world, released.
  change (RefCount (added_flags ObjectFlags.FinishDestroyed
                      (added_flags ObjectFlags.BeginDestroyed o))) with (RefCount o).
  destruct (RefCount o =? 1); simpl; rewrite unregistered_heap; simpl.
  - rewrite !delete_insert_eq. reflexivity.
  - rewrite !insert_insert_eq. reflexivity.
Qed.

Lemma destroy_steps_class a n o w c :
  GetObjectsOfClass c (destroy_steps a n o w) =
  if decide (ClassPrivate o = Some c)
  then filter (fun x => x <> a) (GetObjectsOfClass c w)
  else GetObjectsOfClass c w.
Proof.
  transitivity (GetObjectsOfClass c
    (unregistered a n (added_flags ObjectFlags.BeginDestroyed o)
       (set_heap <[a := added_flags ObjectFlags.BeginDestroyed o]>
          (log (EvBeginDestroy a) w)))).
  - unfold destroy_steps, release_world, released, GetObjectsOfClass.
    destruct (RefCount _ =? 1); reflexivity.
  - rewrite unregistered_class. reflexivity.
Qed.

Lemma destroy_steps_trace a n o w :
  trace (destroy_steps a n o w) =
  trace w ++ [EvBeginDestroy a; EvUnregisterObject a; EvFinishDestroy a; EvRelease a]
          ++ (if RefCount o =? 1 then [EvDelete a] else []).
Proof.
  unfold destroy_steps, release_world, released.
  change (RefCount (added_flags ObjectFlags.FinishDestroyed
                      (added_flags ObjectFlags.BeginDestroyed o))) with (RefCount o).
  assert (Htr : forall o' w', trace (unregistered a n o' w')
                              = trace w' ++ [EvUnregisterObject a]).
  { intros o' w'. unfold unregistered. destruct (ClassPrivate o'); reflexivity. }
  destruct (RefCount o =? 1); simpl; rewrite Htr; simpl; rewrite <- !app_assoc; reflexivity.
Qed.

Lemma CreateObject_run factory c outer name w w1 a o n :
  factory c outer name w = Some (Some a, w1) ->
  heap w1 !! a = Some o -> GetFullName a w1 = Some n ->
  CreateObject factory PostInitProperties_base (Some c) outer name w
  = Some (Some a, log (EvPostInitProperties a) (registered a n o w1)).
Proof.
  intros Hf Ho Hn. unfold CreateObject, bind. rewrite Hf.
  rewrite (RegisterObject_run a w1 n o Hn Ho). reflexivity.
Qed.

(** X12. Creating an entity whose name is new and destroying it again,
    with no other reference taken in between, leaves nothing behind: the
    entity is reclaimed, exactly once, and every name lookup and every
    class collection answers as before the creation. *)
Theorem CreateObject_DestroyObject_roundtrip
    (factory : class_addr -> option addr -> string -> M (option addr))
    (c : class_addr) (outer : option addr) (name : string)
    (w w1 : World) (a : addr) (o : ObjectData) (n : string) :
  factory c outer name w = Some (Some a, w1) ->
  heap w1 !! a = Some o -> RefCount o = 1 ->
  GetFullName a w1 = Some n ->
  FindObject n w1 = None ->
  (forall c', ClassPrivate o = Some c' -> a ∉ GetObjectsOfClass c' w1) ->
  exists w2 w3,
    CreateObject factory PostInitProperties_base (Some c) outer name w = Some (Some a, w2) /\
    FindObject n w2 = Some a /\
    DestroyObject (Some a) w2 = Some (tt, w3) /\
    heap w3 = delete a (heap w1) /\
    (forall n', FindObject n' w3 = FindObject n' w1) /\
    (forall c', GetObjectsOfClass c' w3 = GetObjectsOfClass c' w1) /\
    destroy_count a w3 = S (destroy_count a w1).
Proof.
  intros Hf Ho Hc Hn Hfree Hnew.
  set (w2 := log (EvPostInitProperties a) (registered a n o w1)).
  assert (Hh2 : heap w2 = heap w1) by apply registered_heap.
  assert (Ho2 : heap w2 !! a = Some o) by (rewrite Hh2; exact Ho).
  assert (Hn2 : GetFullName a w2 = Some n).
  { rewrite (GetFullName_same_heap a w2 w1 Hh2). exact Hn. }
  assert (HO2 : Objects w2 = <[n := a]> (Objects w1)) by apply registered_Objects.
  exists w2, (destroy_steps a n o w2).
  split; [eapply CreateObject_run; eassumption|].
  split; [unfold FindObject; rewrite HO2; apply lookup_insert_eq|].
  split; [apply DestroyObject_run; assumption|].
  split; [rewrite destroy_steps_heap_map, Hc, Hh2; reflexivity|].
  split.
  { intros n'. unfold FindObject. rewrite destroy_steps_Objects, HO2.
    rewrite delete_insert_id by exact Hfree. reflexivity. }
  split.
  { intros c'. rewrite destroy_steps_class.
    change (GetObjectsOfClass c' w2) with (GetObjectsOfClass c' (registered a n o w1)).
    rewrite registered_class.
    destruct (decide (ClassPrivate o = Some c')) as [Hc'|]; [|reflexivity].
    rewrite filter_app, filter_cons, filter_nil, decide_False, app_nil_r by tauto.
    apply filter_ne_notin, Hnew, Hc'. }
  erewrite destroy_count_app; [|rewrite destroy_steps_trace, Hc; reflexivity].
  assert (Hd2 : destroy_count a w2 = destroy_count a w1).
  { unfold w2. erewrite destroy_count_app; [|simpl; rewrite registered_trace,
      <- app_assoc; reflexivity].
    rewrite filter_no_delete by (repeat constructor; discriminate). simpl. lia. }
  rewrite Hd2, filter_app, length_app.
  rewrite filter_no_delete by (repeat constructor; discriminate).
  change (if 1 =? 1 then [EvDelete a] else []) with [EvDelete a].
  rewrite filter_cons, decide_True by reflexivity. simpl. lia.
Qed.

Lemma CreateObject_DestroyObject_roundtrip_witness :
  exists w2 w3,
    CreateObject Class_CreateObject_concrete PostInitProperties_base
      (Some 10%nat) None "Hero" empty_world = Some (Some 0%nat, w2) /\
    FindObject "Hero" w2 = Some 0%nat /\
    DestroyObject (Some 0%nat) w2 = Some (tt, w3) /\
    heap w3 = delete 0%nat (<[0%nat := mkObject "Hero" (Some 10%nat) None
                                          (ObjectFlagsPrivate new_ObjectData) 1]> ∅) /\
    FindObject "Hero" w3 = None.
Proof.
  destruct (CreateObject_DestroyObject_roundtrip Class_CreateObject_concrete
              10%nat None "Hero" empty_world _ 0%nat _ "Hero"
              eq_refl eq_refl eq_refl eq_refl eq_refl)
    as (w2 & w3 & H1 & H2 & H3 & H4 & H5 & _).
  { intros c' _. apply not_elem_of_nil. }
  exists w2, w3. repeat split; try assumption. rewrite H5. reflexivity.
Defined.

(** X13. An owning reference constructed from a new entity adds a second
    reference beside the creator's.  The entity survives the end of either
    one alone, with a counter of 1, and is reclaimed, exactly once, when
    the other ends too, whichever of the two goes first. *)
Theorem creator_and_handle_both_release (w : World) (a : addr) (h : nat) :
  heap w !! a = None ->
  handles w !! h = None ->
  exists w0 w1,
    new_Object a w = Some (tt, w0) /\
    ObjectPtr.ctor_raw h (Some a) w0 = Some (tt, w1) /\
    GetRefCount a w1 = Some 2 /\
    (exists w2 w3,
       ObjectPtr.dtor h w1 = Some (tt, w2) /\
       GetRefCount a w2 = Some 1 /\
       destroy_count a w2 = destroy_count a w /\
       Release a w2 = Some (tt, w3) /\
       heap w3 !! a = None /\
       destroy_count a w3 = S (destroy_count a w)) /\
    (exists w2 w3,
       Release a w1 = Some (tt, w2) /\
       GetRefCount a w2 = Some 1 /\
       destroy_count a w2 = destroy_count a w /\
       ObjectPtr.dtor h w2 = Some (tt, w3) /\
       heap w3 !! a = None /\
       destroy_count a w3 = S (destroy_count a w)).
Proof.
  intros Hfresh Hh.
  set (w0 := set_heap <[a := new_ObjectData]> w).
  assert (Ho0 : heap w0 !! a = Some new_ObjectData) by apply lookup_insert_eq.
  destruct (ctor_raw_step a new_ObjectData w0 Ho0 h Hh) as (w1 & R1 & Hh1 & Hp1 & Hd1).
  set (o1 := set_RefCount 2 new_ObjectData).
  change (set_RefCount (Int.to_int32 (RefCount new_ObjectData + 1)) new_ObjectData)
    with o1 in Hh1.
  assert (Ho1 : heap w1 !! a = Some o1) by (rewrite Hh1; apply lookup_insert_eq).
  assert (Hhd1 : handles w1 !! h = Some (Some a)) by (rewrite Hp1; apply lookup_insert_eq).
  set (o2 := set_RefCount 1 new_ObjectData).
  exists w0, w1. split; [apply new_Object_fresh; exact Hfresh|].
  split; [exact R1|].
  split; [unfold GetRefCount; rewrite Ho1; reflexivity|].
  split.
  - destruct (dtor_step a o1 w1 Ho1 h Hhd1) as (w2 & R2 & Hh2 & Hp2 & Hd2).
    change (RefCount o1 =? 1) with false in Hh2, Hd2.
    change (set_RefCount (Int.to_int32 (RefCount o1 - 1)) o1) with o2 in Hh2.
    assert (Ho2 : heap w2 !! a = Some o2) by (rewrite Hh2; apply lookup_insert_eq).
    exists w2, (release_world a o2 w2).
    split; [exact R2|].
    split; [unfold GetRefCount; rewrite Ho2; reflexivity|].
    split; [rewrite Hd2, Hd1; unfold destroy_count; simpl; lia|].
    split; [apply (Release_live a w2 o2 Ho2)|].
    split; [rewrite release_world_self; reflexivity|].
    rewrite release_world_destroy_count, Hd2, Hd1. unfold destroy_count. simpl. lia.
  - set (w2 := release_world a o1 w1).
    assert (Ho2 : heap w2 !! a = Some o2).
    { unfold w2. rewrite release_world_self. reflexivity. }
    assert (Hhd2 : handles w2 !! h = Some (Some a)).
    { unfold w2, release_world. simpl. exact Hhd1. }
    assert (Hd2 : destroy_count a w2 = destroy_count a w).
    { unfold w2. rewrite release_world_destroy_count, Hd1.
      unfold destroy_count. simpl. lia. }
    destruct (dtor_step a o2 w2 Ho2 h Hhd2) as (w3 & R3 & Hh3 & Hp3 & Hd3).
    change (RefCount o2 =? 1) with true in Hh3, Hd3.
    exists w2, w3.
    split; [apply (Release_live a w1 o1 Ho1)|].
    split; [unfold GetRefCount; rewrite Ho2; reflexivity|].
    split; [exact Hd2|].
    split; [exact R3|].
    split; [rewrite Hh3; apply lookup_delete_eq|].
    rewrite Hd3, Hd2. lia.
Qed.

Lemma creator_and_handle_both_release_witness :
  exists w0 w1 w2 w3,
    new_Object 0%nat empty_world = Some (tt, w0) /\
    ObjectPtr.ctor_raw 0%nat (Some 0%nat) w0 = Some (tt, w1) /\
    ObjectPtr.dtor 0%nat w1 = Some (tt, w2) /\
    GetRefCount 0%nat w2 = Some 1 /\
    Release 0%nat w2 = Some (tt, w3) /\
    heap w3 !! 0%nat = None.
Proof.
  destruct (creator_and_handle_both_release empty_world 0%nat 0%nat eq_refl eq_refl)
    as (w0 & w1 & H0 & H1 & _ & (w2 & w3 & H2 & Hc & _ & H3 & Hd & _) & _).
  exists w0, w1, w2, w3. repeat split; assumption.
Defined.

(** ** Archive flag queries *)

Lemma IsBinary_testbit flags : IsBinary (Archive_new flags) = Z.testbit flags 2.
Proof.
  unfold IsBinary, ArchiveFlags.and, ArchiveFlags.Binary, ArchiveFlags.None_; simpl Flags.
  rewrite land_bit_eqb by lia. apply negb_involutive.
Qed.

Lemma IsText_testbit flags : IsText (Archive_new flags) = Z.testbit flags 3.
Proof.
  unfold IsText, ArchiveFlags.and, ArchiveFlags.Text, ArchiveFlags.None_; simpl Flags.
  rewrite land_bit_eqb by lia. apply negb_involutive.
Qed.

Lemma IsPersistent_testbit flags : IsPersistent (Archive_new flags) = Z.testbit flags 4.
Proof.
  unfold IsPersistent, ArchiveFlags.and, ArchiveFlags.Persistent, ArchiveFlags.None_;
    simpl Flags.
  rewrite land_bit_eqb by lia. apply negb_involutive.
Qed.

(** X14. Each of the five state queries of [Archive] reads one bit of the
    flags, so each distributes over [operator|] (as a disjunction) and over
    [operator&] (as a conjunction) of flag sets.  None of them reads the
    [Volatile] bit: toggling it changes no answer. *)
Theorem Archive_queries_one_bit_each :
  Forall (fun Q : Archive -> bool =>
            forall f g,
              Q (Archive_new (ArchiveFlags.or f g))
                = Q (Archive_new f) || Q (Archive_new g) /\
              Q (Archive_new (ArchiveFlags.and f g))
                = Q (Archive_new f) && Q (Archive_new g) /\
              Q (Archive_new (Z.lxor f ArchiveFlags.Volatile)) = Q (Archive_new f))
         [IsLoading; IsSaving; IsBinary; IsText; IsPersistent].
Proof.
  repeat apply List.Forall_cons; [| | | | |apply List.Forall_nil]; intros f g;
    rewrite ?IsLoading_testbit, ?IsSaving_testbit, ?IsBinary_testbit, ?IsText_testbit,
            ?IsPersistent_testbit;
    unfold ArchiveFlags.or, ArchiveFlags.and;
    rewrite Z.lor_spec, Z.land_spec, Z.lxor_spec;
    (split; [reflexivity|split; [reflexivity|]]).
  - change (Z.testbit ArchiveFlags.Volatile 0) with false. apply xorb_false_r.
  - change (Z.testbit ArchiveFlags.Volatile 1) with false. apply xorb_false_r.
  - change (Z.testbit ArchiveFlags.Volatile 2) with false. apply xorb_false_r.
  - change (Z.testbit ArchiveFlags.Volatile 3) with false. apply xorb_false_r.
  - change (Z.testbit ArchiveFlags.Volatile 4) with false. apply xorb_false_r.
Qed.

(** ** Engine *)

Lemma Initialize_fresh e :
  m_IsInitialized e = false ->
  Engine.Initialize e
  = mkEngine (Subsystem_Initialize <$> m_Subsystems e) true true
             (m_DeltaTime e) (m_TotalTime e) (m_LastTime e)
             (calls e ++ (CallInitialize <$> seq 0 (length (m_Subsystems e)))).
Proof. intros H. unfold Engine.Initialize. rewrite H. reflexivity. Qed.

Lemma Initialize_again e : m_IsInitialized e = true -> Engine.Initialize e = e.
Proof. intros H. unfold Engine.Initialize. rewrite H. reflexivity. Qed.

Lemma Shutdown_live e :
  m_IsInitialized e = true ->
  Engine.Shutdown e
  = mkEngine [] false false (m_DeltaTime e) (m_TotalTime e) (m_LastTime e)
             (calls e ++ (CallShutdown <$> rev (seq 0 (length (m_Subsystems e))))).
Proof. intros H. unfold Engine.Shutdown. rewrite H. reflexivity. Qed.

Lemma Shutdown_idle e : m_IsInitialized e = false -> Engine.Shutdown e = e.
Proof. intros H. unfold Engine.Shutdown. rewrite H. reflexivity. Qed.

(** X15. A full life cycle.  From an engine that is not initialised,
    [Initialize] calls [Initialize] on every subsystem in the order they
    were added, and the following [Shutdown] calls [Shutdown] on every one
    of them in the reverse order; these are the only calls made.  After it
    the engine holds no subsystem and is neither initialised nor running.
    A second [Initialize] in between and a second [Shutdown] afterwards
    change nothing. *)
Theorem Initialize_Shutdown_cycle (e : EngineData) :
  m_IsInitialized e = false ->
  let n := length (m_Subsystems e) in
  let e1 := Engine.Initialize e in
  let e2 := Engine.Shutdown e1 in
  Engine.IsInitialized e1 = true /\
  length (m_Subsystems e1) = n /\
  Engine.Initialize e1 = e1 /\
  calls e2 = calls e ++ (CallInitialize <$> seq 0 n) ++ (CallShutdown <$> rev (seq 0 n)) /\
  m_Subsystems e2 = [] /\
  Engine.IsInitialized e2 = false /\
  m_IsRunning e2 = false /\
  Engine.Shutdown e2 = e2.
Proof.
  intros H n e1 e2. subst e2 e1 n.
  rewrite (Initialize_fresh e H).
  rewrite Shutdown_live by reflexivity. cbn [m_Subsystems calls m_IsInitialized m_IsRunning
    m_DeltaTime m_TotalTime m_LastTime Engine.IsInitialized].
  rewrite length_fmap, <- app_assoc.
  repeat split.
Qed.

Lemma Initialize_Shutdown_cycle_witness :
  calls (Engine.Shutdown (Engine.Initialize two_subsystem_engine))
  = [CallInitialize 0%nat; CallInitialize 1%nat; CallShutdown 1%nat; CallShutdown 0%nat] /\
  m_Subsystems (Engine.Shutdown (Engine.Initialize two_subsystem_engine)) = [].
Proof.
  pose proof (Initialize_Shutdown_cycle two_subsystem_engine eq_refl)
    as (_ & _ & _ & Hc & Hs & _).
  split; [exact Hc | exact Hs].
Defined.

(** X16. A subsystem added to an engine that is already initialised is
    never initialised: [AddSubsystem] stores it as constructed, a further
    [Initialize] returns at once, and yet the subsystem is updated with the
    others and [Shutdown] calls its [Shutdown], before that of any other
    subsystem. *)
Theorem late_subsystem_is_not_initialized (e : EngineData) (k : SubsystemKind) :
  m_IsInitialized e = true ->
  let n := length (m_Subsystems e) in
  let e1 := Engine.AddSubsystem k e in
  m_Subsystems e1 !! n = Some (new_Subsystem k) /\
  calls e1 = calls e /\
  Engine.Initialize e1 = e1 /\
  (forall f_add deltaTime,
      calls (Engine.Update f_add deltaTime e1)
      = calls e ++ (CallUpdate <$> seq 0 n) ++ [CallUpdate n]) /\
  calls (Engine.Shutdown e1) = calls e ++ CallShutdown n :: (CallShutdown <$> rev (seq 0 n)).
Proof.
  intros H n e1. subst e1 n.
  split.
  { unfold Engine.AddSubsystem; cbn [m_Subsystems].
    rewrite lookup_app_r by lia. rewrite Nat.sub_diag. reflexivity. }
  split; [reflexivity|].
  split; [apply Initialize_again; exact H|].
  split.
  - intros f_add deltaTime. unfold Engine.Update, Engine.AddSubsystem; cbn [m_Subsystems calls].
    rewrite length_app. cbn [length]. rewrite Nat.add_1_r, seq_S, fmap_app. reflexivity.
  - rewrite Shutdown_live by exact H.
    unfold Engine.AddSubsystem; cbn [m_Subsystems calls].
    rewrite length_app. cbn [length]. rewrite Nat.add_1_r, seq_S, rev_app_distr.
    reflexivity.
Qed.

Lemma late_subsystem_is_not_initialized_witness :
  let e := Engine.AddSubsystem KTimeSubsystem (Engine.Initialize two_subsystem_engine) in
  calls (Engine.Shutdown e)
  = [CallInitialize 0%nat; CallInitialize 1%nat;
     CallShutdown 2%nat; CallShutdown 1%nat; CallShutdown 0%nat] /\
  Engine.Initialize e = e.
Proof.
  pose proof (late_subsystem_is_not_initialized (Engine.Initialize two_subsystem_engine)
                KTimeSubsystem eq_refl) as (_ & _ & Hi & _ & Hc).
  split; [exact Hc | exact Hi].
Defined.

Lemma GetSubsystem_Some T e i s :
  Engine.GetSubsystem T e = Some (i, s) ->
  m_Subsystems e !! i = Some s /\ dynamic_cast T s = true /\
  forall j s', m_Subsystems e !! j = Some s' -> (j < i)%nat -> dynamic_cast T s' <> true.
Proof. unfold Engine.GetSubsystem. intros H. apply list_find_Some in H. exact H. Qed.

Lemma dynamic_cast_new T k : dynamic_cast T (new_Subsystem k) = derives_from k T.
Proof. destruct k; reflexivity. Qed.

(** X17. [GetSubsystem<T>] returns the first subsystem, in the order of
    addition, that is a [T] (which the [dynamic_cast] to [T*] accepts), and
    no subsystem ([nullptr]) exactly when none is.  So for the base class
    [Subsystem] it returns the first subsystem added, whatever its class,
    and for a class outside the hierarchy it returns none.
    [AddSubsystem<U>] does not look for an existing one: when the engine
    already has a subsystem that is a [T], [GetSubsystem<T>] keeps
    returning that one whatever is added; when it has none and [U] is a
    [T], the new subsystem is returned; adding a [U] that is not a [T]
    changes no answer.  After the [Shutdown] of an initialised engine
    every query returns [nullptr]. *)
Theorem GetSubsystem_first_of_kind (e : EngineData) (T : SubsystemType) :
  (forall i s, Engine.GetSubsystem T e = Some (i, s) <->
     m_Subsystems e !! i = Some s /\ dynamic_cast T s = true /\
     forall j s', m_Subsystems e !! j = Some s' -> (j < i)%nat ->
                  dynamic_cast T s' <> true) /\
  (Engine.GetSubsystem T e = None <->
     Forall (fun s => dynamic_cast T s <> true) (m_Subsystems e)) /\
  Engine.GetSubsystem TSubsystem e = (fun s => (0%nat, s)) <$> head (m_Subsystems e) /\
  Engine.GetSubsystem TUnrelated e = None /\
  (forall r U, Engine.GetSubsystem T e = Some r ->
     Engine.GetSubsystem T (Engine.AddSubsystem U e) = Some r) /\
  (forall U, derives_from U T = true -> Engine.GetSubsystem T e = None ->
     Engine.GetSubsystem T (Engine.AddSubsystem U e)
     = Some (length (m_Subsystems e), new_Subsystem U)) /\
  (forall U, derives_from U T = false ->
     Engine.GetSubsystem T (Engine.AddSubsystem U e) = Engine.GetSubsystem T e) /\
  (m_IsInitialized e = true -> Engine.GetSubsystem T (Engine.Shutdown e) = None).
Proof.
  assert (Hkeep : forall r U, Engine.GetSubsystem T e = Some r ->
            Engine.GetSubsystem T (Engine.AddSubsystem U e) = Some r).
  { intros [i s] U H. unfold Engine.GetSubsystem in H |- *.
    cbn [Engine.AddSubsystem m_Subsystems].
    apply list_find_app_Some. left. exact H. }
  split; [|split; [|split; [|split; [|split; [exact Hkeep|split; [|split]]]]]].
  - intros i s. split; [apply GetSubsystem_Some|].
    intros H. unfold Engine.GetSubsystem. apply list_find_Some. exact H.
  - unfold Engine.GetSubsystem. apply list_find_None.
  - unfold Engine.GetSubsystem. destruct (m_Subsystems e) as [|s l]; [reflexivity|].
    cbn [list_find head fmap option_fmap option_map]. rewrite decide_True by reflexivity.
    reflexivity.
  - unfold Engine.GetSubsystem. apply list_find_None.
    apply Forall_forall. intros s _. destruct s; discriminate.
  - intros U HU H. unfold Engine.GetSubsystem in H |- *.
    cbn [Engine.AddSubsystem m_Subsystems].
    apply list_find_app_Some. right. split; [lia|]. split; [exact H|].
    rewrite Nat.sub_diag. cbn [list_find].
    rewrite decide_True by (rewrite dynamic_cast_new; exact HU). reflexivity.
  - intros U HU.
    destruct (Engine.GetSubsystem T e) as [r|] eqn:Hg; [exact (Hkeep r U eq_refl)|].
    unfold Engine.GetSubsystem in Hg |- *. cbn [Engine.AddSubsystem m_Subsystems].
    apply list_find_app_None. split; [exact Hg|].
    cbn [list_find].
    rewrite decide_False by (rewrite dynamic_cast_new, HU; discriminate). reflexivity.
  - intros H. rewrite Shutdown_live by exact H. reflexivity.
Qed.

Lemma GetSubsystem_first_of_kind_witness :
  Engine.GetSubsystem TTimeSubsystem
    (Engine.AddSubsystem KTimeSubsystem two_subsystem_engine)
  = Some (0%nat, new_Subsystem KTimeSubsystem) /\
  Engine.GetSubsystem TResourceManager
    (Engine.AddSubsystem KResourceManager (Engine.AddSubsystem KTimeSubsystem Engine.new))
  = Some (1%nat, new_Subsystem KResourceManager) /\
  Engine.GetSubsystem TSubsystem
    (Engine.Shutdown (Engine.Initialize two_subsystem_engine)) = None.
Proof.
  split; [|split].
  - exact (proj1 (proj2 (proj2 (proj2 (proj2 (GetSubsystem_first_of_kind
             two_subsystem_engine TTimeSubsystem)))))
             (0%nat, new_Subsystem KTimeSubsystem) KTimeSubsystem eq_refl).
  - exact (proj1 (proj2 (proj2 (proj2 (proj2 (proj2 (GetSubsystem_first_of_kind
             (Engine.AddSubsystem KTimeSubsystem Engine.new) TResourceManager))))))
             KResourceManager eq_refl eq_refl).
  - exact (proj2 (proj2 (proj2 (proj2 (proj2 (proj2 (proj2 (GetSubsystem_first_of_kind
             (Engine.Initialize two_subsystem_engine) TSubsystem))))))) eq_refl).
Defined.

(** *** The loop of [Run] *)

Section RunLoop.

Variable f_add : Z -> Z -> Z.
Variable f_frame : Z.

Lemma frame_Subsystems e :
  m_Subsystems (Engine.frame f_add f_frame e)
  = Subsystem_Update f_add f_frame <$> m_Subsystems e.
Proof. reflexivity. Qed.

Lemma frame_calls e :
  calls (Engine.frame f_add f_frame e)
  = calls e ++ (CallUpdate <$> seq 0 (length (m_Subsystems e))).
Proof. reflexivity. Qed.

Lemma iter_frame_running n e :
  m_IsRunning (Nat.iter n (Engine.frame f_add f_frame) e) = m_IsRunning e.
Proof. induction n as [|n IH]; [reflexivity | rewrite Nat.iter_succ; exact IH]. Qed.

Lemma iter_frame_initialized n e :
  m_IsInitialized (Nat.iter n (Engine.frame f_add f_frame) e) = m_IsInitialized e.
Proof. induction n as [|n IH]; [reflexivity | rewrite Nat.iter_succ; exact IH]. Qed.

Lemma iter_frame_length n e :
  length (m_Subsystems (Nat.iter n (Engine.frame f_add f_frame) e))
  = length (m_Subsystems e).
Proof.
  induction n as [|n IH]; [reflexivity|].
  rewrite Nat.iter_succ, frame_Subsystems, length_fmap. exact IH.
Qed.

Lemma iter_frame_calls n e :
  calls (Nat.iter n (Engine.frame f_add f_frame) e)
  = calls e ++ concat (replicate n (CallUpdate <$> seq 0 (length (m_Subsystems e)))).
Proof.
  induction n as [|n IH]; [cbn; rewrite app_nil_r; reflexivity|].
  rewrite Nat.iter_succ, frame_calls, IH, iter_frame_length, <- app_assoc.
  f_equal. change (S n) with (1 + n)%nat.
  rewrite Nat.add_comm, replicate_add, concat_app. cbn [replicate concat].
  rewrite app_nil_r. reflexivity.
Qed.

Lemma iter_frame_TotalTime n e :
  m_TotalTime (Nat.iter n (Engine.frame f_add f_frame) e)
  = Nat.iter n (fun x => f_add x f_frame) (m_TotalTime e).
Proof.
  induction n as [|n IH]; [reflexivity|].
  rewrite !Nat.iter_succ, <- IH. reflexivity.
Qed.

Lemma iter_frame_kind n e i s :
  m_Subsystems e !! i = Some s ->
  exists s', m_Subsystems (Nat.iter n (Engine.frame f_add f_frame) e) !! i = Some s' /\
             kind_of s' = kind_of s.
Proof.
  intros H. induction n as [|n (s' & Hs' & Hk)]; [exists s; split; [exact H|reflexivity]|].
  exists (Subsystem_Update f_add f_frame s'). split.
  - rewrite Nat.iter_succ, frame_Subsystems, list_lookup_fmap, Hs'. reflexivity.
  - rewrite <- Hk. destruct s'; reflexivity.
Qed.

Lemma iter_frame_FrameCount n e :
  (forall i t, m_Subsystems e !! i = Some (STime t) -> t_FrameCount t = 0) ->
  forall i t,
    m_Subsystems (Nat.iter n (Engine.frame f_add f_frame) e) !! i = Some (STime t) ->
    TimeSubsystem.GetFrameCount t = Z.of_nat n mod 18446744073709551616 /\
    ((0 < n)%nat -> t_DeltaTime t = f_frame).
Proof.
  intros H0. induction n as [|n IH]; intros i t Hl.
  - split; [apply (H0 i t Hl) | lia].
  - rewrite Nat.iter_succ, frame_Subsystems, list_lookup_fmap in Hl.
    destruct (m_Subsystems (Nat.iter n (Engine.frame f_add f_frame) e) !! i)
      as [[t0|r0]|] eqn:Hl0; cbn in Hl; [|discriminate|discriminate].
    injection Hl as <-. destruct (IH i t0 Hl0) as [Hc _].
    unfold TimeSubsystem.GetFrameCount in Hc |- *.
    cbn [TimeSubsystem.Update t_FrameCount t_DeltaTime]. split; [|reflexivity].
    rewrite Hc. unfold Int.to_uint64. rewrite Zplus_mod_idemp_l. f_equal. lia.
Qed.

Lemma Run_loop_running fuel e :
  m_IsRunning e = true -> Engine.Run_loop f_add f_frame fuel e = None.
Proof.
  revert e. induction fuel as [|fuel IH]; intros e H; [reflexivity|].
  cbn [Engine.Run_loop]. rewrite H. apply IH. exact H.
Qed.

Lemma Run_loop_iter n k e :
  m_IsRunning e = true ->
  Engine.Run_loop f_add f_frame (n + k) e
  = Engine.Run_loop f_add f_frame k (Nat.iter n (Engine.frame f_add f_frame) e).
Proof.
  revert e. induction n as [|n IH]; intros e H; [reflexivity|].
  cbn [Nat.add Engine.Run_loop]. rewrite H, IH by exact H.
  rewrite Nat.iter_swap. reflexivity.
Qed.

Lemma run_engine_ops_flags ops e :
  m_IsInitialized e = m_IsRunning e ->
  m_IsInitialized (run_engine_ops ops e) = m_IsRunning (run_engine_ops ops e).
Proof.
  revert e. induction ops as [|op ops IH]; intros e H; [exact H|].
  apply IH. destruct op; cbn [run_engine_op].
  - unfold Engine.Initialize. destruct (m_IsInitialized e) eqn:Hi; [|reflexivity].
    rewrite Hi. exact H.
  - unfold Engine.Shutdown. destruct (m_IsInitialized e) eqn:Hi; [reflexivity|].
    cbn [negb]. rewrite Hi. exact H.
  - exact H.
Qed.

Lemma Run_start_running e :
  m_IsInitialized e = m_IsRunning e ->
  m_IsRunning (if negb (m_IsInitialized e) then Engine.Initialize e else e) = true.
Proof.
  intros H. destruct (m_IsInitialized e) eqn:Hi; cbn [negb].
  - symmetry. exact H.
  - rewrite Initialize_fresh by exact Hi. reflexivity.
Qed.

(** X18. In every state a client can bring the engine to with [Initialize],
    [Shutdown] and [AddSubsystem], starting from the engine [GetInstance]
    constructs, the engine is running exactly when it is initialised.
    Called in such a state, [Run] finds [m_IsRunning] set at every test of
    its loop: nothing the loop calls clears it, so the loop does not end
    after any number of turns. *)
Theorem Run_loop_never_ends (ops : list EngineOp) :
  let e := run_engine_ops ops Engine.new in
  m_IsInitialized e = m_IsRunning e /\
  (forall n, m_IsRunning (Run_frames f_add f_frame n e) = true) /\
  (forall n k, Engine.Run f_add f_frame (n + k) e
               = Engine.Run_loop f_add f_frame k (Run_frames f_add f_frame n e)) /\
  (forall fuel, Engine.Run f_add f_frame fuel e = None).
Proof.
  intros e.
  assert (H : m_IsInitialized e = m_IsRunning e)
    by (apply run_engine_ops_flags; reflexivity).
  pose proof (Run_start_running e H) as Hr.
  split; [exact H|]. split; [|split].
  - intros n. unfold Run_frames. rewrite iter_frame_running. exact Hr.
  - intros n k. unfold Engine.Run, Run_frames. apply Run_loop_iter. exact Hr.
  - intros fuel. unfold Engine.Run. apply Run_loop_running. exact Hr.
Qed.

(** X19. [Run] called on an engine that is not initialised: after [n]
    turns of the loop the engine has made the [Initialize] calls in order
    and then [n] rounds of [Update] calls, each in the order of addition;
    it has the same subsystems, of the same types; every [TimeSubsystem]
    reports a frame count of [n] modulo 2^64, whatever it held before,
    and the frame time of the last turn; and the engine's total time is
    its earlier value with the frame time added [n] times by float
    addition. *)
Theorem Run_frame_count (e : EngineData) (n : nat) :
  m_IsInitialized e = false ->
  let len := length (m_Subsystems e) in
  let e' := Run_frames f_add f_frame n e in
  calls e' = calls e ++ (CallInitialize <$> seq 0 len)
                     ++ concat (replicate n (CallUpdate <$> seq 0 len)) /\
  length (m_Subsystems e') = len /\
  (forall i s, m_Subsystems e !! i = Some s ->
     exists s', m_Subsystems e' !! i = Some s' /\ kind_of s' = kind_of s) /\
  (forall i t, m_Subsystems e' !! i = Some (STime t) ->
     TimeSubsystem.GetFrameCount t = Z.of_nat n mod 18446744073709551616 /\
     ((0 < n)%nat -> t_DeltaTime t = f_frame)) /\
  m_TotalTime e' = Nat.iter n (fun x => f_add x f_frame) (m_TotalTime e).
Proof.
  intros H len e'. subst e' len. unfold Run_frames. rewrite H. cbn [negb].
  rewrite (Initialize_fresh e H).
  split; [|split; [|split; [|split]]].
  - rewrite iter_frame_calls. cbn [calls m_Subsystems].
    rewrite length_fmap, <- app_assoc. reflexivity.
  - rewrite iter_frame_length. cbn [m_Subsystems]. apply length_fmap.
  - intros i s Hs.
    destruct (iter_frame_kind n
      (mkEngine (Subsystem_Initialize <$> m_Subsystems e) true true
                (m_DeltaTime e) (m_TotalTime e) (m_LastTime e)
                (calls e ++ (CallInitialize <$> seq 0 (length (m_Subsystems e)))))
      i (Subsystem_Initialize s)) as (s' & Hs' & Hk).
    { cbn [m_Subsystems]. rewrite list_lookup_fmap, Hs. reflexivity. }
    exists s'. split; [exact Hs'|]. rewrite Hk. destruct s; reflexivity.
  - apply iter_frame_FrameCount. cbn [m_Subsystems]. intros i t Hl.
    rewrite list_lookup_fmap in Hl.
    destruct (m_Subsystems e !! i) as [[t0|r0]|]; cbn in Hl; [|discriminate|discriminate].
    injection Hl as <-. reflexivity.
  - rewrite iter_frame_TotalTime. reflexivity.
Qed.

End RunLoop.

Lemma Run_frame_count_witness :
  let e' := Run_frames Z.add 1 3 two_subsystem_engine in
  calls e'
  = [CallInitialize 0%nat; CallInitialize 1%nat;
     CallUpdate 0%nat; CallUpdate 1%nat; CallUpdate 0%nat; CallUpdate 1%nat;
     CallUpdate 0%nat; CallUpdate 1%nat] /\
  (forall t, m_Subsystems e' !! 0%nat = Some (STime t) ->
     TimeSubsystem.GetFrameCount t = 3).
Proof.
  pose proof (Run_frame_count Z.add 1 two_subsystem_engine 3 eq_refl)
    as (Hc & _ & _ & Ht & _).
  split; [exact Hc|].
  intros t Hl. exact (proj1 (Ht 0%nat t Hl)).
Defined.
